(** * Password entropy evaluation service

    A shallow embedding of the password strength evaluation API
    ([services/services.py], [database/database.py], [models/models.py],
    [main.py]) together with the properties of its evaluation engine.

    Layout: the Python values the program works on (strings as sequences of
    code points, binary64 floats, exceptions), then one module per source
    module with the functions written as the source has them, then the
    vocabulary of the specification and a few concrete states of the
    service, then the properties. *)

From Stdlib Require Import ZArith NArith QArith Qabs Qround Qpower.
From Stdlib Require Import List String Ascii Bool Lia Lqa Permutation.
From Stdlib Require Import Floats.SpecFloat DecimalString.
Import ListNotations.

(** ** Python strings *)

(** A Python [str] is a sequence of Unicode code points. *)
Definition char := N.
Definition str := list char.

(** A literal of the development, written with the code points of its
    (ASCII) characters. *)
Definition lit (s : string) : str :=
  map N_of_ascii (list_ascii_of_string s).

Definition str_eqb (a b : str) : bool :=
  if list_eq_dec N.eq_dec a b then true else false.

(** The character tables of the interpreter: [str.islower], [str.isupper],
    [str.isdigit] and [str.isalnum] on one-character strings, and
    [str.lower] on whole strings (lower-casing is not character-wise in
    Unicode).  The tables belong to the Python runtime, not to the
    repository, so the program is modelled over any such tables. *)
Class Unicode := {
  islower : char -> bool;
  isupper : char -> bool;
  isdigit : char -> bool;
  isalnum : char -> bool;
  str_lower : str -> str
}.

(** The tables restricted to Basic Latin and the CJK ideographs
    U+4E00..U+9FA5 (letters without case); on these code points they are the
    values CPython reports.  Code points outside are not classified by this
    instance (they come out as non-alphanumeric) and are not used below. *)
Definition in_range (lo hi c : N) : bool := (lo <=? c)%N && (c <=? hi)%N.

Definition latin_islower (c : char) : bool := in_range 97 122 c.
Definition latin_isupper (c : char) : bool := in_range 65 90 c.
Definition latin_isdigit (c : char) : bool := in_range 48 57 c.
Definition latin_isalnum (c : char) : bool :=
  latin_islower c || latin_isupper c || latin_isdigit c
  || in_range 19968 40869 c.
Definition latin_lower (s : str) : str :=
  map (fun c => if latin_isupper c then (c + 32)%N else c) s.

#[export] Instance latin : Unicode := {
  islower := latin_islower;
  isupper := latin_isupper;
  isdigit := latin_isdigit;
  isalnum := latin_isalnum;
  str_lower := latin_lower
}.

(** ** Exceptions and results *)

Inductive exn :=
| TypeError (msg : string)
| ValueError (msg : string)
| OverflowError (msg : string)
| RuntimeError (msg : string)
| AttributeError (msg : string)
| UnicodeEncodeError (msg : string)
| sqlite3_Error (msg : string).

Inductive result (A : Type) :=
| Return (a : A)
| Raise (e : exn).
Arguments Return {A} a.
Arguments Raise {A} e.

Definition exn_str (e : exn) : string :=
  match e with
  | TypeError m | ValueError m | OverflowError m | RuntimeError m
  | AttributeError m | UnicodeEncodeError m | sqlite3_Error m => m
  end.

(** ** Python floats: IEEE 754 binary64

    The carrier is the standard library's [spec_float].  Arithmetic is the
    IEEE definition itself: the exact rational result rounded to the nearest
    representable number, ties to even, overflowing to an infinity.
    Comparison is by value, as Python compares numbers. *)
Module Float64.

Local Open Scope Q_scope.

Definition float := spec_float.

(** The value of a finite number; [0] stands in on the others, which every
    operation below handles before looking at a value. *)
Definition F2Q (x : float) : Q :=
  match x with
  | S754_finite s m e =>
      (if s then inject_Z (Zneg m) else inject_Z (Zpos m)) * 2 ^ e
  | _ => 0
  end.

Definition is_fin (x : float) : bool :=
  match x with
  | S754_zero _ | S754_finite _ _ _ => true
  | _ => false
  end.

(** *** Order *)

Inductive ext := NInf | Fin (q : Q) | PInf.

(** Numbers on the extended line; a NaN has no place on it. *)
Definition ext_of (x : float) : option ext :=
  match x with
  | S754_nan => None
  | S754_infinity s => Some (if s then NInf else PInf)
  | _ => Some (Fin (F2Q x))
  end.

Definition ext_compare (a b : ext) : comparison :=
  match a, b with
  | NInf, NInf => Eq
  | NInf, _ => Lt
  | _, NInf => Gt
  | PInf, PInf => Eq
  | PInf, _ => Gt
  | _, PInf => Lt
  | Fin x, Fin y => Qcompare x y
  end.

Definition fcompare (x y : float) : option comparison :=
  match ext_of x, ext_of y with
  | Some a, Some b => Some (ext_compare a b)
  | _, _ => None
  end.

(** [x < y], [x <= y] and [x == y] on floats: false as soon as one side is
    a NaN. *)
Definition flt (x y : float) : bool :=
  match fcompare x y with Some Lt => true | _ => false end.
Definition fle (x y : float) : bool :=
  match fcompare x y with Some (Lt | Eq) => true | _ => false end.
Definition feq (x y : float) : bool :=
  match fcompare x y with Some Eq => true | _ => false end.

(** A float against a Python [int]: Python compares the two exactly, without
    converting the integer. *)
Definition fcompare_int (x : float) (n : Z) : option comparison :=
  match ext_of x with
  | Some a => Some (ext_compare a (Fin (inject_Z n)))
  | None => None
  end.

Definition flt_int (x : float) (n : Z) : bool :=
  match fcompare_int x n with Some Lt => true | _ => false end.
Definition fge_int (x : float) (n : Z) : bool :=
  match fcompare_int x n with Some (Gt | Eq) => true | _ => false end.
Definition feq_int (x : float) (n : Z) : bool :=
  match fcompare_int x n with Some Eq => true | _ => false end.

(** *** Rounding to nearest, ties to even *)

Definition Qround_half_even (x : Q) : Z :=
  let f := Qfloor x in
  match Qcompare (x - inject_Z f) (1 # 2) with
  | Lt => f
  | Gt => (f + 1)%Z
  | Eq => if Z.even f then f else (f + 1)%Z
  end.

(** [floor (log2 q)] of a positive rational. *)
Definition Qfloor_log2 (q : Q) : Z :=
  let d := (Z.log2 (Qnum q) - Z.log2 (Zpos (Qden q)))%Z in
  if Qle_bool ((2 ^ d)%Q) q then d else (d - 1)%Z.

(** The nearest multiple of the unit in the last place of [q > 0]: 53
    significant bits, and no exponent below that of the subnormals. *)
Definition RNv_pos (q : Q) : Q :=
  let e := Z.max (Qfloor_log2 q - 52) (-1074) in
  inject_Z (Qround_half_even (q / 2 ^ e)) * 2 ^ e.

Definition RN_pos (s : bool) (q : Q) : float :=
  let e := Z.max (Qfloor_log2 q - 52) (-1074) in
  let n := Qround_half_even (q / 2 ^ e) in
  if Qle_bool (2 ^ 1024) (inject_Z n * 2 ^ e) then S754_infinity s
  else match n with
       | Zpos m =>
           if (n =? 2 ^ 53)%Z then S754_finite s (2 ^ 52) (e + 1)
           else S754_finite s m e
       | _ => S754_zero s
       end.

(** [RN szero q]: the binary64 number nearest to [q]; [szero] is the sign of
    an exact zero. *)
Definition RN (szero : bool) (q : Q) : float :=
  match Qcompare q 0 with
  | Eq => S754_zero szero
  | Gt => RN_pos false q
  | Lt => RN_pos true (- q)
  end.

(** *** Arithmetic *)

(** The conversion of an integer, [inf] from [2^1024] on. *)
Definition of_int (z : Z) : float := RN false (inject_Z z).

Definition zero : float := S754_zero false.
Definition one : float := Eval vm_compute in of_int 1.
Definition two : float := Eval vm_compute in of_int 2.

Definition fmul (x y : float) : float :=
  match x, y with
  | S754_nan, _ | _, S754_nan => S754_nan
  | S754_infinity sx, S754_infinity sy => S754_infinity (xorb sx sy)
  | S754_infinity sx, S754_finite sy _ _ => S754_infinity (xorb sx sy)
  | S754_finite sx _ _, S754_infinity sy => S754_infinity (xorb sx sy)
  | S754_infinity _, S754_zero _ => S754_nan
  | S754_zero _, S754_infinity _ => S754_nan
  | S754_finite sx _ _, S754_zero sy => S754_zero (xorb sx sy)
  | S754_zero sx, S754_finite sy _ _ => S754_zero (xorb sx sy)
  | S754_zero sx, S754_zero sy => S754_zero (xorb sx sy)
  | S754_finite sx _ _, S754_finite sy _ _ =>
      RN (xorb sx sy) (F2Q x * F2Q y)
  end.

(** IEEE division of two floats.  (Python's [/] raises [ZeroDivisionError]
    on a zero divisor before dividing; the program divides by non-zero
    literals only.) *)
Definition fdiv (x y : float) : float :=
  match x, y with
  | S754_nan, _ | _, S754_nan => S754_nan
  | S754_infinity sx, S754_infinity sy => S754_nan
  | S754_infinity sx, S754_finite sy _ _ => S754_infinity (xorb sx sy)
  | S754_finite sx _ _, S754_infinity sy => S754_zero (xorb sx sy)
  | S754_infinity sx, S754_zero sy => S754_infinity (xorb sx sy)
  | S754_zero sx, S754_infinity sy => S754_zero (xorb sx sy)
  | S754_finite sx _ _, S754_zero sy => S754_infinity (xorb sx sy)
  | S754_zero sx, S754_finite sy _ _ => S754_zero (xorb sx sy)
  | S754_zero sx, S754_zero sy => S754_nan
  | S754_finite sx _ _, S754_finite sy _ _ =>
      RN (xorb sx sy) (F2Q x / F2Q y)
  end.

(** [round(x, 2)]: the decimal with two places nearest to the exact value
    of [x] (ties to even), then the float nearest to that decimal; infinities
    and NaN round to themselves. *)
Definition round2 (x : float) : float :=
  match x with
  | S754_finite s _ _ =>
      let n := Qround_half_even (Qabs (F2Q x) * 100) in
      let r := inject_Z n / 100 in
      RN s (if s then - r else r)
  | _ => x
  end.

(** Prop-level order on the extended line, for the proofs. *)
Definition ext_le (a b : ext) : Prop :=
  match a, b with
  | NInf, _ => True
  | _, PInf => True
  | Fin x, Fin y => x <= y
  | _, _ => False
  end.

Definition ext_eq (a b : ext) : Prop :=
  match a, b with
  | NInf, NInf => True
  | PInf, PInf => True
  | Fin x, Fin y => x == y
  | _, _ => False
  end.

Definition ext_opp (a : ext) : ext :=
  match a with NInf => PInf | PInf => NInf | Fin q => Fin (- q) end.

Definition RNx_pos (q : Q) : ext :=
  if Qle_bool (2 ^ 1024) (RNv_pos q) then PInf else Fin (RNv_pos q).

(** The value [RN] rounds to, on the extended line. *)
Definition RNx (q : Q) : ext :=
  match Qcompare q 0 with
  | Eq => Fin 0
  | Gt => RNx_pos q
  | Lt => ext_opp (RNx_pos (- q))
  end.

End Float64.
Import Float64.

(** ** The C library and the numeric builtins *)

(** [math.log2] and [**] end in the C library's [log2] and [pow], which the
    language leaves to the platform: the program is modelled over them. *)
Class Libm := {
  libm_log2 : float -> float;
  libm_pow : float -> float -> float
}.

(** What the properties below ask of the library: the sign of a logarithm
    and [log2 x <= 7] up to [x = 128], [pow(x, 0) = 1] (C standard, annex
    F), and for the powers of two that they do not decrease, and leave the
    double range exactly from exponent 1024 on. *)
Class LibmFacts (libm : Libm) : Prop := {
  log2_nonneg :
    forall x, fle one x = true -> fle zero (libm_log2 x) = true;
  log2_le_7 :
    forall x, fle one x = true -> fle x (of_int 128) = true ->
    fle (libm_log2 x) (of_int 7) = true;
  pow_zero :
    forall s, libm_pow two (S754_zero s) = one;
  pow_nonneg :
    forall y, is_fin y = true -> fle zero (libm_pow two y) = true;
  pow_mono :
    forall y1 y2, is_fin y1 = true -> is_fin y2 = true ->
    fle y1 y2 = true -> fle (libm_pow two y1) (libm_pow two y2) = true;
  pow_overflow :
    forall y, is_fin y = true -> fge_int y 1024 = true ->
    libm_pow two y = S754_infinity false;
  pow_finite :
    forall y, is_fin y = true -> flt_int y 1024 = true ->
    is_fin (libm_pow two y) = true
}.

(** A library that is exact wherever the result is a power of two or an
    integer, the cases the examples of this development use; between them it
    takes the value at the integer below. *)
Definition dyadic_log2 (x : float) : float :=
  match x with
  | S754_nan => S754_nan
  | S754_zero _ => S754_infinity true
  | S754_infinity false => S754_infinity false
  | S754_infinity true | S754_finite true _ _ => S754_nan
  | S754_finite false _ _ => of_int (Qfloor_log2 (F2Q x))
  end.

Definition dyadic_pow (x y : float) : float :=
  match y with
  | S754_nan => S754_nan
  | S754_infinity false => S754_infinity false
  | S754_infinity true => zero
  | _ => RN false (Qpower (Qred (F2Q x)) (Qfloor (F2Q y)))
  end.

Definition dyadic : Libm := {|
  libm_log2 := dyadic_log2;
  libm_pow := dyadic_pow
|}.

Section Builtins.
Context {libm : Libm}.

(** The conversion of an [int] operand to [float]. *)
Definition float_of_int (z : Z) : result float :=
  match of_int z with
  | S754_infinity _ => Raise (OverflowError "int too large to convert to float")
  | x => Return x
  end.

(** [math.log2] on an [int].  (An integer beyond the double range takes a
    path of its own in CPython; the program passes keyspaces, at most 94.) *)
Definition math_log2 (n : Z) : result float :=
  if (n <=? 0)%Z then Raise (ValueError "math domain error")
  else Return (libm_log2 (of_int n)).

(** [2 ** w] with [w] a float, as CPython's [float_pow] computes it:
    [v ** 0] is [1.0]; a NaN or infinite exponent is answered without the
    library; otherwise the library's [pow] is called and an infinite result
    raises [OverflowError]. *)
Definition pow2 (w : float) : result float :=
  match w with
  | S754_zero _ => Return one
  | S754_nan => Return S754_nan
  | S754_infinity false => Return (S754_infinity false)
  | S754_infinity true => Return zero
  | S754_finite _ _ _ =>
      match libm_pow two w with
      | S754_infinity _ =>
          Raise (OverflowError "(34, 'Numerical result out of range')")
      | ix => Return ix
      end
  end.

End Builtins.

(** [format(n, ',')] on an [int]: decimal digits in groups of three. *)
Fixpoint group3 (ds : list ascii) (k : nat) : list ascii :=
  match ds with
  | [] => []
  | d :: ds' =>
      match k with
      | 3%nat => ","%char :: d :: group3 ds' 1
      | _ => d :: group3 ds' (S k)
      end
  end.

Definition format_comma (z : Z) : string :=
  let digits := list_ascii_of_string (NilZero.string_of_uint (N.to_uint (Z.abs_N z))) in
  let body := string_of_list_ascii (rev (group3 (rev digits) 0)) in
  if (z <? 0)%Z then ("-" ++ body)%string else body.

(** [f"{rank:,}"] with [rank] an [Optional[int]]: [None] does not
    understand the format. *)
Definition format_comma_opt (rank : option Z) : result string :=
  match rank with
  | Some r => Return (format_comma r)
  | None =>
      Raise (TypeError "unsupported format string passed to NoneType.__format__")
  end.

(** ** models/models.py *)

Module models.

Record CompositionInfo := {
  length : Z;
  has_lowercase : bool;
  has_uppercase : bool;
  has_digits : bool;
  has_symbols : bool;
  keyspace : Z
}.

Record CrackTime := {
  value : float;
  unit : string
}.

Record PasswordEvaluation := {
  strength : string;
  score : Z;
  entropy : float;
  is_common : bool;
  rank : option Z;
  crack_time : CrackTime;
  composition : CompositionInfo;
  recommendation : string
}.

End models.

(** ** database/database.py *)

Module database.

(** A row of the [passwords] table.  The table is built by a migration that
    is not part of the sources; its rows are what the two queries read: the
    lower-cased password and its rank. *)
Record Row := {
  password_lower : str;
  rank : Z
}.

(** A [sqlite3.Connection].  [faults] is the fate of the statements to come,
    in order ([true]: the statement raises), which is how a failure that
    hits one query and not the next shows up. *)
Record Connection := {
  closed : bool;
  corrupt : bool;
  passwords : option (list Row);
  faults : list bool
}.

(** The file [passwords.db], when it exists. *)
Record DbFile := {
  is_database : bool;
  db_passwords : option (list Row);
  db_faults : list bool
}.

(** The [functools.lru_cache] of [is_common_password]: its entries, the
    most recently used first, and its counters. *)
Record LruCache := {
  entries : list (str * bool);
  hits : Z;
  misses : Z
}.

(** The state the module works on: the file system, the two module globals
    ([DB_CONNECTION] and the cache that decorates [is_common_password]) and
    what has been printed. *)
Record World := {
  fs : option DbFile;
  DB_CONNECTION : option Connection;
  cache : LruCache;
  stdout : list string
}.

Definition set_DB_CONNECTION (w : World) (c : option Connection) : World :=
  {| fs := fs w; DB_CONNECTION := c; cache := cache w; stdout := stdout w |}.
Definition set_cache (w : World) (c : LruCache) : World :=
  {| fs := fs w; DB_CONNECTION := DB_CONNECTION w; cache := c; stdout := stdout w |}.
Definition set_stdout (w : World) (o : list string) : World :=
  {| fs := fs w; DB_CONNECTION := DB_CONNECTION w; cache := cache w; stdout := o |}.
Definition set_faults (c : Connection) (f : list bool) : Connection :=
  {| closed := closed c; corrupt := corrupt c; passwords := passwords c; faults := f |}.
Definition set_closed (c : Connection) (b : bool) : Connection :=
  {| closed := b; corrupt := corrupt c; passwords := passwords c; faults := faults c |}.

(** *** Computations: state, and exceptions that keep the state *)

Definition M (A : Type) : Type := World -> result A * World.

Definition ret {A} (a : A) : M A := fun w => (Return a, w).
Definition raise {A} (e : exn) : M A := fun w => (Raise e, w).
Definition bind {A B} (m : M A) (k : A -> M B) : M B :=
  fun w =>
    match m w with
    | (Return a, w') => k a w'
    | (Raise e, w') => (Raise e, w')
    end.
Definition try_except {A} (m : M A) (handler : exn -> M A) : M A :=
  fun w =>
    match m w with
    | (Return a, w') => (Return a, w')
    | (Raise e, w') => handler e w'
    end.
Definition lift {A} (r : result A) : M A := fun w => (r, w).

Notation "x <- m ;; k" := (bind m (fun x => k))
  (at level 61, m at next level, right associativity).
Notation "m ;;; k" := (bind m (fun _ => k))
  (at level 61, right associativity).

Definition print (line : string) : M unit :=
  fun w => (Return tt, set_stdout w (stdout w ++ [line])).

Definition DB_FILE : string := "passwords.db".

(** *** sqlite3 *)

(** One statement on a connection. *)
Definition conn_execute (c : Connection) : result unit * Connection :=
  if closed c then
    (Raise (sqlite3_Error "Cannot operate on a closed database."), c)
  else if corrupt c then
    (Raise (sqlite3_Error "file is not a database"), c)
  else
    match faults c with
    | true :: f => (Raise (sqlite3_Error "disk I/O error"), set_faults c f)
    | false :: f => (Return tt, set_faults c f)
    | [] => (Return tt, c)
    end.

(** [sqlite3.connect(DB_FILE, check_same_thread=False)]: opening never reads
    the file; a missing file is created empty. *)
Definition sqlite3_connect : M Connection :=
  fun w =>
    match fs w with
    | Some f =>
        (Return {| closed := false; corrupt := negb (is_database f);
                   passwords := db_passwords f; faults := db_faults f |}, w)
    | None =>
        (Return {| closed := false; corrupt := false;
                   passwords := None; faults := [] |},
         {| fs := Some {| is_database := true; db_passwords := None;
                          db_faults := [] |};
            DB_CONNECTION := DB_CONNECTION w; cache := cache w;
            stdout := stdout w |})
    end.

(** [conn.execute('PRAGMA ...')] on a connection that is not the global one
    yet. *)
Definition pragma (c : Connection) : M Connection :=
  fun w =>
    match conn_execute c with
    | (Return _, c') => (Return c', w)
    | (Raise e, _) => (Raise e, w)
    end.

(** [cursor = DB_CONNECTION.cursor(); cursor.execute(sql, ...)] followed by
    what the caller reads off the rows of [passwords]. *)
Definition cursor_execute {A} (read : list Row -> A) : M A :=
  fun w =>
    match DB_CONNECTION w with
    | None =>
        (Raise (AttributeError "'NoneType' object has no attribute 'cursor'"), w)
    | Some c =>
        let (r, c') := conn_execute c in
        let w' := set_DB_CONNECTION w (Some c') in
        match r with
        | Raise e => (Raise e, w')
        | Return _ =>
            match passwords c' with
            | None => (Raise (sqlite3_Error "no such table: passwords"), w')
            | Some rows => (Return (read rows), w')
            end
        end
    end.

Definition get_db_connection : M Connection :=
  conn <- sqlite3_connect ;;
  conn <- pragma conn ;;
  conn <- pragma conn ;;
  conn <- pragma conn ;;
  conn <- pragma conn ;;
  ret conn.

Definition os_path_exists : M bool :=
  fun w => (Return (match fs w with Some _ => true | None => false end), w).

Definition init_database : M bool :=
  present <- os_path_exists ;;
  if negb present then
    print "⚠️  Base de datos 'passwords.db' no encontrada." ;;;
    print "   Ejecuta primero: python migrate_csv_to_sqlite.py" ;;;
    ret false
  else
    try_except
      (conn <- get_db_connection ;;
       (fun w => (Return tt, set_DB_CONNECTION w (Some conn))) ;;;
       total <- cursor_execute (fun rows => Z.of_nat (List.length rows)) ;;
       print ("✅ Base de datos conectada: " ++ format_comma total
              ++ " contraseñas cargadas") ;;;
       ret true)
      (fun e =>
         print ("❌ Error al conectar con la base de datos: " ++ exn_str e) ;;;
         ret false).

Definition close_database : M unit :=
  fun w =>
    match DB_CONNECTION w with
    | Some c =>
        print "🔌 Conexión a base de datos cerrada"
          (set_DB_CONNECTION w (Some (set_closed c true)))
    | None => (Return tt, w)
    end.

Section Queries.
Context {U : Unicode}.

(** The function under the decorator. *)
Definition is_common_password_body (password : str) : M bool :=
  fun w =>
    match DB_CONNECTION w with
    | None => (Return false, w)
    | Some _ =>
        try_except
          (cursor_execute
             (fun rows =>
                existsb (fun r => str_eqb (password_lower r) (str_lower password))
                        rows))
          (fun e =>
             print ("Error en búsqueda de contraseña: " ++ exn_str e) ;;;
             ret false)
          w
    end.

(** *** functools.lru_cache(maxsize=10000) *)

Definition maxsize : Z := 10000.

Fixpoint cache_get (key : str) (es : list (str * bool)) : option bool :=
  match es with
  | [] => None
  | (k, v) :: es' => if str_eqb k key then Some v else cache_get key es'
  end.

Definition cache_remove (key : str) (es : list (str * bool)) : list (str * bool) :=
  filter (fun e => negb (str_eqb (fst e) key)) es.

(** A call through the cache.  The key is the argument as it was passed.  A
    hit moves the entry to the front; a miss calls the function and stores
    what it returned, in place of the least recently used entry when the
    cache is full. *)
Definition lru_cache_wrapper (user_function : str -> M bool) (key : str) : M bool :=
  fun w =>
    let c := cache w in
    match cache_get key (entries c) with
    | Some v =>
        (Return v,
         set_cache w {| entries := (key, v) :: cache_remove key (entries c);
                        hits := hits c + 1; misses := misses c |})
    | None =>
        let w1 := set_cache w {| entries := entries c; hits := hits c;
                                 misses := misses c + 1 |} in
        match user_function key w1 with
        | (Raise e, w2) => (Raise e, w2)
        | (Return v, w2) =>
            let c2 := cache w2 in
            let es :=
              match cache_get key (entries c2) with
              | Some _ => entries c2
              | None =>
                  if (Z.of_nat (List.length (entries c2)) <? maxsize)%Z
                  then (key, v) :: entries c2
                  else (key, v) :: removelast (entries c2)
              end in
            (Return v,
             set_cache w2 {| entries := es; hits := hits c2;
                             misses := misses c2 |})
        end
    end.

Definition is_common_password : str -> M bool :=
  lru_cache_wrapper is_common_password_body.

Definition get_password_rank (password : str) : M (option Z) :=
  fun w =>
    match DB_CONNECTION w with
    | None => (Return None, w)
    | Some _ =>
        try_except
          (cursor_execute
             (fun rows =>
                option_map rank
                  (find (fun r => str_eqb (password_lower r) (str_lower password))
                        rows)))
          (fun e =>
             print ("Error al obtener rank: " ++ exn_str e) ;;;
             ret None)
          w
    end.

End Queries.

Record CacheInfo := {
  info_hits : Z;
  info_misses : Z;
  info_size : Z;
  info_maxsize : Z
}.

Definition get_cache_info : M CacheInfo :=
  fun w =>
    (Return {| info_hits := hits (cache w); info_misses := misses (cache w);
               info_size := Z.of_nat (List.length (entries (cache w)));
               info_maxsize := maxsize |}, w).

End database.

(** Sequencing on results alone, for the functions that touch no state. *)
Definition rbind {A B} (r : result A) (k : A -> result B) : result B :=
  match r with
  | Return a => k a
  | Raise e => Raise e
  end.

Notation "x <~ r ;; k" := (rbind r (fun x => k))
  (at level 61, r at next level, right associativity).

(** ** services/services.py *)

Module services.
Import database.
Local Open Scope string_scope.

Section Services.
Context {U : Unicode} {libm : Libm}.

Definition calculate_L (password : str) : Z :=
  Z.of_nat (List.length password).

Definition calculate_N (password : str) : Z :=
  let keyspace := 0%Z in
  let has_lowercase := existsb islower password in
  let has_uppercase := existsb isupper password in
  let has_digits := existsb isdigit password in
  let has_symbols := existsb (fun c => negb (isalnum c)) password in
  let keyspace := if has_lowercase then (keyspace + 26)%Z else keyspace in
  let keyspace := if has_uppercase then (keyspace + 26)%Z else keyspace in
  let keyspace := if has_digits then (keyspace + 10)%Z else keyspace in
  let keyspace := if has_symbols then (keyspace + 32)%Z else keyspace in
  if (keyspace >? 0)%Z then keyspace else 1%Z.

Definition calculate_entropy (password : str) : result float :=
  let L := calculate_L password in
  let N := calculate_N password in
  if (L =? 0)%Z || (N =? 0)%Z then Return zero
  else
    log2_N <~ math_log2 N ;;
    L' <~ float_of_int L ;;
    let entropy := fmul L' log2_N in
    Return (round2 entropy).

Definition analyze_composition (password : str) : models.CompositionInfo :=
  {| models.length := calculate_L password;
     models.has_lowercase := existsb islower password;
     models.has_uppercase := existsb isupper password;
     models.has_digits := existsb isdigit password;
     models.has_symbols := existsb (fun c => negb (isalnum c)) password;
     models.keyspace := calculate_N password |}.

Definition calculate_crack_time (entropy : float) : result models.CrackTime :=
  let attempts_per_second := (10 ^ 11)%Z in
  total_combinations <~ pow2 entropy ;;
  let seconds := fdiv total_combinations (of_int (2 * attempts_per_second)) in
  if flt_int seconds 1 then
    Return {| models.value := round2 (fmul seconds (of_int 1000));
              models.unit := "milisegundos" |}
  else if flt_int seconds 60 then
    Return {| models.value := round2 seconds;
              models.unit := "segundos" |}
  else if flt_int seconds 3600 then
    Return {| models.value := round2 (fdiv seconds (of_int 60));
              models.unit := "minutos" |}
  else if flt_int seconds 86400 then
    Return {| models.value := round2 (fdiv seconds (of_int 3600));
              models.unit := "horas" |}
  else if flt_int seconds 31536000 then
    Return {| models.value := round2 (fdiv seconds (of_int 86400));
              models.unit := "días" |}
  else if flt_int seconds 31536000000 then
    Return {| models.value := round2 (fdiv seconds (of_int 31536000));
              models.unit := "años" |}
  else
    Return {| models.value := round2 (fdiv seconds (of_int 31536000000));
              models.unit := "milenios" |}.

Definition get_strength_category (entropy : float) : string * Z * string :=
  if flt_int entropy 40 then
    ("Muy Débil", 1%Z,
     "Aumenta la longitud y usa diferentes tipos de caracteres (mayúsculas, minúsculas, números, símbolos).")
  else if flt_int entropy 60 then
    ("Débil", 2%Z,
     "Considera agregar más caracteres y variar los tipos de caracteres utilizados.")
  else if flt_int entropy 80 then
    ("Aceptable", 3%Z,
     "Contraseña razonable, pero podría mejorarse con mayor longitud o complejidad.")
  else if flt_int entropy 100 then
    ("Fuerte", 4%Z,
     "Buena contraseña. Mantenla segura y no la reutilices en otros sitios.")
  else
    ("Muy Fuerte", 5%Z,
     "Excelente contraseña. Asegúrate de almacenarla de forma segura.").

Definition evaluate_password (password : str) : database.M models.PasswordEvaluation :=
  entropy <- lift (calculate_entropy password) ;;
  is_common <- is_common_password password ;;
  rank <- (if is_common then get_password_rank password else ret None) ;;
  verdict <-
    (if is_common then
       let strength := "Muy Débil (En Diccionario)" in
       let score := 0%Z in
       let entropy_adjusted := zero in
       position <- lift (format_comma_opt rank) ;;
       let recommendation :=
         ("Esta contraseña está en el puesto #" ++ position
          ++ " de las más comunes. "
          ++ "Es extremadamente predecible. Cámbiala inmediatamente.")%string in
       ret (strength, score, entropy_adjusted, recommendation)
     else
       let '(strength, score, recommendation) := get_strength_category entropy in
       let entropy_adjusted := entropy in
       ret (strength, score, entropy_adjusted, recommendation)) ;;
  let '(strength, score, entropy_adjusted, recommendation) := verdict in
  let composition := analyze_composition password in
  crack_time <- lift (calculate_crack_time entropy_adjusted) ;;
  ret {| models.strength := strength;
         models.score := score;
         models.entropy := entropy_adjusted;
         models.is_common := is_common;
         models.rank := rank;
         models.crack_time := crack_time;
         models.composition := composition;
         models.recommendation := recommendation |}.

End Services.
End services.

(** ** main.py *)

Module main.
Import database.
Local Open Scope string_scope.

Inductive response :=
| HTTP_200 (evaluation : models.PasswordEvaluation)
| HTTP_422
| HTTP_500 (detail : string).

(** What became of the application: the start-up raised, or it served. *)
Inductive outcome :=
| StartupFailed (e : exn)
| Served (responses : list response).

(** A line feed, and the rule of the banner, ["=" * 60]. *)
Definition LF : string := String "010"%char EmptyString.
Definition rule : string :=
  "============================================================".

(** A surrogate code point, U+D800..U+DFFF: a Python [str] can hold one (a
    JSON escape gives one), a text in UTF-8 cannot. *)
Definition is_surrogate (c : char) : bool := in_range 55296 57343 c.

Definition encodable (s : str) : bool :=
  forallb (fun c => negb (is_surrogate c)) s.

Section App.
Context {U : Unicode} {libm : Libm}.

(** The part of [lifespan] before its [yield]. *)
Definition lifespan_startup : database.M unit :=
  print (LF ++ rule) ;;;
  print "🚀 Iniciando Password Entropy Evaluation API" ;;;
  print rule ;;;
  ok <- init_database ;;
  if negb ok then
    print (LF ++ "❌ No se pudo iniciar la API") ;;;
    print ("   Ejecuta primero: python migrate_csv_to_sqlite.py" ++ LF) ;;;
    raise (RuntimeError "Base de datos no disponible")
  else
    print (LF ++ "📚 Documentación Swagger disponible en: http://localhost:8000/docs") ;;;
    print "📚 Documentación ReDoc disponible en: http://localhost:8000/redoc" ;;;
    print (rule ++ LF) ;;;
    ret tt.

(** The part of [lifespan] after its [yield]. *)
Definition lifespan_shutdown : database.M unit := close_database.

Definition evaluate_password_endpoint (password : str) : database.M response :=
  try_except
    (evaluation <- services.evaluate_password password ;;
     ret (HTTP_200 evaluation))
    (fun e =>
       print ("Error al evaluar contraseña: " ++ exn_str e) ;;;
       ret (HTTP_500
              "Error interno al evaluar la contraseña. Por favor, intenta de nuevo.")).

(** [PasswordRequest]: the framework validates [password] before the
    handler runs.  A string with a surrogate code point is refused as no
    text at all, whatever its length, and the refusal, which quotes the
    input, cannot be encoded for the response: the exception (its message
    is the codec's, which names the character and its place) reaches the
    server, and the handler has not run.  Otherwise the framework answers
    422 itself when [password] is shorter than 1 or longer than 128. *)
Definition post_evaluate (password : str) : database.M response :=
  if negb (encodable password) then
    raise (UnicodeEncodeError
             "'utf-8' codec can't encode character: surrogates not allowed")
  else
    let n := Z.of_nat (List.length password) in
    if (1 <=? n)%Z && (n <=? 128)%Z then evaluate_password_endpoint password
    else ret HTTP_422.

(** The server answers 500 by itself when a handler lets an exception
    through. *)
Fixpoint serve (requests : list str) (w : World) : list response * World :=
  match requests with
  | [] => ([], w)
  | password :: rest =>
      let (r, w1) := post_evaluate password w in
      let answer :=
        match r with
        | Return answer => answer
        | Raise _ => HTTP_500 "Internal Server Error"
        end in
      let (answers, w2) := serve rest w1 in
      (answer :: answers, w2)
  end.

(** The application under its server: requests are taken once the start-up
    part of [lifespan] has returned, and not at all when it raised. *)
Definition run (requests : list str) : World -> outcome * World :=
  fun w =>
    match lifespan_startup w with
    | (Raise e, w1) => (StartupFailed e, w1)
    | (Return _, w1) =>
        let (answers, w2) := serve requests w1 in
        (Served answers, snd (lifespan_shutdown w2))
    end.

End App.
End main.

(** * The specification's vocabulary

    Definitions that follow the words of the specification, to state the
    properties against. *)

(** [sys.maxsize], the longest a Python string gets. *)
Definition sys_maxsize : Z := 2 ^ 63 - 1.

Module spec.
Import database.
Local Open Scope string_scope.

(** The weight a character class adds to the keyspace when present. *)
Definition class_weight (present : bool) (w : Z) : Z :=
  if present then w else 0%Z.

(** The strength bands: lower bound (inclusive), upper bound (exclusive,
    none for the last band), label, score. *)
Definition strength_bands : list (Z * option Z * string * Z) :=
  [ (0, Some 40, "Muy Débil", 1);
    (40, Some 60, "Débil", 2);
    (60, Some 80, "Aceptable", 3);
    (80, Some 100, "Fuerte", 4);
    (100, None, "Muy Fuerte", 5) ]%Z.

Definition in_band (lo : Z) (hi : option Z) (e : float) : bool :=
  fge_int e lo && match hi with Some h => flt_int e h | None => true end.

Definition label_of (c : string * Z * string) : string := fst (fst c).
Definition score_of (c : string * Z * string) : Z := snd (fst c).

(** The crack-time bands in order: upper bound in seconds (exclusive),
    unit, and the conversion of the seconds into the unit.  The first band
    whose bound exceeds the seconds wins; past the last bound the unit is
    the millennium. *)
Definition crack_bands : list (Z * string * (float -> float)) :=
  [ (1%Z, "milisegundos", fun s => fmul s (of_int 1000));
    (60%Z, "segundos", fun s => s);
    (3600%Z, "minutos", fun s => fdiv s (of_int 60));
    (86400%Z, "horas", fun s => fdiv s (of_int 3600));
    (31536000%Z, "días", fun s => fdiv s (of_int 86400));
    (31536000000%Z, "años", fun s => fdiv s (of_int 31536000)) ].

Definition last_band : string * (float -> float) :=
  ("milenios", fun s => fdiv s (of_int 31536000000)).

Fixpoint select_band (bands : list (Z * string * (float -> float)))
    (seconds : float) : models.CrackTime :=
  match bands with
  | [] =>
      {| models.value := round2 (snd last_band seconds);
         models.unit := fst last_band |}
  | (bound, unit, scale) :: rest =>
      if flt_int seconds bound then
        {| models.value := round2 (scale seconds); models.unit := unit |}
      else select_band rest seconds
  end.

(** [2^E / (2 * 10^11)], the seconds of an average-case search. *)
Definition seconds_of {libm : Libm} (E : float) : result float :=
  combinations <~ pow2 E ;;
  Return (fdiv combinations (of_int (2 * 10 ^ 11))).

(** The Corpus Store's [rank_of] and the membership predicate on a
    normalized password. *)
Definition rank_of (rows : list Row) (normalized : str) : option Z :=
  option_map rank (find (fun r => str_eqb (password_lower r) normalized) rows).

Definition corpus_member (rows : list Row) (normalized : str) : bool :=
  existsb (fun r => str_eqb (password_lower r) normalized) rows.

(** A connection on which no statement fails, over the table [rows]. *)
Definition healthy_conn (c : Connection) (rows : list Row) : Prop :=
  closed c = false /\ corrupt c = false /\ passwords c = Some rows
  /\ Forall (fun b => b = false) (faults c).

Definition healthy (w : World) (rows : list Row) : Prop :=
  exists c, DB_CONNECTION w = Some c /\ healthy_conn c rows.

(** Every cached answer is the store's answer. *)
Definition consistent {U : Unicode} (w : World) (rows : list Row) : Prop :=
  Forall (fun kv => snd kv = corpus_member rows (str_lower (fst kv)))
         (entries (cache w)).

(** One membership query after the other. *)
Fixpoint ask_all {U : Unicode} (passwords : list str) (w : World)
    : list (result bool) * World :=
  match passwords with
  | [] => ([], w)
  | p :: rest =>
      let (r, w1) := is_common_password p w in
      let (rs, w2) := ask_all rest w1 in
      (r :: rs, w2)
  end.

(** The cache as the specification words it: keyed on the lower-cased
    password. *)
Definition is_common_password_normalized {U : Unicode} (password : str)
    : M bool :=
  lru_cache_wrapper is_common_password_body (str_lower password).

(** What the orchestrator answers for a common password of rank [r]. *)
Definition override_result {U : Unicode} (password : str) (r : Z)
    : models.PasswordEvaluation :=
  {| models.strength := "Muy Débil (En Diccionario)";
     models.score := 0;
     models.entropy := zero;
     models.is_common := true;
     models.rank := Some r;
     models.crack_time :=
       {| models.value := zero; models.unit := "milisegundos" |};
     models.composition := services.analyze_composition password;
     models.recommendation :=
       "Esta contraseña está en el puesto #" ++ format_comma r
       ++ " de las más comunes. "
       ++ "Es extremadamente predecible. Cámbiala inmediatamente." |}.
End spec.

(** * Scenarios

    Concrete states of the service, for the examples. *)

Module scenario.
Import database.
Local Open Scope string_scope.

(** A small corpus. *)
Definition corpus : list Row :=
  [ {| password_lower := lit "123456"; rank := 1 |};
    {| password_lower := lit "password"; rank := 2 |};
    {| password_lower := lit "qwerty"; rank := 4 |} ].

Definition empty_cache : LruCache :=
  {| entries := []; hits := 0; misses := 0 |}.

(** The service after a successful start, before its first request; the
    statements to come on the connection fail as [fate] says. *)
Definition serving (fate : list bool) : World :=
  {| fs := Some {| is_database := true; db_passwords := Some corpus;
                   db_faults := [] |};
     DB_CONNECTION := Some {| closed := false; corrupt := false;
                              passwords := Some corpus; faults := fate |};
     cache := empty_cache;
     stdout := [] |}.

(** The same with a full cache: 10,000 one-character keys, none of them in
    the corpus, the key of code point 0 the most recently used. *)
Definition full_cache : LruCache :=
  {| entries := map (fun i => ([N.of_nat i], false)) (seq 0 (Z.to_nat maxsize));
     hits := 0; misses := 10000 |}.

Definition serving_full : World :=
  {| fs := fs (serving []); DB_CONNECTION := DB_CONNECTION (serving []);
     cache := full_cache; stdout := [] |}.

(** Before any start: no file, no connection. *)
Definition cold : World :=
  {| fs := None; DB_CONNECTION := None; cache := empty_cache; stdout := [] |}.

End scenario.


(** * The vocabulary of the further properties *)

(** What the monotonicity of the entropy asks of the library besides
    [LibmFacts]: [log2] does not decrease from 1 on. *)
Class Log2Monotone (libm : Libm) : Prop :=
  log2_mono :
    forall x y, fle one x = true -> fle x y = true ->
    fle (libm_log2 x) (libm_log2 y) = true.

Module behaviour.
Import database.
Local Open Scope string_scope.

(** The connection, when there is one, reads the table [rows]. *)
Definition over (w : World) (rows : list Row) : Prop :=
  forall c, DB_CONNECTION w = Some c -> passwords c = Some rows.

(** Every cached "common" is a member of the corpus. *)
Definition sound_positives {U : Unicode} (w : World) (rows : list Row) : Prop :=
  Forall (fun kv => snd kv = true ->
                    spec.corpus_member rows (str_lower (fst kv)) = true)
         (entries (cache w)).

Definition within_capacity (w : World) : Prop :=
  (Z.of_nat (List.length (entries (cache w))) <= maxsize)%Z.

Definition distinct_keys (w : World) : Prop :=
  NoDup (map fst (entries (cache w))).

(** What a statement leaves of a connection: everything but the fate of the
    statements to come. *)
Definition same_connection (c c' : Connection) : Prop :=
  closed c' = closed c /\ corrupt c' = corrupt c /\ passwords c' = passwords c.

(** What a query leaves of the state: the file, and the connection up to
    the statements it used. *)
Definition same_store (w w' : World) : Prop :=
  fs w' = fs w
  /\ match DB_CONNECTION w, DB_CONNECTION w' with
     | None, None => True
     | Some c, Some c' => same_connection c c'
     | _, _ => False
     end.

(** The state in which the decorated function runs on a miss: the miss is
    counted before the call. *)
Definition on_miss (w : World) : World :=
  set_cache w {| entries := entries (cache w); hits := hits (cache w);
                 misses := (misses (cache w) + 1)%Z |}.

(** What the orchestrator answers for a password that is not common, of
    entropy [e] and crack time [ct]. *)
Definition plain_result {U : Unicode} (password : str) (e : float)
    (ct : models.CrackTime) : models.PasswordEvaluation :=
  let category := services.get_strength_category e in
  {| models.strength := spec.label_of category;
     models.score := spec.score_of category;
     models.entropy := e;
     models.is_common := false;
     models.rank := None;
     models.crack_time := ct;
     models.composition := services.analyze_composition password;
     models.recommendation := snd category |}.

(** The length the request model asks for: 1 to 128 characters. *)
Definition in_length (password : str) : bool :=
  let n := Z.of_nat (List.length password) in
  (1 <=? n)%Z && (n <=? 128)%Z.

(** A password the request model admits: a text (no surrogate code point)
    of 1 to 128 characters. *)
Definition accepted (password : str) : bool :=
  main.encodable password && in_length password.

(** The detail of the handler's own 500. *)
Definition generic_detail : string :=
  "Error interno al evaluar la contraseña. Por favor, intenta de nuevo.".

(** The body of the server's own 500, sent when an exception reaches it. *)
Definition server_detail : string := "Internal Server Error".

(** The range of the value shown with each unit: lower bound, upper bound
    (none for the millennia), both included. *)
Definition unit_ranges : list (string * Z * option Z) :=
  [ ("milisegundos", 0, Some 1000);
    ("segundos", 1, Some 60);
    ("minutos", 1, Some 60);
    ("horas", 1, Some 24);
    ("días", 1, Some 365);
    ("años", 1, Some 1000);
    ("milenios", 1, None) ]%Z.

Definition value_in_range (lo : Z) (hi : option Z) (v : float) : bool :=
  fle (of_int lo) v
  && match hi with Some h => fle v (of_int h) | None => true end.

(** The place of a key in the cache, counted from the most recently used
    entry. *)
Fixpoint position (key : str) (es : list (str * bool)) : option nat :=
  match es with
  | [] => None
  | (k, _) :: es' =>
      if str_eqb k key then Some 0%nat else option_map S (position key es')
  end.

(** The units in the order of the bands. *)
Definition unit_rank (unit : string) : Z :=
  if String.eqb unit "milisegundos" then 0
  else if String.eqb unit "segundos" then 1
  else if String.eqb unit "minutos" then 2
  else if String.eqb unit "horas" then 3
  else if String.eqb unit "días" then 4
  else if String.eqb unit "años" then 5
  else 6.

(** The database file in place, before the start. *)
Definition installed : World :=
  {| fs := fs (scenario.serving []); DB_CONNECTION := None;
     cache := scenario.empty_cache; stdout := [] |}.

End behaviour.


(** * Properties *)

(** ** Strings *)

Lemma str_eqb_eq (a b : str) : str_eqb a b = true <-> a = b.
Proof.
  unfold str_eqb. destruct (list_eq_dec N.eq_dec a b); split; congruence.
Qed.

Lemma str_eqb_neq (a b : str) : str_eqb a b = false <-> a <> b.
Proof.
  unfold str_eqb. destruct (list_eq_dec N.eq_dec a b); split; congruence.
Qed.

Example format_comma_1234567 : format_comma 1234567 = "1,234,567"%string.
Proof. reflexivity. Qed.

(** ** binary64 arithmetic *)

(** The arithmetic, set against the standard library's own binary64
    operations on a few operands: normal, subnormal, overflowing. *)
Example fdiv_as_SpecFloat :
  let c := of_int (2 * 10 ^ 11) in
  let big := S754_finite false (2 ^ 53 - 1) 971 in
  let tiny := S754_finite false 1 (-1074) in
  fdiv one c = SFdiv 53 1024 one c
  /\ fdiv (of_int 7) (of_int 3) = SFdiv 53 1024 (of_int 7) (of_int 3)
  /\ fdiv tiny (of_int 2) = SFdiv 53 1024 tiny (of_int 2)
  /\ fdiv big (of_int 3) = SFdiv 53 1024 big (of_int 3)
  /\ fdiv tiny big = SFdiv 53 1024 tiny big.
Proof. repeat split; vm_compute; reflexivity. Qed.

Example fmul_as_SpecFloat :
  let big := S754_finite false (2 ^ 53 - 1) 971 in
  let tiny := S754_finite false 1 (-1074) in
  let third := fdiv big (of_int 3) in
  fmul (fdiv one (of_int (2 * 10 ^ 11))) (of_int 1000)
  = SFmul 53 1024 (fdiv one (of_int (2 * 10 ^ 11))) (of_int 1000)
  /\ fmul big big = SFmul 53 1024 big big
  /\ fmul tiny big = SFmul 53 1024 tiny big
  /\ fmul third (of_int 3) = SFmul 53 1024 third (of_int 3)
  /\ fmul (of_int 8) (of_int 5) = SFmul 53 1024 (of_int 8) (of_int 5).
Proof. repeat split; vm_compute; reflexivity. Qed.

Example round2_examples :
  round2 (fdiv one (of_int 3)) = fdiv (of_int 33) (of_int 100)
  /\ round2 (fdiv (of_int 2675) (of_int 1000)) = fdiv (of_int 267) (of_int 100)
  /\ round2 (fdiv (of_int 1099) (of_int 200)) = fdiv (of_int 55) (of_int 10).
Proof. repeat split; vm_compute; reflexivity. Qed.

Section Float64Facts.
Local Open Scope Q_scope.

(** *** Rounding *)
Lemma Qround_half_even_bounds (x : Q) :
  (Qfloor x <= Qround_half_even x <= Qfloor x + 1)%Z.
Proof.
  unfold Qround_half_even.
  destruct (Qcompare _ _); try destruct (Z.even _); lia.
Qed.

Lemma Qround_half_even_Z (z : Z) : Qround_half_even (inject_Z z) = z.
Proof.
  unfold Qround_half_even. rewrite Qfloor_Z.
  assert (H : (inject_Z z - inject_Z z ?= 1 # 2) = Lt).
  { rewrite <- Qlt_alt. ring_simplify. reflexivity. }
  now rewrite H.
Qed.

Lemma Qround_half_even_mono (x y : Q) :
  x <= y -> (Qround_half_even x <= Qround_half_even y)%Z.
Proof.
  intros Hxy.
  pose proof (Qfloor_resp_le _ _ Hxy) as Hf.
  pose proof (Qround_half_even_bounds x) as Bx.
  pose proof (Qround_half_even_bounds y) as By.
  destruct (Z.eq_dec (Qfloor x) (Qfloor y)) as [E | NE]; [| lia].
  unfold Qround_half_even in *. rewrite <- E in *.
  set (f := Qfloor x) in *.
  destruct (Qcompare (x - inject_Z f) (1 # 2)) eqn:Cx;
    destruct (Qcompare (y - inject_Z f) (1 # 2)) eqn:Cy;
    try destruct (Z.even f); try lia;
    try (apply Qeq_alt in Cx); try (apply Qeq_alt in Cy);
    try (rewrite <- Qlt_alt in Cx); try (rewrite <- Qlt_alt in Cy);
    try (rewrite <- Qgt_alt in Cx); try (rewrite <- Qgt_alt in Cy);
    exfalso; lra.
Qed.

Lemma Qround_half_even_le_Z (x : Q) (z : Z) :
  x <= inject_Z z -> (Qround_half_even x <= z)%Z.
Proof.
  intros H. rewrite <- (Qround_half_even_Z z). now apply Qround_half_even_mono.
Qed.

Lemma Qround_half_even_ge_Z (x : Q) (z : Z) :
  inject_Z z <= x -> (z <= Qround_half_even x)%Z.
Proof.
  intros H. rewrite <- (Qround_half_even_Z z). now apply Qround_half_even_mono.
Qed.


(** *** Powers of two *)
Lemma two_pow_pos (e : Z) : 0 < 2 ^ e.
Proof. now apply Qpower_0_lt. Qed.

Lemma two_pow_add (a b : Z) : 2 ^ (a + b) == 2 ^ a * 2 ^ b.
Proof. now apply Qpower_plus. Qed.

Lemma two_pow_succ (e : Z) : 2 ^ (e + 1) == 2 * 2 ^ e.
Proof. rewrite two_pow_add. simpl (2 ^ 1). ring. Qed.

Lemma two_pow_sub (a b : Z) : 2 ^ (a - b) == 2 ^ a / 2 ^ b.
Proof. now apply Qpower_minus. Qed.

Lemma two_pow_mono (a b : Z) : (a <= b)%Z -> 2 ^ a <= 2 ^ b.
Proof. intros H. apply Qpower_le_compat_l; [exact H | discriminate]. Qed.

Lemma two_pow_Z (n : Z) : (0 <= n)%Z -> inject_Z (2 ^ n) == 2 ^ n.
Proof. intros H. now rewrite Zpower_Qpower. Qed.

Lemma two_pow_lt_inv (a b : Z) : 2 ^ a < 2 ^ b -> (a < b)%Z.
Proof.
  intros H. destruct (Z_lt_le_dec a b) as [L | L]; [exact L |].
  apply two_pow_mono in L. lra.
Qed.

Lemma Qfloor_log2_spec (q : Q) :
  0 < q -> 2 ^ Qfloor_log2 q <= q /\ q < 2 ^ (Qfloor_log2 q + 1).
Proof.
  intros Hq. destruct q as [a b]. unfold Qfloor_log2. cbn [Qnum Qden].
  assert (Ha : (0 < a)%Z).
  { unfold Qlt in Hq. cbn in Hq. lia. }
  set (la := Z.log2 a). set (lb := Z.log2 (Zpos b)).
  destruct (Z.log2_spec a Ha) as [A1 A2]. fold la in A1, A2.
  destruct (Z.log2_spec (Zpos b) eq_refl) as [B1 B2]. fold lb in B1, B2.
  assert (La : (0 <= la)%Z) by apply Z.log2_nonneg.
  assert (Lb : (0 <= lb)%Z) by apply Z.log2_nonneg.
  assert (QA1 : 2 ^ la <= inject_Z a).
  { rewrite <- two_pow_Z by exact La. now rewrite <- Zle_Qle. }
  assert (QA2 : inject_Z a < 2 * 2 ^ la).
  { rewrite <- two_pow_succ, <- two_pow_Z by lia.
    rewrite <- Zlt_Qlt. now rewrite <- Z.add_1_r in A2. }
  assert (QB1 : 2 ^ lb <= inject_Z (Zpos b)).
  { rewrite <- two_pow_Z by exact Lb. now rewrite <- Zle_Qle. }
  assert (QB2 : inject_Z (Zpos b) < 2 * 2 ^ lb).
  { rewrite <- two_pow_succ, <- two_pow_Z by lia.
    rewrite <- Zlt_Qlt. now rewrite <- Z.add_1_r in B2. }
  pose proof (two_pow_pos la) as PA. pose proof (two_pow_pos lb) as PB.
  assert (Eq : a # b == inject_Z a / inject_Z (Zpos b)) by apply Qmake_Qdiv.
  assert (PBb : 0 < inject_Z (Zpos b)) by reflexivity.
  assert (D : 2 ^ (la - lb) == 2 ^ la / 2 ^ lb) by apply two_pow_sub.
  assert (U : a # b < 2 * 2 ^ (la - lb)).
  { rewrite Eq, D. apply Qlt_shift_div_r; [exact PBb |].
    unfold Qdiv. 
    assert (T : 2 * (2 ^ la * / 2 ^ lb) * inject_Z (Z.pos b)
                == (2 * 2 ^ la) * (inject_Z (Z.pos b) * / 2 ^ lb)) by ring.
    rewrite T.
    assert (1 <= inject_Z (Z.pos b) * / 2 ^ lb).
    { apply Qle_shift_div_l; [exact PB | lra]. }
    nra. }
  assert (Lw : 2 ^ (la - lb) < 2 * (a # b)).
  { rewrite Eq, D. apply Qlt_shift_div_r; [exact PB |].
    unfold Qdiv.
    assert (T : 2 * (inject_Z a * / inject_Z (Z.pos b)) * 2 ^ lb
                == inject_Z a * ((2 * 2 ^ lb) * / inject_Z (Z.pos b))) by ring.
    rewrite T.
    assert (1 < (2 * 2 ^ lb) * / inject_Z (Z.pos b)).
    { apply Qlt_shift_div_l; [exact PBb | lra]. }
    nra. }
  destruct (Qle_bool (2 ^ (la - lb)) (a # b)) eqn:C.
  - apply Qle_bool_iff in C. split; [exact C |]. now rewrite two_pow_succ.
  - assert (C' : a # b < 2 ^ (la - lb)).
    { apply Qnot_le_lt. intros H. apply Qle_bool_iff in H. congruence. }
    replace (la - lb - 1 + 1)%Z with (la - lb)%Z by lia.
    split; [| exact C'].
    assert (S : 2 ^ (la - lb) == 2 * 2 ^ (la - lb - 1)).
    { rewrite <- two_pow_succ. now replace (la - lb - 1 + 1)%Z with (la - lb)%Z by lia. }
    lra.
Qed.

Lemma Qfloor_log2_mono (p q : Q) :
  0 < p -> p <= q -> (Qfloor_log2 p <= Qfloor_log2 q)%Z.
Proof.
  intros Hp Hpq.
  destruct (Qfloor_log2_spec p Hp) as [P1 _].
  destruct (Qfloor_log2_spec q) as [_ Q2]; [lra |].
  assert (H : 2 ^ Qfloor_log2 p < 2 ^ (Qfloor_log2 q + 1)) by lra.
  apply two_pow_lt_inv in H. lia.
Qed.

Lemma Qdiv_two_pow_le (p q : Q) (e : Z) : p <= q -> p / 2 ^ e <= q / 2 ^ e.
Proof.
  intros H. pose proof (two_pow_pos e) as P.
  apply Qle_shift_div_l; [exact P |].
  unfold Qdiv. rewrite <- Qmult_assoc, (Qmult_comm (/ _)), Qmult_inv_r by lra. lra.
Qed.

Lemma Qdiv_two_pow (a e : Z) : 2 ^ a / 2 ^ e == 2 ^ (a - e).
Proof. symmetry. apply two_pow_sub. Qed.

Lemma RNv_pos_nonneg (q : Q) : 0 < q -> 0 <= RNv_pos q.
Proof.
  intros Hq. unfold RNv_pos.
  set (e := Z.max _ _).
  pose proof (two_pow_pos e) as P.
  assert (N : (0 <= Qround_half_even (q / 2 ^ e))%Z).
  { apply Qround_half_even_ge_Z. apply Qle_shift_div_l; [exact P |].
    change (inject_Z 0) with 0. lra. }
  apply Qmult_le_0_compat; [| lra].
  now rewrite <- (Zle_Qle 0).
Qed.

(** The rounded value stays within the binade of its argument. *)
Lemma RNv_pos_lower (q : Q) :
  0 < q -> (-1074 <= Qfloor_log2 q - 52)%Z -> 2 ^ Qfloor_log2 q <= RNv_pos q.
Proof.
  intros Hq Hk. unfold RNv_pos.
  rewrite Z.max_l by lia.
  set (k := Qfloor_log2 q) in *.
  destruct (Qfloor_log2_spec q Hq) as [L _]. fold k in L.
  assert (N : (2 ^ 52 <= Qround_half_even (q / 2 ^ (k - 52)))%Z).
  { apply Qround_half_even_ge_Z.
    rewrite two_pow_Z by lia.
    replace 52%Z with (k - (k - 52))%Z at 1 by lia.
    rewrite <- Qdiv_two_pow. now apply Qdiv_two_pow_le. }
  rewrite Zle_Qle in N. rewrite two_pow_Z in N by lia.
  pose proof (two_pow_pos (k - 52)) as P.
  assert (E : 2 ^ k == 2 ^ 52 * 2 ^ (k - 52)).
  { rewrite <- two_pow_add. now replace (52 + (k - 52))%Z with k by lia. }
  rewrite E. apply Qmult_le_compat_r; [exact N | lra].
Qed.

Lemma RNv_pos_upper (q : Q) : 0 < q -> RNv_pos q <= 2 ^ (Qfloor_log2 q + 1).
Proof.
  intros Hq. unfold RNv_pos.
  set (k := Qfloor_log2 q) in *.
  set (e := Z.max (k - 52) (-1074)).
  destruct (Qfloor_log2_spec q Hq) as [_ U]. fold k in U.
  pose proof (two_pow_pos e) as P.
  assert (D : q / 2 ^ e <= 2 ^ (k + 1 - e)).
  { rewrite <- Qdiv_two_pow. apply Qdiv_two_pow_le. lra. }
  destruct (Z_le_gt_dec 0 (k + 1 - e)) as [T | T].
  - assert (N : (Qround_half_even (q / 2 ^ e) <= 2 ^ (k + 1 - e))%Z).
    { apply Qround_half_even_le_Z. now rewrite two_pow_Z by lia. }
    rewrite Zle_Qle in N. rewrite two_pow_Z in N by lia.
    assert (E : 2 ^ (k + 1) == 2 ^ (k + 1 - e) * 2 ^ e).
    { rewrite <- two_pow_add. now replace (k + 1 - e + e)%Z with (k + 1)%Z by lia. }
    rewrite E. apply Qmult_le_compat_r; [exact N | lra].
  - assert (H : 2 ^ (k + 1 - e) <= 2 ^ (-1)) by (apply two_pow_mono; lia).
    assert (N : (Qround_half_even (q / 2 ^ e) <= 0)%Z).
    { change 0%Z with (Qround_half_even (1 # 2)).
      apply Qround_half_even_mono.
      change (2 ^ (-1)) with (/ 2) in H.
      assert (/ 2 == 1 # 2) by reflexivity. lra. }
    rewrite Zle_Qle in N.
    pose proof (two_pow_pos (k + 1)).
    assert (inject_Z (Qround_half_even (q / 2 ^ e)) * 2 ^ e <= 0); [| lra].
    apply Qle_trans with (inject_Z 0 * 2 ^ e).
    + apply Qmult_le_compat_r; [exact N | lra].
    + change (inject_Z 0) with 0. lra.
Qed.

Lemma RNv_pos_mono (p q : Q) : 0 < p -> p <= q -> RNv_pos p <= RNv_pos q.
Proof.
  intros Hp Hpq. assert (Hq : 0 < q) by lra.
  pose proof (Qfloor_log2_mono p q Hp Hpq) as K.
  set (e1 := Z.max (Qfloor_log2 p - 52) (-1074)).
  set (e2 := Z.max (Qfloor_log2 q - 52) (-1074)).
  destruct (Z.eq_dec e1 e2) as [E | NE].
  - unfold RNv_pos. fold e1 e2. rewrite <- E.
    pose proof (two_pow_pos e1) as P.
    apply Qmult_le_compat_r; [| lra].
    rewrite <- Zle_Qle. apply Qround_half_even_mono. now apply Qdiv_two_pow_le.
  - assert (K' : (Qfloor_log2 p + 1 <= Qfloor_log2 q)%Z) by lia.
    apply Qle_trans with (2 ^ (Qfloor_log2 p + 1)); [now apply RNv_pos_upper |].
    apply Qle_trans with (2 ^ Qfloor_log2 q); [now apply two_pow_mono |].
    apply RNv_pos_lower; [exact Hq | lia].
Qed.

Lemma ext_le_refl_eq (a b : ext) : ext_eq a b -> ext_le a b.
Proof. destruct a, b; simpl; auto. intros H. rewrite H. apply Qle_refl. Qed.

Lemma ext_eq_sym (a b : ext) : ext_eq a b -> ext_eq b a.
Proof. destruct a, b; simpl; auto. intros H. now symmetry. Qed.

Lemma ext_le_trans (a b c : ext) : ext_le a b -> ext_le b c -> ext_le a c.
Proof.
  destruct a, b, c; simpl; auto; try contradiction. apply Qle_trans.
Qed.

Lemma ext_compare_le (a b : ext) : ext_compare a b <> Gt <-> ext_le a b.
Proof.
  destruct a, b; simpl; try (split; [auto | discriminate]);
    try (split; [congruence | contradiction]).
  unfold Qle, Qcompare. rewrite Z.compare_le_iff. reflexivity.
Qed.

Lemma fle_ext (x y : float) :
  fle x y = true <->
  exists a b, ext_of x = Some a /\ ext_of y = Some b /\ ext_le a b.
Proof.
  unfold fle, fcompare.
  destruct (ext_of x) as [a |], (ext_of y) as [b |];
    try (split; [discriminate | intros (? & ? & ? & ? & ?); discriminate]).
  split.
  - intros H. exists a, b. repeat split. apply ext_compare_le.
    destruct (ext_compare a b); congruence.
  - intros (a' & b' & Ea & Eb & L). inversion Ea; inversion Eb; subst.
    apply ext_compare_le in L. destruct (ext_compare a' b'); congruence.
Qed.

Lemma RNx_pos_mono (p q : Q) : 0 < p -> p <= q -> ext_le (RNx_pos p) (RNx_pos q).
Proof.
  intros Hp Hpq. pose proof (RNv_pos_mono p q Hp Hpq) as M.
  unfold RNx_pos.
  destruct (Qle_bool (2 ^ 1024) (RNv_pos p)) eqn:Op;
    destruct (Qle_bool (2 ^ 1024) (RNv_pos q)) eqn:Oq; simpl; auto.
  apply Qle_bool_iff in Op.
  assert (Qle_bool (2 ^ 1024) (RNv_pos q) = true); [| congruence].
  apply Qle_bool_iff. now apply Qle_trans with (RNv_pos p).
Qed.

Lemma RNx_pos_nonneg (q : Q) : 0 < q -> ext_le (Fin 0) (RNx_pos q).
Proof.
  intros Hq. unfold RNx_pos. destruct (Qle_bool _ _); simpl; auto.
  now apply RNv_pos_nonneg.
Qed.

Lemma ext_opp_le (a b : ext) : ext_le a b -> ext_le (ext_opp b) (ext_opp a).
Proof.
  destruct a, b; simpl; auto. intros H. now apply Qopp_le_compat.
Qed.

Lemma RNx_mono (p q : Q) : p <= q -> ext_le (RNx p) (RNx q).
Proof.
  intros Hpq. unfold RNx.
  destruct (Qcompare p 0) eqn:Cp; destruct (Qcompare q 0) eqn:Cq;
    try (apply Qeq_alt in Cp); try (apply Qeq_alt in Cq);
    try (rewrite <- Qlt_alt in Cp); try (rewrite <- Qlt_alt in Cq);
    try (rewrite <- Qgt_alt in Cp); try (rewrite <- Qgt_alt in Cq);
    try (exfalso; lra).
  - simpl. apply Qle_refl.
  - now apply RNx_pos_nonneg.
  - change (Fin 0) with (ext_opp (Fin (- 0))). apply ext_opp_le.
    apply RNx_pos_nonneg. lra.
  - apply ext_opp_le. apply RNx_pos_mono; lra.
  - apply ext_le_trans with (Fin 0).
    + change (Fin 0) with (ext_opp (Fin (- 0))). apply ext_opp_le.
      apply RNx_pos_nonneg. lra.
    + now apply RNx_pos_nonneg.
  - now apply RNx_pos_mono.
Qed.

Lemma F2Q_finite (s : bool) (m : positive) (e : Z) :
  F2Q (S754_finite s m e)
  == (if s then - (inject_Z (Z.pos m) * 2 ^ e) else inject_Z (Z.pos m) * 2 ^ e).
Proof.
  destruct s; unfold F2Q; [| reflexivity].
  change (inject_Z (Z.neg m)) with (- inject_Z (Z.pos m)). ring.
Qed.

Lemma carry_value (e : Z) :
  inject_Z (Z.pos (2 ^ 52)) * 2 ^ (e + 1) == inject_Z (2 ^ 53) * 2 ^ e.
Proof.
  rewrite two_pow_succ.
  assert (H : inject_Z (2 ^ 53) == 2 * inject_Z (Z.pos (2 ^ 52))) by reflexivity.
  rewrite H. ring.
Qed.

Lemma ext_of_RN_pos (s : bool) (q : Q) :
  0 < q ->
  exists a, ext_of (RN_pos s q) = Some a /\
            ext_eq a (if s then ext_opp (RNx_pos q) else RNx_pos q).
Proof.
  intros Hq. unfold RN_pos, RNx_pos, RNv_pos.
  set (e := Z.max _ _).
  set (n := Qround_half_even (q / 2 ^ e)).
  pose proof (two_pow_pos e) as P.
  assert (N : (0 <= n)%Z).
  { apply Qround_half_even_ge_Z. apply Qle_shift_div_l; [exact P |].
    change (inject_Z 0) with 0. lra. }
  destruct (Qle_bool (2 ^ 1024) (inject_Z n * 2 ^ e)).
  - exists (if s then NInf else PInf). split; [reflexivity |]. now destruct s.
  - destruct n as [| m | m]; [| | lia].
    + exists (Fin 0). split; [reflexivity |]. destruct s; simpl; ring.
    + destruct (Z.pos m =? 2 ^ 53)%Z eqn:E.
      * apply Z.eqb_eq in E. rewrite E.
        eexists. split; [reflexivity |].
        destruct s; cbn [ext_opp ext_eq];
          (etransitivity; [apply F2Q_finite |]); cbv iota;
          rewrite carry_value; reflexivity.
      * eexists. split; [reflexivity |].
        destruct s; cbn [ext_opp ext_eq]; apply F2Q_finite.
Qed.

Lemma ext_of_RN (s : bool) (q : Q) :
  exists a, ext_of (RN s q) = Some a /\ ext_eq a (RNx q).
Proof.
  unfold RN, RNx. destruct (Qcompare q 0) eqn:C.
  - exists (Fin 0). split; [reflexivity | simpl; reflexivity].
  - rewrite <- Qlt_alt in C.
    apply (ext_of_RN_pos true). lra.
  - rewrite <- Qgt_alt in C.
    now apply (ext_of_RN_pos false).
Qed.

Lemma RN_mono (s1 s2 : bool) (p q : Q) :
  p <= q -> fle (RN s1 p) (RN s2 q) = true.
Proof.
  intros H. apply fle_ext.
  destruct (ext_of_RN s1 p) as (a & Ea & Ha).
  destruct (ext_of_RN s2 q) as (b & Eb & Hb).
  exists a, b. repeat split; auto.
  apply ext_le_trans with (RNx p); [now apply ext_le_refl_eq |].
  apply ext_le_trans with (RNx q); [now apply RNx_mono |].
  apply ext_le_refl_eq. now apply ext_eq_sym.
Qed.

Lemma ext_of_fin (x : float) : is_fin x = true -> ext_of x = Some (Fin (F2Q x)).
Proof. destruct x; simpl; congruence. Qed.

Lemma ext_of_Fin_is_fin (x : float) (q : Q) :
  ext_of x = Some (Fin q) -> is_fin x = true.
Proof. destruct x as [| [] | |]; simpl; congruence. Qed.

Lemma RN_nonneg (s : bool) (q : Q) : 0 <= q -> fle zero (RN s q) = true.
Proof. intros H. change zero with (RN false 0). now apply RN_mono. Qed.

Lemma RNx_Fin_bounds (q lo hi : Q) (a b : Q) :
  lo <= q -> q <= hi -> ext_eq (RNx lo) (Fin a) -> ext_eq (RNx hi) (Fin b) ->
  exists v, RNx q = Fin v /\ a <= v /\ v <= b.
Proof.
  intros L H A B.
  pose proof (RNx_mono lo q L) as M1. pose proof (RNx_mono q hi H) as M2.
  destruct (RNx lo) as [| l |]; try contradiction.
  destruct (RNx hi) as [| h |]; try contradiction.
  simpl in A, B.
  destruct (RNx q) as [| v |]; try contradiction.
  exists v. simpl in M1, M2. repeat split; lra.
Qed.

Lemma RN_is_fin_between (s : bool) (q lo hi a b : Q) :
  lo <= q -> q <= hi -> ext_eq (RNx lo) (Fin a) -> ext_eq (RNx hi) (Fin b) ->
  is_fin (RN s q) = true /\ a <= F2Q (RN s q) <= b.
Proof.
  intros L H A B.
  destruct (RNx_Fin_bounds q lo hi a b L H A B) as (v & Ev & V1 & V2).
  destruct (ext_of_RN s q) as (c & Ec & Hc).
  rewrite Ev in Hc. destruct c as [| w |]; try contradiction. simpl in Hc.
  pose proof (ext_of_Fin_is_fin _ _ Ec) as F. split; [exact F |].
  rewrite (ext_of_fin _ F) in Ec. injection Ec as W. rewrite W. lra.
Qed.

Lemma Qfloor_log2_ge (q : Q) (k : Z) : 2 ^ k <= q -> (k <= Qfloor_log2 q)%Z.
Proof.
  intros H. pose proof (two_pow_pos k) as P.
  destruct (Qfloor_log2_spec q) as [_ U]; [lra |].
  assert (L : 2 ^ k < 2 ^ (Qfloor_log2 q + 1)) by lra.
  apply two_pow_lt_inv in L. lia.
Qed.

Lemma RN_overflow (s : bool) (q : Q) :
  2 ^ 1024 <= q -> RN s q = S754_infinity false.
Proof.
  intros H. pose proof (two_pow_pos 1024) as P.
  assert (Hq : 0 < q) by lra.
  unfold RN. rewrite (proj1 (Qgt_alt q 0) Hq).
  pose proof (Qfloor_log2_ge q 1024 H) as K.
  pose proof (RNv_pos_lower q Hq ltac:(lia)) as L.
  assert (O : Qle_bool (2 ^ 1024) (RNv_pos q) = true).
  { apply Qle_bool_iff. apply Qle_trans with (2 ^ Qfloor_log2 q); [| exact L].
    now apply two_pow_mono. }
  unfold RN_pos. unfold RNv_pos in O. now rewrite O.
Qed.

Lemma RN_pos_sign (s : bool) (q : Q) :
  match RN_pos s q with
  | S754_zero s' | S754_infinity s' | S754_finite s' _ _ => s' = s
  | S754_nan => False
  end.
Proof.
  unfold RN_pos. destruct (Qle_bool _ _); [reflexivity |].
  destruct (Qround_half_even _); try reflexivity.
  destruct (_ =? _)%Z; reflexivity.
Qed.

Lemma F2Q_pos (m : positive) (e : Z) : 0 < F2Q (S754_finite false m e).
Proof.
  unfold F2Q. apply Qmult_lt_0_compat; [reflexivity | apply two_pow_pos].
Qed.

Lemma F2Q_neg (m : positive) (e : Z) : F2Q (S754_finite true m e) < 0.
Proof.
  rewrite F2Q_finite. pose proof (F2Q_pos m e) as P. unfold F2Q in P. lra.
Qed.

Lemma fle_zero_cases (x : float) :
  fle zero x = true ->
  match x with
  | S754_zero _ | S754_infinity false | S754_finite false _ _ => True
  | _ => False
  end.
Proof.
  destruct x as [s | [] | | [] m e]; try exact (fun _ => I); try discriminate.
  intros H. apply fle_ext in H. destruct H as (a & b & Ea & Eb & L).
  injection Ea as <-. injection Eb as <-. simpl in L.
  pose proof (F2Q_neg m e). unfold F2Q in *. lra.
Qed.

Lemma fmul_nonneg (m : positive) (e : Z) (y : float) :
  fle zero y = true -> fle zero (fmul (S754_finite false m e) y) = true.
Proof.
  intros H. pose proof (fle_zero_cases y H) as C.
  destruct y as [s | [] | | [] m' e']; try contradiction.
  - now destruct s.
  - reflexivity.
  - unfold fmul. apply RN_nonneg.
    pose proof (F2Q_pos m e). pose proof (F2Q_pos m' e').
    apply Qmult_le_0_compat; lra.
Qed.

Lemma round2_nonneg (x : float) : fle zero x = true -> fle zero (round2 x) = true.
Proof.
  intros H. pose proof (fle_zero_cases x H) as C.
  destruct x as [s | [] | | [] m e]; try contradiction; try exact H.
  unfold round2. apply RN_nonneg.
  assert (N : (0 <= Qround_half_even (Qabs (F2Q (S754_finite false m e)) * 100))%Z).
  { apply Qround_half_even_ge_Z. change (inject_Z 0) with 0.
    apply Qmult_le_0_compat; [apply Qabs_nonneg | discriminate]. }
  apply Qle_shift_div_l; [reflexivity |].
  rewrite Zle_Qle in N. change (inject_Z 0) with 0 in N. lra.
Qed.

Lemma fdiv_fin_ext (x : float) (sc : bool) (mc : positive) (ec : Z) :
  is_fin x = true ->
  exists a, ext_of (fdiv x (S754_finite sc mc ec)) = Some a /\
            ext_eq a (RNx (F2Q x / F2Q (S754_finite sc mc ec))).
Proof.
  intros F. destruct x as [s | s | | s m e]; try discriminate.
  - exists (Fin 0). split; [reflexivity |].
    unfold RNx.
    assert (E : F2Q (S754_zero s) / F2Q (S754_finite sc mc ec) == 0).
    { unfold Qdiv. change (F2Q (S754_zero s)) with 0. ring. }
    apply Qeq_alt in E. rewrite E. simpl. reflexivity.
  - apply ext_of_RN.
Qed.

(** Division by a positive finite number is monotone. *)
Lemma fdiv_mono_l (x y : float) (mc : positive) (ec : Z) :
  fle x y = true ->
  fle (fdiv x (S754_finite false mc ec)) (fdiv y (S754_finite false mc ec)) = true.
Proof.
  intros H. set (c := S754_finite false mc ec).
  pose proof (F2Q_pos mc ec) as Pc. fold c in Pc.
  apply fle_ext in H. destruct H as (a & b & Ea & Eb & L).
  apply fle_ext.
  destruct (is_fin x) eqn:Fx; destruct (is_fin y) eqn:Fy.
  - destruct (fdiv_fin_ext x false mc ec Fx) as (a' & Ea' & Ha').
    destruct (fdiv_fin_ext y false mc ec Fy) as (b' & Eb' & Hb').
    fold c in Ea', Ha', Eb', Hb'.
    exists a', b'. repeat split; auto.
    rewrite (ext_of_fin x Fx) in Ea. rewrite (ext_of_fin y Fy) in Eb.
    injection Ea as <-. injection Eb as <-. simpl in L.
    apply ext_le_trans with (RNx (F2Q x / F2Q c)); [now apply ext_le_refl_eq |].
    apply ext_le_trans with (RNx (F2Q y / F2Q c));
      [| apply ext_le_refl_eq; now apply ext_eq_sym].
    apply RNx_mono. apply Qle_shift_div_l; [exact Pc |].
    unfold Qdiv. rewrite <- Qmult_assoc, (Qmult_comm (/ _)), Qmult_inv_r by lra. lra.
  - destruct (fdiv_fin_ext x false mc ec Fx) as (a' & Ea' & _). fold c in Ea'.
    rewrite (ext_of_fin x Fx) in Ea. injection Ea as <-.
    destruct y as [s | [] | | s m e]; try discriminate.
    + injection Eb as <-. contradiction.
    + exists a', PInf. repeat split; auto. now destruct a'.
  - destruct (fdiv_fin_ext y false mc ec Fy) as (b' & Eb' & _). fold c in Eb'.
    rewrite (ext_of_fin y Fy) in Eb. injection Eb as <-.
    destruct x as [s | [] | | s m e]; try discriminate.
    + exists NInf, b'. repeat split; auto.
    + injection Ea as <-. contradiction.
  - destruct x as [s | [] | | s m e]; try discriminate;
      destruct y as [s' | [] | | s' m' e']; try discriminate;
      injection Ea as <-; injection Eb as <-; try contradiction;
      do 2 eexists; repeat split; try reflexivity; exact I.
Qed.

Lemma of_int_pos_finite (z : Z) :
  (1 <= z <= 2 ^ 63)%Z -> exists m e, of_int z = S754_finite false m e.
Proof.
  intros Hz. unfold of_int.
  assert (L : 1 <= inject_Z z).
  { change 1 with (inject_Z 1). rewrite <- Zle_Qle. lia. }
  assert (U : inject_Z z <= inject_Z (2 ^ 63)) by (rewrite <- Zle_Qle; lia).
  destruct (RN_is_fin_between false (inject_Z z) 1 (inject_Z (2 ^ 63)) 1
              (inject_Z (2 ^ 63)) L U) as [F [V _]].
  { vm_compute. reflexivity. }
  { vm_compute. reflexivity. }
  revert F V. unfold RN.
  assert (C : (inject_Z z ?= 0) = Gt) by (apply Qgt_alt; lra).
  rewrite C. pose proof (RN_pos_sign false (inject_Z z)) as S.
  destruct (RN_pos false (inject_Z z)) as [s | s | | s m e]; try discriminate.
  - intros _ V. simpl in V. lra.
  - subst s. intros _ _. now exists m, e.
Qed.

Lemma of_int_mono (a b : Z) : (a <= b)%Z -> fle (of_int a) (of_int b) = true.
Proof. intros H. apply RN_mono. now rewrite <- Zle_Qle. Qed.

(** *** Comparisons with integers *)

Lemma fge_int_spec (x : float) (n : Z) :
  fge_int x n = true <-> exists a, ext_of x = Some a /\ ext_le (Fin (inject_Z n)) a.
Proof.
  unfold fge_int, fcompare_int. destruct (ext_of x) as [a |].
  - split.
    + intros H. exists a. split; [reflexivity |].
      apply ext_compare_le. destruct a; simpl in *; try congruence.
      rewrite <- (Qcompare_antisym q (inject_Z n)).
      destruct (Qcompare q (inject_Z n)); simpl in *; congruence.
    + intros (a' & E & L). injection E as <-.
      apply ext_compare_le in L. destruct a; simpl in *; try congruence.
      rewrite <- (Qcompare_antisym q (inject_Z n)) in L.
      destruct (Qcompare q (inject_Z n)); simpl in *; congruence.
  - split; [discriminate | intros (a & E & _); discriminate].
Qed.

Lemma flt_int_spec (x : float) (n : Z) :
  flt_int x n = true <->
  exists a, ext_of x = Some a /\ ~ ext_le (Fin (inject_Z n)) a.
Proof.
  unfold flt_int, fcompare_int. destruct (ext_of x) as [a |].
  - split.
    + intros H. exists a. split; [reflexivity |].
      rewrite <- ext_compare_le. destruct a; simpl in *; try congruence.
      rewrite <- (Qcompare_antisym q (inject_Z n)).
      destruct (Qcompare q (inject_Z n)); simpl in *; congruence.
    + intros (a' & E & L). injection E as <-.
      rewrite <- ext_compare_le in L. destruct a; simpl in *.
      * reflexivity.
      * rewrite <- (Qcompare_antisym q (inject_Z n)) in L.
        destruct (Qcompare q (inject_Z n)); simpl in *; try reflexivity;
          exfalso; apply L; discriminate.
      * exfalso. apply L. discriminate.
  - split; [discriminate | intros (a & E & _); discriminate].
Qed.

Lemma fge_int_flt_int (x : float) (n : Z) :
  fge_int x n = true -> flt_int x n = false.
Proof.
  unfold flt_int, fge_int, fcompare_int.
  destruct (ext_of x) as [a |]; [| discriminate].
  destruct (ext_compare _ _); congruence.
Qed.

Lemma fge_int_trans (x : float) (n m : Z) :
  (m <= n)%Z -> fge_int x n = true -> fge_int x m = true.
Proof.
  intros H. rewrite !fge_int_spec. intros (a & E & L). exists a. split; [exact E |].
  apply ext_le_trans with (Fin (inject_Z n)); [| exact L].
  simpl. now rewrite <- Zle_Qle.
Qed.

Lemma flt_int_mono (x : float) (n m : Z) :
  (n <= m)%Z -> flt_int x n = true -> flt_int x m = true.
Proof.
  intros H. rewrite !flt_int_spec. intros (a & E & L). exists a. split; [exact E |].
  intros L'. apply L. apply ext_le_trans with (Fin (inject_Z m)); [| exact L'].
  simpl. now rewrite <- Zle_Qle.
Qed.


Lemma fle_fin (x y : float) :
  is_fin x = true -> is_fin y = true -> fle x y = true -> F2Q x <= F2Q y.
Proof.
  intros Fx Fy H. apply fle_ext in H. destruct H as (a & b & Ea & Eb & L).
  rewrite (ext_of_fin x Fx) in Ea. rewrite (ext_of_fin y Fy) in Eb.
  injection Ea as <-. injection Eb as <-. exact L.
Qed.

Lemma fge_int_fin (x : float) (n : Z) :
  is_fin x = true -> fge_int x n = true -> inject_Z n <= F2Q x.
Proof.
  intros F H. apply fge_int_spec in H. destruct H as (a & E & L).
  rewrite (ext_of_fin x F) in E. injection E as <-. exact L.
Qed.

Lemma flt_int_fin (x : float) (n : Z) :
  is_fin x = true -> flt_int x n = true -> F2Q x < inject_Z n.
Proof.
  intros F H. apply flt_int_spec in H. destruct H as (a & E & L).
  rewrite (ext_of_fin x F) in E. injection E as <-. simpl in L.
  now apply Qnot_le_lt.
Qed.

Lemma two_pow_base (k : Z) : Qpower (Qred (F2Q two)) k == 2 ^ k.
Proof. reflexivity. Qed.

(** *** The reference library *)

Lemma dyadic_pow_fin (y : float) :
  is_fin y = true ->
  dyadic_pow two y = RN false (Qpower (Qred (F2Q two)) (Qfloor (F2Q y))).
Proof. destruct y; simpl; congruence. Qed.

Lemma dyadic_facts : LibmFacts dyadic.
Proof.
  constructor; cbn [libm_log2 libm_pow dyadic].
  - intros x H.
    destruct x as [s | [] | | [] m e]; try reflexivity; try discriminate.
    + exfalso. apply fle_fin in H; try reflexivity.
      pose proof (F2Q_neg m e). assert (F2Q one == 1) by reflexivity. lra.
    + apply fle_fin in H; try reflexivity.
      unfold dyadic_log2, of_int. apply RN_nonneg.
      change 0 with (inject_Z 0). rewrite <- Zle_Qle.
      apply Qfloor_log2_ge. assert (F2Q one == 1) by reflexivity.
      change (2 ^ 0) with 1. lra.
  - intros x H1 H2.
    destruct x as [s | [] | | [] m e]; try reflexivity; try discriminate.
    + exfalso. apply fle_fin in H1; try reflexivity.
      pose proof (F2Q_neg m e). assert (F2Q one == 1) by reflexivity. lra.
    + apply fle_fin in H2; try reflexivity.
      unfold dyadic_log2. apply of_int_mono.
      set (q := F2Q (S754_finite false m e)) in *.
      pose proof (F2Q_pos m e) as P. fold q in P.
      destruct (Qfloor_log2_spec q P) as [L _].
      destruct (Z_le_gt_dec (Qfloor_log2 q) 7) as [K | K]; [exact K |].
      exfalso. assert (T : 2 ^ 8 <= 2 ^ Qfloor_log2 q) by (apply two_pow_mono; lia).
      assert (F2Q (of_int 128) == 128) by reflexivity.
      change (2 ^ 8) with 256 in T. lra.
  - intros []; reflexivity.
  - intros y F. rewrite (dyadic_pow_fin y F). apply RN_nonneg.
    apply Qpower_0_le. discriminate.
  - intros y1 y2 F1 F2 H.
    rewrite (dyadic_pow_fin y1 F1), (dyadic_pow_fin y2 F2).
    apply RN_mono. apply Qpower_le_compat_l; [| discriminate].
    apply Qfloor_resp_le. now apply fle_fin.
  - intros y F H. rewrite (dyadic_pow_fin y F).
    apply RN_overflow. rewrite two_pow_base. apply two_pow_mono.
    apply fge_int_fin in H; [| exact F].
    rewrite <- (Qfloor_Z 1024). now apply Qfloor_resp_le.
  - intros y F H. rewrite (dyadic_pow_fin y F).
    apply flt_int_fin in H; [| exact F].
    assert (K : (Qfloor (F2Q y) <= 1023)%Z).
    { pose proof (Qfloor_le (F2Q y)) as L.
      assert (L' : inject_Z (Qfloor (F2Q y)) < inject_Z 1024) by lra.
      rewrite <- Zlt_Qlt in L'. lia. }
    apply (RN_is_fin_between false _ 0 (2 ^ 1023) 0 (2 ^ 1023)).
    + apply Qpower_0_le. discriminate.
    + rewrite two_pow_base. now apply two_pow_mono.
    + reflexivity.
    + vm_compute. reflexivity.
Qed.


End Float64Facts.

(** ** The keyspace *)

Section Composition.
Context {U : Unicode}.
Local Open Scope Z_scope.

Lemma calculate_N_positive (password : str) : 1 <= services.calculate_N password.
Proof.
  unfold services.calculate_N.
  destruct (existsb islower password), (existsb isupper password),
    (existsb isdigit password), (existsb (fun c => negb (isalnum c)) password);
    cbn; lia.
Qed.

(** C3. The keyspace is the sum of the weights of the classes present
    (26, 26, 10, 32), never zero, and 1 when no class is present: on the
    empty string and on any other string without a recognised class; with
    exactly one class present it is that class's weight. *)
Theorem calculate_N_keyspace (password : str) :
  let lower := existsb islower password in
  let upper := existsb isupper password in
  let digits := existsb isdigit password in
  let symbols := existsb (fun c => negb (isalnum c)) password in
  services.calculate_N password
  = (if lower || upper || digits || symbols
     then spec.class_weight lower 26 + spec.class_weight upper 26
          + spec.class_weight digits 10 + spec.class_weight symbols 32
     else 1)
  /\ services.calculate_N password <> 0
  /\ (lower || upper || digits || symbols = false ->
      services.calculate_N password = 1)
  /\ services.calculate_N [] = 1
  /\ (lower = true -> upper || digits || symbols = false ->
      services.calculate_N password = 26)
  /\ (upper = true -> lower || digits || symbols = false ->
      services.calculate_N password = 26)
  /\ (digits = true -> lower || upper || symbols = false ->
      services.calculate_N password = 10)
  /\ (symbols = true -> lower || upper || digits = false ->
      services.calculate_N password = 32).
Proof.
  intros lower upper digits symbols.
  pose proof (calculate_N_positive password) as P.
  assert (E : services.calculate_N password
              = (if lower || upper || digits || symbols
                 then spec.class_weight lower 26 + spec.class_weight upper 26
                      + spec.class_weight digits 10 + spec.class_weight symbols 32
                 else 1)).
  { unfold services.calculate_N. fold lower upper digits symbols.
    destruct lower, upper, digits, symbols; reflexivity. }
  split; [exact E |]. split; [lia |].
  split; [intros H; rewrite E, H; reflexivity |].
  split; [reflexivity |].
  repeat split; intros H1 H2; rewrite E;
    destruct lower, upper, digits, symbols; try discriminate; reflexivity.
Qed.

End Composition.

(** One class-free character is enough to see the default at work: an
    ideograph is alphanumeric and has no case. *)
Lemma calculate_N_keyspace_witness :
  services.calculate_N (U := latin) [20013%N] = 1%Z
  /\ services.calculate_N (U := latin) (lit "aaaaaaaa") = 26%Z
  /\ services.calculate_N (U := latin) (lit "2024") = 10%Z
  /\ services.calculate_N (U := latin) (lit "Tr0ub4dor&3XQ!") = 94%Z.
Proof.
  pose proof (calculate_N_keyspace (U := latin) [20013%N]) as (_ & _ & H1 & _).
  pose proof (calculate_N_keyspace (U := latin) (lit "aaaaaaaa")) as (_ & _ & _ & _ & H2 & _).
  pose proof (calculate_N_keyspace (U := latin) (lit "2024")) as (_ & _ & _ & _ & _ & _ & H3 & _).
  pose proof (calculate_N_keyspace (U := latin) (lit "Tr0ub4dor&3XQ!")) as (H4 & _).
  split; [apply H1; reflexivity |].
  split; [apply H2; reflexivity |].
  split; [apply H3; reflexivity | exact H4].
Defined.

(** ** The strength classifier *)

Section Strength.
Local Open Scope string_scope.

Lemma fge_int_negb (x : float) (n : Z) :
  x <> S754_nan -> fge_int x n = negb (flt_int x n).
Proof.
  intros N. unfold fge_int, flt_int, fcompare_int.
  destruct (ext_of x) as [a |] eqn:E.
  - destruct (ext_compare a (Fin (inject_Z n))); reflexivity.
  - destruct x; try discriminate. congruence.
Qed.

Lemma fge_int_not_nan (x : float) (n : Z) : fge_int x n = true -> x <> S754_nan.
Proof. intros H E. subst x. discriminate. Qed.

(** C4. The classifier cuts the non-negative entropies into the five
    half-open bands [0,40), [40,60), [60,80), [80,100) and [100,inf), lower
    bounds included, with scores 1 to 5: an entropy lies in a band exactly
    when the classifier answers that band's label and score, so it gets
    exactly one label; and 40.0 is "Débil" (score 2), not "Muy Débil". *)
Theorem get_strength_category_bands (e : float) :
  fge_int e 0 = true ->
  (forall lo hi label sc,
     In (lo, hi, label, sc) spec.strength_bands ->
     (spec.in_band lo hi e = true <->
      spec.label_of (services.get_strength_category e) = label
      /\ spec.score_of (services.get_strength_category e) = sc))
  /\ (exists lo hi label sc,
        In (lo, hi, label, sc) spec.strength_bands
        /\ spec.in_band lo hi e = true)
  /\ spec.label_of (services.get_strength_category (of_int 40)) = "Débil"
  /\ spec.score_of (services.get_strength_category (of_int 40)) = 2%Z.
Proof.
  intros H0.
  pose proof (fge_int_not_nan e 0 H0) as NN.
  assert (M1 : flt_int e 40 = true -> flt_int e 60 = true)
    by (apply flt_int_mono; lia).
  assert (M2 : flt_int e 60 = true -> flt_int e 80 = true)
    by (apply flt_int_mono; lia).
  assert (M3 : flt_int e 80 = true -> flt_int e 100 = true)
    by (apply flt_int_mono; lia).
  split; [| split; [| split; reflexivity]].
  - intros lo hi label sc HIn.
    unfold spec.in_band, services.get_strength_category, spec.label_of, spec.score_of.
    simpl in HIn.
    destruct HIn as [E | [E | [E | [E | [E | []]]]]];
      injection E as <- <- <- <-;
      rewrite ?H0, ?(fge_int_negb e _ NN);
      destruct (flt_int e 40) eqn:B40; destruct (flt_int e 60) eqn:B60;
      destruct (flt_int e 80) eqn:B80; destruct (flt_int e 100) eqn:B100;
      cbn; try (specialize (M1 eq_refl)); try (specialize (M2 eq_refl));
      try (specialize (M3 eq_refl)); try discriminate;
      split; try (intros [? ?]); try discriminate; intros; auto.
  - unfold spec.in_band.
    destruct (flt_int e 40) eqn:B40;
      [exists 0%Z, (Some 40%Z), "Muy Débil", 1%Z; simpl; rewrite H0, B40; auto |].
    destruct (flt_int e 60) eqn:B60;
      [exists 40%Z, (Some 60%Z), "Débil", 2%Z; simpl;
       rewrite (fge_int_negb e _ NN), B40, B60; auto |].
    destruct (flt_int e 80) eqn:B80;
      [exists 60%Z, (Some 80%Z), "Aceptable", 3%Z; simpl;
       rewrite (fge_int_negb e _ NN), B60, B80; auto 6 |].
    destruct (flt_int e 100) eqn:B100;
      [exists 80%Z, (Some 100%Z), "Fuerte", 4%Z; simpl;
       rewrite (fge_int_negb e _ NN), B80, B100; auto 7 |].
    exists 100%Z, None, "Muy Fuerte", 5%Z; simpl.
    rewrite (fge_int_negb e _ NN), B100. auto 8.
Qed.

End Strength.

Lemma get_strength_category_bands_witness :
  spec.in_band 80 (Some 100%Z) (of_int 91) = true
  /\ spec.label_of (services.get_strength_category (of_int 91)) = "Fuerte"%string
  /\ spec.score_of (services.get_strength_category (of_int 91)) = 4%Z.
Proof.
  assert (H0 : fge_int (of_int 91) 0 = true) by reflexivity.
  destruct (get_strength_category_bands (of_int 91) H0) as [H _].
  assert (B : spec.in_band 80 (Some 100%Z) (of_int 91) = true) by reflexivity.
  split; [exact B |].
  apply (H 80%Z (Some 100%Z) "Fuerte"%string 4%Z); [| exact B].
  simpl. auto.
Defined.

(** ** The crack-time estimator *)

Section CrackTime.
Context {libm : Libm} {Hlibm : LibmFacts libm}.
Local Open Scope string_scope.

Lemma fle_not_nan_r (x y : float) : fle x y = true -> y <> S754_nan.
Proof. intros H E. subst. destruct x as [| [] | |]; discriminate. Qed.

Lemma fle_pinf (x : float) : x <> S754_nan -> fle x (S754_infinity false) = true.
Proof.
  intros N. apply fle_ext. destruct (ext_of x) as [a |] eqn:E.
  - exists a, PInf. repeat split. now destruct a.
  - destruct x; try discriminate. congruence.
Qed.

Lemma pow2_finite_arg (s : bool) (m : positive) (e : Z) (t : float) :
  pow2 (S754_finite s m e) = Return t -> t = libm_pow two (S754_finite s m e).
Proof.
  unfold pow2. destruct (libm_pow two (S754_finite s m e)); congruence.
Qed.

(** [2 ** E] does not decrease with [E]. *)
Lemma pow2_mono (E1 E2 t1 t2 : float) :
  fle E1 E2 = true -> pow2 E1 = Return t1 -> pow2 E2 = Return t2 ->
  fle t1 t2 = true.
Proof.
  intros H P1 P2.
  destruct E1 as [s1 | [] | | s1 m1 e1]; try discriminate;
    destruct E2 as [s2 | [] | | s2 m2 e2]; try discriminate;
    try (apply pow2_finite_arg in P1); try (apply pow2_finite_arg in P2);
    try (injection P1 as <-); try (injection P2 as <-); subst;
    first
      [ now apply pow_mono
      | apply pow_nonneg; reflexivity
      | apply fle_pinf; eapply fle_not_nan_r; apply pow_nonneg; reflexivity
      | match goal with
        | |- fle one (libm_pow two _) = true =>
            rewrite <- (pow_zero s1); now apply pow_mono
        | |- fle (libm_pow two _) one = true =>
            rewrite <- (pow_zero s2); now apply pow_mono
        end
      | vm_compute; reflexivity ].
Qed.

Lemma attack_divisor :
  of_int (2 * 10 ^ 11) = S754_finite false 6553600000000000 (-15).
Proof. vm_compute. reflexivity. Qed.

Lemma seconds_of_mono (E1 E2 s1 s2 : float) :
  fle E1 E2 = true ->
  spec.seconds_of E1 = Return s1 -> spec.seconds_of E2 = Return s2 ->
  fle s1 s2 = true.
Proof.
  unfold spec.seconds_of. intros H S1 S2.
  destruct (pow2 E1) as [t1 |] eqn:P1; [| discriminate].
  destruct (pow2 E2) as [t2 |] eqn:P2; [| discriminate].
  cbn [rbind] in S1, S2.
  assert (V1 : s1 = fdiv t1 (of_int (2 * 10 ^ 11))) by congruence.
  assert (V2 : s2 = fdiv t2 (of_int (2 * 10 ^ 11))) by congruence.
  rewrite V1, V2, attack_divisor. apply fdiv_mono_l.
  exact (pow2_mono E1 E2 t1 t2 H P1 P2).
Qed.

Lemma feq_int_spec (x : float) (n : Z) :
  feq_int x n = true -> fge_int x n = true /\ flt_int x n = false.
Proof.
  unfold feq_int, fge_int, flt_int.
  destruct (fcompare_int x n) as [[] |]; try discriminate. auto.
Qed.

Lemma feq_int_below (x : float) (n m : Z) :
  feq_int x n = true -> (m <= n)%Z -> flt_int x m = false.
Proof.
  intros H L. apply feq_int_spec in H. destruct H as [G _].
  apply fge_int_flt_int. now apply fge_int_trans with n.
Qed.

Lemma feq_int_above (x : float) (n m : Z) :
  feq_int x n = true -> (n < m)%Z -> flt_int x m = true.
Proof.
  unfold feq_int, fcompare_int. intros H L. apply flt_int_spec.
  destruct (ext_of x) as [a |]; [| discriminate].
  exists a. split; [reflexivity |].
  destruct a as [| q |]; simpl in *; try discriminate.
  destruct (Qcompare q (inject_Z n)) eqn:C; try discriminate.
  apply Qeq_alt in C. rewrite C. rewrite <- Zle_Qle. lia.
Qed.

Lemma calculate_crack_time_select (E : float) :
  services.calculate_crack_time E
  = (seconds <~ spec.seconds_of E ;;
     Return (spec.select_band spec.crack_bands seconds)).
Proof.
  unfold services.calculate_crack_time, spec.seconds_of.
  destruct (pow2 E) as [t |]; [| reflexivity].
  cbn [rbind]. cbn [spec.select_band spec.crack_bands spec.last_band fst snd].
  repeat (match goal with |- context [flt_int ?s ?n] =>
                            destruct (flt_int s n); [reflexivity |] end).
  reflexivity.
Qed.

(** C5. The estimator computes seconds = 2^E / (2 * 10^11), picks the unit
    by the ordered band table (the value rounded to two places), the seconds
    never decrease when E grows, a value on a bound falls in the next band
    (60.0 seconds are minutes), and E = 0 gives a value under a millisecond,
    in the milliseconds band. *)
Theorem calculate_crack_time_bands :
  (forall E,
     services.calculate_crack_time E
     = (seconds <~ spec.seconds_of E ;;
        Return (spec.select_band spec.crack_bands seconds)))
  /\ (forall E1 E2 s1 s2,
        fle E1 E2 = true ->
        spec.seconds_of E1 = Return s1 -> spec.seconds_of E2 = Return s2 ->
        fle s1 s2 = true)
  /\ (forall s,
        let unit_at := models.unit (spec.select_band spec.crack_bands s) in
        (feq_int s 1 = true -> unit_at = "segundos")
        /\ (feq_int s 60 = true -> unit_at = "minutos")
        /\ (feq_int s 3600 = true -> unit_at = "horas")
        /\ (feq_int s 86400 = true -> unit_at = "días")
        /\ (feq_int s 31536000 = true -> unit_at = "años")
        /\ (feq_int s 31536000000 = true -> unit_at = "milenios"))
  /\ (exists s0,
        spec.seconds_of zero = Return s0
        /\ flt_int (fmul s0 (of_int 1000)) 1 = true
        /\ services.calculate_crack_time zero
           = Return {| models.value := zero; models.unit := "milisegundos" |}).
Proof.
  split; [exact calculate_crack_time_select |].
  split; [exact seconds_of_mono |].
  split.
  - intros s unit_at. subst unit_at.
    cbn [spec.select_band spec.crack_bands spec.last_band fst snd].
    repeat split; intros H;
      rewrite ?(feq_int_below s _ 1 H), ?(feq_int_below s _ 60 H),
        ?(feq_int_below s _ 3600 H), ?(feq_int_below s _ 86400 H),
        ?(feq_int_below s _ 31536000 H), ?(feq_int_below s _ 31536000000 H) by lia;
      rewrite ?(feq_int_above s _ 60 H), ?(feq_int_above s _ 3600 H),
        ?(feq_int_above s _ 86400 H), ?(feq_int_above s _ 31536000 H),
        ?(feq_int_above s _ 31536000000 H) by lia;
      reflexivity.
  - exists (fdiv one (of_int (2 * 10 ^ 11))).
    split; [reflexivity |]. split; vm_compute; reflexivity.
Qed.


End CrackTime.

Lemma calculate_crack_time_bands_witness :
  fle (of_int 10) (of_int 40) = true
  /\ spec.seconds_of (libm := dyadic) (of_int 10)
     = Return (fdiv (of_int (2 ^ 10)) (of_int (2 * 10 ^ 11)))
  /\ spec.seconds_of (libm := dyadic) (of_int 40)
     = Return (fdiv (of_int (2 ^ 40)) (of_int (2 * 10 ^ 11)))
  /\ fle (fdiv (of_int (2 ^ 10)) (of_int (2 * 10 ^ 11)))
         (fdiv (of_int (2 ^ 40)) (of_int (2 * 10 ^ 11))) = true.
Proof.
  assert (H : fle (of_int 10) (of_int 40) = true) by (vm_compute; reflexivity).
  assert (S1 : spec.seconds_of (libm := dyadic) (of_int 10)
               = Return (fdiv (of_int (2 ^ 10)) (of_int (2 * 10 ^ 11))))
    by (vm_compute; reflexivity).
  assert (S2 : spec.seconds_of (libm := dyadic) (of_int 40)
               = Return (fdiv (of_int (2 ^ 40)) (of_int (2 * 10 ^ 11))))
    by (vm_compute; reflexivity).
  repeat (split; [assumption |]).
  exact (proj1 (proj2 (calculate_crack_time_bands (libm := dyadic) (Hlibm := dyadic_facts)))
           _ _ _ _ H S1 S2).
Defined.

Example crack_time_40_bits :
  services.calculate_crack_time (libm := dyadic) (of_int 40)
  = Return {| models.value := S754_finite false 6192449487634432 (-50);
              models.unit := "segundos" |}.
Proof. vm_compute. reflexivity. Qed.

(** ** The entropy *)

Section Entropy.
Context {U : Unicode} {libm : Libm}.

Lemma one_of_int : one = of_int 1.
Proof. vm_compute. reflexivity. Qed.

Lemma fle_zero_fge_int (x : float) : fle zero x = true -> fge_int x 0 = true.
Proof.
  intros H. apply fle_ext in H. destruct H as (a & b & Ea & Eb & L).
  injection Ea as <-. apply fge_int_spec. now exists b.
Qed.

Lemma float_of_int_length (n : Z) :
  (1 <= n <= sys_maxsize)%Z ->
  exists m e, of_int n = S754_finite false m e
              /\ float_of_int n = Return (S754_finite false m e).
Proof.
  intros H. destruct (of_int_pos_finite n) as (m & e & E).
  { unfold sys_maxsize in H. lia. }
  exists m, e. split; [exact E |]. unfold float_of_int. now rewrite E.
Qed.

(** The entropy of a password, when its length is not 0. *)
Lemma calculate_entropy_value (password : str) :
  (services.calculate_L password <= sys_maxsize)%Z ->
  services.calculate_entropy password
  = Return (if (services.calculate_L password =? 0)%Z then zero
            else round2 (fmul (of_int (services.calculate_L password))
                              (libm_log2 (of_int (services.calculate_N password))))).
Proof.
  intros HL. unfold services.calculate_entropy.
  pose proof (calculate_N_positive password) as HN.
  destruct (services.calculate_L password =? 0)%Z eqn:L0; [reflexivity |].
  apply Z.eqb_neq in L0.
  assert (N0 : (services.calculate_N password =? 0)%Z = false)
    by (apply Z.eqb_neq; lia).
  rewrite N0. cbn [orb]. unfold math_log2.
  assert (N1 : (services.calculate_N password <=? 0)%Z = false)
    by (apply Z.leb_gt; lia).
  rewrite N1. cbn [rbind].
  destruct (float_of_int_length (services.calculate_L password)) as (m & e & E & F).
  { unfold services.calculate_L in *. lia. }
  rewrite F. cbn [rbind]. now rewrite E.
Qed.

Context {Hlibm : LibmFacts libm}.

(** C2. The entropy is length * log2(keyspace) rounded to two places; it is
    0.0 when the length is 0 (or the keyspace were 0); it is never negative,
    and the empty string has entropy 0.0. *)
Theorem calculate_entropy_spec (password : str) :
  let L := services.calculate_L password in
  let N := services.calculate_N password in
  (L <= sys_maxsize)%Z ->
  services.calculate_entropy password
  = Return (if (L =? 0)%Z then zero
            else round2 (fmul (of_int L) (libm_log2 (of_int N))))
  /\ (L = 0%Z \/ N = 0%Z -> services.calculate_entropy password = Return zero)
  /\ (exists e, services.calculate_entropy password = Return e
                /\ fge_int e 0 = true)
  /\ services.calculate_entropy [] = Return zero.
Proof.
  intros L N HL.
  pose proof (calculate_entropy_value password HL) as V. fold L N in V.
  pose proof (calculate_N_positive password) as HN. fold N in HN.
  split; [exact V |]. split; [| split; [| reflexivity]].
  - intros [L0 | N0]; [| lia]. rewrite V, L0. reflexivity.
  - rewrite V. eexists. split; [reflexivity |].
    destruct (L =? 0)%Z eqn:L0; [reflexivity |].
    apply Z.eqb_neq in L0. apply fle_zero_fge_int, round2_nonneg.
    destruct (float_of_int_length L) as (m & e & E & _).
    { unfold L, services.calculate_L in *. lia. }
    rewrite E. apply fmul_nonneg. apply log2_nonneg.
    rewrite one_of_int. now apply of_int_mono.
Qed.

End Entropy.

Lemma calculate_entropy_spec_witness :
  services.calculate_entropy (U := latin) (libm := dyadic) (lit "!!!!!!!!")
  = Return (of_int 40)
  /\ fge_int (of_int 40) 0 = true.
Proof.
  assert (HL : (services.calculate_L (lit "!!!!!!!!") <= sys_maxsize)%Z)
    by (vm_compute; discriminate).
  destruct (calculate_entropy_spec (U := latin) (libm := dyadic) (Hlibm := dyadic_facts)
              (lit "!!!!!!!!") HL) as (V & _ & (e & Ee & Ge) & _).
  assert (C : services.calculate_entropy (U := latin) (libm := dyadic) (lit "!!!!!!!!")
              = Return (of_int 40)) by (vm_compute; reflexivity).
  split; [exact C |].
  rewrite C in Ee. injection Ee as <-. exact Ge.
Defined.

(** ** Overflow of the estimator *)

Section Overflow.
Context {U : Unicode} {libm : Libm} {Hlibm : LibmFacts libm}.
Local Open Scope Q_scope.
Local Open Scope string_scope.

Lemma calculate_N_at_most_94 (password : str) :
  (services.calculate_N password <= 94)%Z.
Proof.
  unfold services.calculate_N.
  destruct (existsb islower password), (existsb isupper password),
    (existsb isdigit password), (existsb (fun c => negb (isalnum c)) password);
    cbn; lia.
Qed.

(** A product of a positive number up to 128 and a number from 0 to 7 stays
    up to 896. *)
Lemma fmul_le_896 (m : positive) (e : Z) (y : float) :
  F2Q (S754_finite false m e) <= 128 ->
  fle zero y = true -> fle y (of_int 7) = true ->
  fle (fmul (S754_finite false m e) y) (of_int 896) = true.
Proof.
  intros Hx H0 H7. pose proof (fle_zero_cases y H0) as C.
  destruct y as [s | [] | | [] m' e']; try contradiction; try discriminate.
  - destruct s; vm_compute; reflexivity.
  - unfold fmul, of_int. apply RN_mono.
    apply fle_fin in H7; try reflexivity.
    assert (E7 : F2Q (of_int 7) == 7) by reflexivity.
    pose proof (F2Q_pos m e). pose proof (F2Q_pos m' e').
    change (inject_Z 896) with (128 * 7).
    apply Qle_trans with (128 * F2Q (S754_finite false m' e')).
    + apply Qmult_le_compat_r; lra.
    + rewrite !(Qmult_comm 128). apply Qmult_le_compat_r; lra.
Qed.

Lemma round2_le_896 (x : float) :
  fle zero x = true -> fle x (of_int 896) = true ->
  fle (round2 x) (of_int 896) = true.
Proof.
  intros H0 H. pose proof (fle_zero_cases x H0) as C.
  destruct x as [s | [] | | [] m e]; try contradiction; try exact H.
  unfold round2, of_int. apply RN_mono.
  apply fle_fin in H; try reflexivity.
  assert (E : F2Q (of_int 896) == 896) by reflexivity.
  pose proof (F2Q_pos m e) as P.
  set (q := F2Q (S754_finite false m e)) in *.
  assert (A : Qabs q == q) by (apply Qabs_pos; lra).
  assert (N : (Qround_half_even (Qabs q * 100) <= 89600)%Z).
  { apply Qround_half_even_le_Z. rewrite A.
    change (inject_Z 89600) with (896 * 100). apply Qmult_le_compat_r; lra. }
  apply Qle_shift_div_r; [reflexivity |].
  rewrite Zle_Qle in N. change (inject_Z 896 * 100) with (inject_Z 89600).
  exact N.
Qed.

Lemma fle_896_below_1024 (x : float) :
  fle x (of_int 896) = true -> flt_int x 1024 = true.
Proof.
  intros H. apply fle_ext in H. destruct H as (a & b & Ea & Eb & L).
  apply flt_int_spec. exists a. split; [exact Ea |].
  assert (Eb' : ext_of (of_int 896) = Some (Fin (F2Q (of_int 896)))) by reflexivity.
  rewrite Eb' in Eb. injection Eb as <-.
  assert (E : F2Q (of_int 896) == 896) by reflexivity.
  destruct a as [| q |]; simpl in *; try tauto.
  intros L'. assert (inject_Z 1024 == 1024) by reflexivity. lra.
Qed.

(** The entropy of a password of at most 128 characters, the longest the
    request model admits, is a number from 0 to 896. *)
Lemma calculate_entropy_within_range (password : str) :
  (services.calculate_L password <= 128)%Z ->
  exists e,
    services.calculate_entropy password = Return e
    /\ fge_int e 0 = true /\ flt_int e 1024 = true.
Proof.
  intros HL.
  assert (HL' : (services.calculate_L password <= sys_maxsize)%Z)
    by (unfold sys_maxsize; lia).
  rewrite (calculate_entropy_value password HL').
  eexists. split; [reflexivity |].
  destruct (services.calculate_L password =? 0)%Z eqn:L0;
    [split; vm_compute; reflexivity |].
  apply Z.eqb_neq in L0.
  pose proof (calculate_N_positive password) as N1.
  pose proof (calculate_N_at_most_94 password) as N94.
  set (L := services.calculate_L password) in *.
  set (N := services.calculate_N password) in *.
  assert (Lpos : (1 <= L)%Z) by (unfold L, services.calculate_L in *; lia).
  destruct (of_int_pos_finite L) as (m & e & E); [lia |].
  assert (X1 : fle one (of_int N) = true)
    by (rewrite one_of_int; now apply of_int_mono).
  assert (X2 : fle (of_int N) (of_int 128) = true) by (apply of_int_mono; lia).
  pose proof (log2_nonneg _ X1) as G0.
  pose proof (log2_le_7 _ X1 X2) as G7.
  assert (FL : F2Q (S754_finite false m e) <= 128).
  { rewrite <- E. assert (E128 : F2Q (of_int 128) == 128) by reflexivity.
    rewrite <- E128. apply fle_fin.
    - now rewrite E.
    - reflexivity.
    - apply of_int_mono. lia. }
  rewrite E.
  pose proof (fmul_nonneg m e _ G0) as M0.
  pose proof (fmul_le_896 m e _ FL G0 G7) as M1.
  split.
  - apply fle_zero_fge_int. now apply round2_nonneg.
  - apply fle_896_below_1024. now apply round2_le_896.
Qed.

(** C6 (as amended). The estimator returns a result for every entropy
    from 0 up to, and not including, 1024, which covers the entropy of every
    password of at most 128 characters, the longest the request model
    admits; from 1024 on a finite entropy makes [2 ** E] raise
    [OverflowError], and only an infinite entropy reaches the millennia
    band, with an infinite value. *)
Theorem calculate_crack_time_total_below_1024 (E : float) :
  (fge_int E 0 = true -> flt_int E 1024 = true ->
   exists ct, services.calculate_crack_time E = Return ct)
  /\ (is_fin E = true -> fge_int E 1024 = true ->
      services.calculate_crack_time E
      = Raise (OverflowError "(34, 'Numerical result out of range')"))
  /\ services.calculate_crack_time (S754_infinity false)
     = Return {| models.value := S754_infinity false;
                 models.unit := "milenios" |}
  /\ (forall password,
        (services.calculate_L password <= 128)%Z ->
        exists e ct,
          services.calculate_entropy password = Return e
          /\ fge_int e 0 = true /\ flt_int e 1024 = true
          /\ services.calculate_crack_time e = Return ct).
Proof.
  assert (Below : forall E',
            fge_int E' 0 = true -> flt_int E' 1024 = true ->
            exists ct, services.calculate_crack_time E' = Return ct).
  { intros E' H0 H1. rewrite calculate_crack_time_select. unfold spec.seconds_of.
    destruct E' as [s | [] | | s m e]; try discriminate.
    + eexists. reflexivity.
    + pose proof (pow_finite (S754_finite s m e) eq_refl H1) as F.
      unfold pow2. destruct (libm_pow two (S754_finite s m e)); try discriminate;
        eexists; reflexivity. }
  split; [apply Below |]. split; [| split].
  - intros F H. unfold services.calculate_crack_time.
    destruct E as [s | | | s m e]; try discriminate.
    unfold pow2. now rewrite (pow_overflow (S754_finite s m e) eq_refl H).
  - vm_compute. reflexivity.
  - intros password HL.
    destruct (calculate_entropy_within_range password HL) as (e & He & H0 & H1).
    destruct (Below e H0 H1) as (ct & Hct).
    exists e, ct. auto.
Qed.

End Overflow.

(** C6, the claim as stated fails: at entropy 1024.0 the estimator raises. *)
Lemma calculate_crack_time_raises_at_1024 :
  fge_int (of_int 1024) 0 = true
  /\ services.calculate_crack_time (libm := dyadic) (of_int 1024)
     = Raise (OverflowError "(34, 'Numerical result out of range')").
Proof. split; vm_compute; reflexivity. Qed.

Lemma calculate_crack_time_total_below_1024_witness :
  (exists ct, services.calculate_crack_time (libm := dyadic) (of_int 40) = Return ct)
  /\ services.calculate_crack_time (libm := dyadic) (of_int 2000)
     = Raise (OverflowError "(34, 'Numerical result out of range')")
  /\ (exists e ct,
        services.calculate_entropy (U := latin) (libm := dyadic)
          (lit "Tr0ub4dor&3XQ!") = Return e
        /\ fge_int e 0 = true /\ flt_int e 1024 = true
        /\ services.calculate_crack_time (libm := dyadic) e = Return ct).
Proof.
  pose proof (calculate_crack_time_total_below_1024
                (U := latin) (libm := dyadic) (Hlibm := dyadic_facts))
    as T.
  split; [| split].
  - apply (proj1 (T (of_int 40))); vm_compute; reflexivity.
  - apply (proj1 (proj2 (T (of_int 2000)))); vm_compute; reflexivity.
  - apply (proj2 (proj2 (proj2 (T zero)))). vm_compute. discriminate.
Defined.

(** ** The store and its cache *)

Module database_facts.
Import database.
Section Facts.
Context {U : Unicode}.

Lemma conn_execute_healthy (c : Connection) (rows : list Row) :
  spec.healthy_conn c rows ->
  exists c', conn_execute c = (Return tt, c') /\ spec.healthy_conn c' rows.
Proof.
  intros (Hc & Hk & Hp & Hf). unfold conn_execute. rewrite Hc, Hk.
  destruct (faults c) as [| b f] eqn:F.
  - exists c. split; [reflexivity |]. repeat split; auto. now rewrite F.
  - inversion Hf as [| ? ? Hb Hf']; subst. 
    exists (set_faults c f). split; [reflexivity |]. repeat split; auto.
Qed.

Lemma cursor_execute_healthy {A} (read : list Row -> A) (w : World)
    (rows : list Row) :
  spec.healthy w rows ->
  exists w', cursor_execute read w = (Return (read rows), w')
             /\ spec.healthy w' rows
             /\ cache w' = cache w /\ stdout w' = stdout w /\ fs w' = fs w.
Proof.
  intros (c & Ec & Hc). unfold cursor_execute. rewrite Ec.
  destruct (conn_execute_healthy c rows Hc) as (c' & E & Hc').
  rewrite E. destruct Hc' as (H1 & H2 & H3 & H4). rewrite H3.
  eexists. split; [reflexivity |]. repeat split.
  exists c'. split; [reflexivity |]. repeat split; auto.
Qed.

Lemma is_common_password_body_healthy (password : str) (w : World)
    (rows : list Row) :
  spec.healthy w rows ->
  exists w',
    is_common_password_body password w
    = (Return (spec.corpus_member rows (str_lower password)), w')
    /\ spec.healthy w' rows
    /\ cache w' = cache w /\ stdout w' = stdout w /\ fs w' = fs w.
Proof.
  intros H. pose proof H as (c & Ec & _).
  unfold is_common_password_body. rewrite Ec. unfold try_except.
  destruct (cursor_execute_healthy
              (fun rows0 =>
                 existsb (fun r => str_eqb (password_lower r) (str_lower password))
                         rows0) w rows H) as (w' & E & R).
  rewrite E. exists w'. split; [reflexivity | exact R].
Qed.

Lemma get_password_rank_healthy (password : str) (w : World) (rows : list Row) :
  spec.healthy w rows ->
  exists w',
    get_password_rank password w
    = (Return (spec.rank_of rows (str_lower password)), w')
    /\ spec.healthy w' rows
    /\ cache w' = cache w /\ stdout w' = stdout w /\ fs w' = fs w.
Proof.
  intros H. pose proof H as (c & Ec & _).
  unfold get_password_rank. rewrite Ec. unfold try_except.
  destruct (cursor_execute_healthy
              (fun rows0 =>
                 option_map rank
                   (find (fun r => str_eqb (password_lower r) (str_lower password))
                         rows0)) w rows H) as (w' & E & R).
  rewrite E. exists w'. split; [reflexivity | exact R].
Qed.

(** Neither query lets an exception through. *)
Lemma is_common_password_body_returns (password : str) (w : World) :
  exists b w', is_common_password_body password w = (Return b, w').
Proof.
  unfold is_common_password_body.
  destruct (DB_CONNECTION w); [| eauto].
  unfold try_except. destruct (cursor_execute _ w) as [[b | e] w']; [eauto |].
  unfold bind, print, ret. eauto.
Qed.

Lemma get_password_rank_returns (password : str) (w : World) :
  exists r w', get_password_rank password w = (Return r, w').
Proof.
  unfold get_password_rank.
  destruct (DB_CONNECTION w); [| eauto].
  unfold try_except. destruct (cursor_execute _ w) as [[b | e] w']; [eauto |].
  unfold bind, print, ret. eauto.
Qed.

Lemma cache_get_In (key : str) (es : list (str * bool)) (v : bool) :
  cache_get key es = Some v -> In (key, v) es.
Proof.
  induction es as [| [k v'] es IH]; simpl; [discriminate |].
  destruct (str_eqb k key) eqn:E.
  - apply str_eqb_eq in E. intros H. injection H as <-. subst. now left.
  - intros H. right. now apply IH.
Qed.

Lemma Forall_cache_remove {P : str * bool -> Prop} (key : str)
    (es : list (str * bool)) :
  Forall P es -> Forall P (cache_remove key es).
Proof.
  intros H. unfold cache_remove. rewrite Forall_forall in *.
  intros x Hx. apply filter_In in Hx. now apply H.
Qed.

Lemma Forall_removelast {A} {P : A -> Prop} (l : list A) :
  Forall P l -> Forall P (removelast l).
Proof.
  induction l as [| a l IH]; intros H; [constructor |].
  inversion H; subst. destruct l as [| b l]; [constructor |].
  change (Forall P (a :: removelast (b :: l))). constructor; auto.
Qed.

Lemma length_removelast {A} (l : list A) :
  l <> [] -> S (List.length (removelast l)) = List.length l.
Proof.
  induction l as [| a l IH]; [congruence |]. intros _.
  destruct l as [| b l]; [reflexivity |].
  change (S (S (List.length (removelast (b :: l)))) = S (List.length (b :: l))).
  f_equal. apply IH. discriminate.
Qed.

Lemma length_cache_remove (key : str) (es : list (str * bool)) (v : bool) :
  cache_get key es = Some v ->
  (List.length (cache_remove key es) < List.length es)%nat.
Proof.
  induction es as [| [k v'] es IH]; simpl; [discriminate |].
  destruct (str_eqb k key) eqn:E; simpl.
  - intros _. pose proof (filter_length_le (fun e => negb (str_eqb (fst e) key)) es).
    unfold cache_remove. lia.
  - intros H. specialize (IH H). lia.
Qed.


(** One call through the cache on a store without failures. *)
Lemma lru_step (password : str) (w : World) (rows : list Row) :
  spec.healthy w rows -> spec.consistent w rows ->
  (Z.of_nat (List.length (entries (cache w))) <= maxsize)%Z ->
  exists w',
    is_common_password password w
    = (Return (spec.corpus_member rows (str_lower password)), w')
    /\ spec.healthy w' rows /\ spec.consistent w' rows
    /\ (Z.of_nat (List.length (entries (cache w'))) <= maxsize)%Z
    /\ match cache_get password (entries (cache w)) with
       | Some v =>
           entries (cache w')
           = (password, v) :: cache_remove password (entries (cache w))
           /\ hits (cache w') = (hits (cache w) + 1)%Z
           /\ misses (cache w') = misses (cache w)
           /\ DB_CONNECTION w' = DB_CONNECTION w
       | None =>
           let v := spec.corpus_member rows (str_lower password) in
           entries (cache w')
           = (if (Z.of_nat (List.length (entries (cache w))) <? maxsize)%Z
              then (password, v) :: entries (cache w)
              else (password, v) :: removelast (entries (cache w)))
           /\ hits (cache w') = hits (cache w)
           /\ misses (cache w') = (misses (cache w) + 1)%Z
       end.
Proof.
  intros Hh Hc Hl. unfold is_common_password, lru_cache_wrapper.
  destruct (cache_get password (entries (cache w))) as [v |] eqn:G.
  - pose proof (cache_get_In _ _ _ G) as HIn.
    assert (Ev : v = spec.corpus_member rows (str_lower password)).
    { unfold spec.consistent in Hc. rewrite Forall_forall in Hc.
      exact (Hc _ HIn). }
    subst v. eexists. split; [reflexivity |].
    split; [exact Hh |]. split; [| split; [| repeat split]].
    + unfold spec.consistent. cbn. constructor; [reflexivity |].
      now apply Forall_cache_remove.
    + cbn [cache set_cache entries List.length].
      pose proof (length_cache_remove _ _ _ G). lia.
  - set (w1 := set_cache w _).
    destruct (is_common_password_body_healthy password w1 rows Hh)
      as (w2 & E & Hh2 & Ec & _).
    rewrite E. rewrite Ec. cbn [cache set_cache w1 entries hits misses].
    rewrite G.
    eexists. split; [reflexivity |].
    split; [exact Hh2 |].
    assert (New : snd (password, spec.corpus_member rows (str_lower password))
                  = spec.corpus_member rows
                      (str_lower (fst (password,
                         spec.corpus_member rows (str_lower password)))))
      by reflexivity.
    destruct (Z.of_nat (List.length (entries (cache w))) <? maxsize)%Z eqn:Full.
    + apply Z.ltb_lt in Full.
      split; [| split; [| repeat split]].
      * unfold spec.consistent. cbn. constructor; [reflexivity | exact Hc].
      * cbn [cache set_cache entries List.length]. lia.
    + apply Z.ltb_ge in Full.
      assert (NE : entries (cache w) <> []).
      { intros E0. rewrite E0 in Full. unfold maxsize in Full. cbn in Full. lia. }
      split; [| split; [| repeat split]].
      * unfold spec.consistent. cbn. constructor; [reflexivity |].
        now apply Forall_removelast.
      * cbn [cache set_cache entries List.length].
        pose proof (length_removelast _ NE). lia.
Qed.

Lemma ask_all_transparent (passwords : list str) (w : World) (rows : list Row) :
  spec.healthy w rows -> spec.consistent w rows ->
  (Z.of_nat (List.length (entries (cache w))) <= maxsize)%Z ->
  exists w',
    spec.ask_all passwords w
    = (map (fun p => Return (spec.corpus_member rows (str_lower p))) passwords, w').
Proof.
  revert w. induction passwords as [| p rest IH]; intros w Hh Hc Hl.
  - exists w. reflexivity.
  - destruct (lru_step p w rows Hh Hc Hl) as (w1 & E & Hh1 & Hc1 & Hl1 & _).
    destruct (IH w1 Hh1 Hc1 Hl1) as (w2 & E2).
    exists w2. cbn [spec.ask_all map]. now rewrite E, E2.
Qed.

End Facts.
End database_facts.

(** ** The orchestrator *)

Section Evaluate.
Context {U : Unicode} {libm : Libm}.
Import database.

Lemma crack_time_zero :
  services.calculate_crack_time zero
  = Return {| models.value := zero; models.unit := "milisegundos" |}.
Proof. vm_compute. reflexivity. Qed.

Lemma calculate_entropy_returns (password : str) :
  (services.calculate_L password <= sys_maxsize)%Z ->
  exists e, services.calculate_entropy password = Return e.
Proof. intros H. rewrite (calculate_entropy_value password H). eauto. Qed.

(** The orchestrator on a common password, by what the rank lookup gave. *)
Lemma evaluate_password_common (password : str) (w w1 w2 : World)
    (r : option Z) :
  (services.calculate_L password <= sys_maxsize)%Z ->
  is_common_password password w = (Return true, w1) ->
  get_password_rank password w1 = (Return r, w2) ->
  services.evaluate_password password w
  = match r with
    | Some k => (Return (spec.override_result password k), w2)
    | None =>
        (Raise (TypeError
                  "unsupported format string passed to NoneType.__format__"),
         w2)
    end.
Proof.
  intros HL Hc Hr. destruct (calculate_entropy_returns password HL) as (e & He).
  unfold services.evaluate_password, bind, lift. rewrite He, Hc, Hr.
  destruct r as [k |]; [| reflexivity].
  cbn [format_comma_opt ret]. rewrite crack_time_zero. reflexivity.
Qed.

Lemma corpus_member_rank_of (rows : list Row) (normalized : str) :
  spec.corpus_member rows normalized = true ->
  exists k, spec.rank_of rows normalized = Some k.
Proof.
  unfold spec.corpus_member, spec.rank_of.
  induction rows as [| r rows IH]; [discriminate |].
  cbn [existsb find].
  destruct (str_eqb (password_lower r) normalized); [cbn; eauto | exact IH].
Qed.

(** X1. On a store without failures a password of the corpus gets the
    override result, whatever its composition. *)
Lemma evaluate_password_override (password : str) (w : World)
    (rows : list Row) :
  (services.calculate_L password <= sys_maxsize)%Z ->
  spec.healthy w rows -> spec.consistent w rows ->
  (Z.of_nat (List.length (entries (cache w))) <= maxsize)%Z ->
  spec.corpus_member rows (str_lower password) = true ->
  exists k w',
    spec.rank_of rows (str_lower password) = Some k
    /\ services.evaluate_password password w
       = (Return (spec.override_result password k), w').
Proof.
  intros HL Hh Hc Hl Hm.
  destruct (database_facts.lru_step password w rows Hh Hc Hl)
    as (w1 & E1 & Hh1 & _).
  destruct (database_facts.get_password_rank_healthy password w1 rows Hh1)
    as (w2 & E2 & _).
  destruct (corpus_member_rank_of rows _ Hm) as (k & Ek).
  rewrite Hm in E1. rewrite Ek in E2.
  exists k, w2. split; [exact Ek |].
  exact (evaluate_password_common password w w1 w2 (Some k) HL E1 E2).
Qed.

(** C10. When the membership check answers true and the rank lookup
    answers none, [evaluate_password] raises while it builds the
    recommendation, and returns no result; it returns one exactly when the
    rank of the common password could be retrieved. *)
Theorem evaluate_password_rank_none (password : str) (w w1 w2 : World)
    (r : option Z) :
  (services.calculate_L password <= sys_maxsize)%Z ->
  is_common_password password w = (Return true, w1) ->
  get_password_rank password w1 = (Return r, w2) ->
  (r = None ->
   services.evaluate_password password w
   = (Raise (TypeError "unsupported format string passed to NoneType.__format__"),
      w2))
  /\ ((exists evaluation w',
         services.evaluate_password password w = (Return evaluation, w'))
      <-> r <> None).
Proof.
  intros HL Hc Hr.
  pose proof (evaluate_password_common password w w1 w2 r HL Hc Hr) as E.
  split.
  - intros ->. exact E.
  - split.
    + intros (ev & w' & E') ->. rewrite E in E'. discriminate.
    + intros N. destruct r as [k |]; [| congruence]. eauto.
Qed.

End Evaluate.

Section Scenarios.
Import database.
Local Open Scope string_scope.

(** C1, at the input where the code parts from it: the membership query
    succeeds, the rank query that follows fails, and the evaluation raises
    instead of returning the override result. *)
Theorem evaluate_password_common_rank_lost (libm : Libm) :
  fst (is_common_password (U := latin) (lit "PASSWORD") (scenario.serving [false; true]))
  = Return true
  /\ fst (services.evaluate_password (U := latin) (lit "PASSWORD")
            (scenario.serving [false; true]))
     = Raise (TypeError "unsupported format string passed to NoneType.__format__").
Proof. split; vm_compute; reflexivity. Qed.

(** C9, at the input where the code parts from it: the first query fails
    and is answered "not common" with a diagnostic line; the answer is kept
    by the cache, so the next request for the same password is answered
    "not common" from the cache although the store, asked again, says
    "common". *)
Theorem lookup_failure_is_cached :
  let w0 := scenario.serving [true] in
  let (r1, w1) := is_common_password (U := latin) (lit "password") w0 in
  let (r2, w2) := is_common_password (U := latin) (lit "password") w1 in
  r1 = Return false
  /\ stdout w1 = ["Error en búsqueda de contraseña: disk I/O error"]
  /\ r2 = Return false
  /\ hits (cache w2) = 1%Z
  /\ fst (is_common_password_body (U := latin) (lit "password") w1) = Return true.
Proof. vm_compute. repeat split; reflexivity. Qed.

End Scenarios.

(** ** Start-up *)

Section Startup.
Context {U : Unicode} {libm : Libm}.
Import database.
Local Open Scope string_scope.

(** The fates of the first five statements: four PRAGMAs and the count. *)
Ltac first_five fate :=
  destruct fate as [| [] [| [] [| [] [| [] [| [] ?]]]]].

Lemma init_database_returns (w : World) :
  exists b w1, init_database w = (Return b, w1).
Proof.
  destruct w as [[[[] [rows |] fate] |] conn c out];
    try first_five fate; do 2 eexists; vm_compute; reflexivity.
Qed.

Lemma init_database_missing_file (w : World) :
  fs w = None -> exists w1, init_database w = (Return false, w1).
Proof.
  destruct w as [[f |] conn c out]; [discriminate |]. intros _.
  eexists. vm_compute. reflexivity.
Qed.

Lemma init_database_unusable_file (w : World) (f : DbFile) :
  fs w = Some f ->
  is_database f = false \/ db_passwords f = None
  \/ In true (firstn 5 (db_faults f)) ->
  exists w1, init_database w = (Return false, w1).
Proof.
  destruct w as [wfs conn c out]. cbn [fs]. intros ->.
  destruct f as [[] [rows |] fate]; cbn [is_database db_passwords db_faults];
    intros H; first_five fate;
    try (eexists; vm_compute; reflexivity);
    exfalso; cbn in H; intuition discriminate.
Qed.

(** A start that succeeded left an open connection on a database that has
    the table. *)
Lemma lifespan_startup_loaded (w w1 : World) :
  main.lifespan_startup w = (Return tt, w1) ->
  exists c rows,
    DB_CONNECTION w1 = Some c /\ closed c = false /\ corrupt c = false
    /\ passwords c = Some rows.
Proof.
  destruct w as [[[[] [rows |] fate] |] conn c out];
    try first_five fate; vm_compute; intros H; try discriminate;
    injection H as <-; do 2 eexists; repeat split.
Qed.

Lemma run_startup_fails (requests : list str) (w w1 : World) :
  init_database w = (Return false, w1) ->
  exists w',
    main.run requests w
    = (main.StartupFailed (RuntimeError "Base de datos no disponible"), w').
Proof.
  destruct w as [[[[] [rows |] fate] |] conn c out];
    try first_five fate; intros H; vm_compute in H; try discriminate;
    eexists; vm_compute; reflexivity.
Qed.

Lemma run_served (requests : list str) (w w' : World)
    (answers : list main.response) :
  main.run requests w = (main.Served answers, w') ->
  exists w1, main.lifespan_startup w = (Return tt, w1).
Proof.
  unfold main.run. destruct (main.lifespan_startup w) as [[[] | e] w1].
  - intros _. now exists w1.
  - discriminate.
Qed.

End Startup.

Section Cache.
Import database database_facts.

(** C7 (as amended). The cache in front of the membership query holds at
    most 10,000 entries, is keyed on the password as it was passed (a hit
    needs that very string), and replaces the least recently used entry
    when full.  As long as the statements on the connection succeed it is
    transparent: every answer is the store's answer for the lower-cased
    password, so queries repeated in any order, evictions in between
    included, are answered alike. *)
Theorem is_common_password_cache {U : Unicode} (password : str) (w : World)
    (rows : list Row) :
  spec.healthy w rows -> spec.consistent w rows ->
  (Z.of_nat (List.length (entries (cache w))) <= maxsize)%Z ->
  maxsize = 10000%Z
  /\ (exists w',
        is_common_password password w
        = (Return (spec.corpus_member rows (str_lower password)), w')
        /\ spec.healthy w' rows /\ spec.consistent w' rows
        /\ (Z.of_nat (List.length (entries (cache w'))) <= maxsize)%Z
        /\ match cache_get password (entries (cache w)) with
           | Some v =>
               entries (cache w')
               = (password, v) :: cache_remove password (entries (cache w))
               /\ hits (cache w') = (hits (cache w) + 1)%Z
               /\ misses (cache w') = misses (cache w)
               /\ DB_CONNECTION w' = DB_CONNECTION w
           | None =>
               let v := spec.corpus_member rows (str_lower password) in
               entries (cache w')
               = (if (Z.of_nat (List.length (entries (cache w))) <? maxsize)%Z
                  then (password, v) :: entries (cache w)
                  else (password, v) :: removelast (entries (cache w)))
               /\ hits (cache w') = hits (cache w)
               /\ misses (cache w') = (misses (cache w) + 1)%Z
           end)
  /\ (forall passwords,
        exists w',
          spec.ask_all passwords w
          = (map (fun p => Return (spec.corpus_member rows (str_lower p)))
                 passwords, w')).
Proof.
  intros Hh Hc Hl. split; [reflexivity |]. split.
  - now apply lru_step.
  - intros passwords. now apply ask_all_transparent.
Qed.

End Cache.

Section Examples.
Import database database_facts.

Lemma healthy_serving_full : spec.healthy scenario.serving_full scenario.corpus.
Proof. eexists. split; [reflexivity |]. repeat split. constructor. Qed.

(** C7, the claim as stated fails: two spellings with one lower-cased form
    are two keys, and the second query misses; a cache keyed on the
    lower-cased form would have answered it from the first entry. *)
Lemma cache_key_is_the_raw_password :
  str_lower (Unicode := latin) (lit "Password")
  = str_lower (Unicode := latin) (lit "password")
  /\ (let w1 := snd (is_common_password (U := latin) (lit "Password")
                       (scenario.serving [])) in
      let w2 := snd (is_common_password (U := latin) (lit "password") w1) in
      fst (get_cache_info w2)
      = Return {| info_hits := 0; info_misses := 2; info_size := 2;
                  info_maxsize := 10000 |})
  /\ (let w1 := snd (spec.is_common_password_normalized (U := latin)
                       (lit "Password") (scenario.serving [])) in
      let w2 := snd (spec.is_common_password_normalized (U := latin)
                       (lit "password") w1) in
      fst (get_cache_info w2)
      = Return {| info_hits := 1; info_misses := 1; info_size := 1;
                  info_maxsize := 10000 |}).
Proof. repeat split; vm_compute; reflexivity. Qed.

Lemma corpus_member_other_length (rows : list Row) (p : str) :
  Forall (fun r => List.length (password_lower r) <> List.length p) rows ->
  spec.corpus_member rows p = false.
Proof.
  unfold spec.corpus_member. induction 1 as [| r rows Hr _ IH]; [reflexivity |].
  cbn [existsb]. rewrite IH, orb_false_r. apply str_eqb_neq.
  intros E. now rewrite E in Hr.
Qed.

Lemma cache_get_absent (key : str) (es : list (str * bool)) :
  Forall (fun kv => fst kv <> key) es -> cache_get key es = None.
Proof.
  induction 1 as [| [k v] es Hk _ IH]; [reflexivity |].
  cbn [cache_get]. cbn [fst] in Hk.
  apply str_eqb_neq in Hk. now rewrite Hk.
Qed.

Lemma full_cache_length :
  Z.of_nat (List.length (entries scenario.full_cache)) = maxsize.
Proof.
  cbn [entries scenario.full_cache].
  rewrite length_map, length_seq. now apply Z2Nat.id.
Qed.

Lemma full_cache_consistent :
  spec.consistent (U := latin) scenario.serving_full scenario.corpus.
Proof.
  unfold spec.consistent.
  cbn [cache scenario.serving_full entries scenario.full_cache].
  rewrite Forall_forall. intros kv HIn. apply in_map_iff in HIn.
  destruct HIn as (i & <- & _). cbn [fst snd]. symmetry.
  apply corpus_member_other_length.
  repeat constructor; discriminate.
Qed.

Lemma full_cache_lacks_password :
  cache_get (lit "password") (entries scenario.full_cache) = None.
Proof.
  apply cache_get_absent. cbn [entries scenario.full_cache].
  rewrite Forall_forall. intros kv HIn. apply in_map_iff in HIn.
  destruct HIn as (i & <- & _). discriminate.
Qed.

(** On a full cache a new key takes the place of the least recently used
    one. *)
Lemma is_common_password_cache_witness :
  exists w',
    is_common_password (U := latin) (lit "password") scenario.serving_full
    = (Return true, w')
    /\ entries (cache w')
       = (lit "password", true) :: removelast (entries scenario.full_cache)
    /\ misses (cache w') = 10001%Z.
Proof.
  assert (Hl : (Z.of_nat (List.length (entries (cache scenario.serving_full)))
                <= maxsize)%Z).
  { cbn [cache scenario.serving_full]. rewrite full_cache_length. apply Z.le_refl. }
  destruct (is_common_password_cache (U := latin) (lit "password")
              scenario.serving_full scenario.corpus healthy_serving_full
              full_cache_consistent Hl)
    as (_ & (w' & E & _ & _ & _ & Hm) & _).
  assert (V : spec.corpus_member scenario.corpus
                (str_lower (Unicode := latin) (lit "password")) = true)
    by (vm_compute; reflexivity).
  cbn [cache scenario.serving_full] in Hm.
  rewrite full_cache_lacks_password in Hm. cbv zeta in Hm.
  rewrite full_cache_length, Z.ltb_irrefl, V in Hm. rewrite V in E.
  destruct Hm as (He & _ & Hmiss).
  exists w'. split; [exact E |]. split; [exact He |]. exact Hmiss.
Defined.

Lemma evaluate_password_override_witness :
  exists w',
    services.evaluate_password (U := latin) (libm := dyadic) (lit "PassWord")
      (scenario.serving [])
    = (Return (spec.override_result (lit "PassWord") 2), w').
Proof.
  assert (HL : (services.calculate_L (lit "PassWord") <= sys_maxsize)%Z)
    by (vm_compute; discriminate).
  assert (Hh : spec.healthy (scenario.serving []) scenario.corpus).
  { eexists. split; [reflexivity |]. repeat split. constructor. }
  assert (Hc : spec.consistent (U := latin) (scenario.serving []) scenario.corpus)
    by constructor.
  assert (Hl : (Z.of_nat (List.length (entries (cache (scenario.serving []))))
                <= maxsize)%Z) by (vm_compute; discriminate).
  assert (Hm : spec.corpus_member scenario.corpus
                 (str_lower (Unicode := latin) (lit "PassWord")) = true)
    by (vm_compute; reflexivity).
  destruct (evaluate_password_override (U := latin) (libm := dyadic)
              (lit "PassWord") (scenario.serving []) scenario.corpus
              HL Hh Hc Hl Hm) as (k & w' & Ek & E).
  assert (K : spec.rank_of scenario.corpus
                (str_lower (Unicode := latin) (lit "PassWord")) = Some 2%Z)
    by (vm_compute; reflexivity).
  rewrite K in Ek. injection Ek as <-.
  now exists w'.
Defined.

Lemma evaluate_password_rank_none_witness :
  fst (services.evaluate_password (U := latin) (libm := dyadic) (lit "password")
         (scenario.serving [false; true]))
  = Raise (TypeError "unsupported format string passed to NoneType.__format__").
Proof.
  set (w := scenario.serving [false; true]).
  set (w1 := snd (is_common_password (U := latin) (lit "password") w)).
  set (w2 := snd (get_password_rank (U := latin) (lit "password") w1)).
  assert (HL : (services.calculate_L (lit "password") <= sys_maxsize)%Z)
    by (vm_compute; discriminate).
  assert (E1 : is_common_password (U := latin) (lit "password") w = (Return true, w1))
    by (vm_compute; reflexivity).
  assert (E2 : get_password_rank (U := latin) (lit "password") w1 = (Return None, w2))
    by (vm_compute; reflexivity).
  destruct (evaluate_password_rank_none (U := latin) (libm := dyadic) (lit "password")
              w w1 w2 None HL E1 E2) as [H _].
  now rewrite (H eq_refl).
Defined.

End Examples.

(** * Further properties of the code *)

Section MoreFloat64Facts.
Local Open Scope Q_scope.

Lemma fle_zero_sign (s : bool) (y : float) : fle (S754_zero s) y = fle zero y.
Proof. reflexivity. Qed.

Lemma fle_sign_zero (s : bool) (x : float) : fle x (S754_zero s) = fle x zero.
Proof. destruct x; reflexivity. Qed.

Lemma fle_trans (x y z : float) :
  fle x y = true -> fle y z = true -> fle x z = true.
Proof.
  rewrite !fle_ext. intros (a & b & Ea & Eb & L1) (b' & c & Eb' & Ec & L2).
  rewrite Eb in Eb'. injection Eb' as <-.
  exists a, c. repeat split; auto. now apply ext_le_trans with b.
Qed.

Lemma fle_refl_fin (x : float) : x <> S754_nan -> fle x x = true.
Proof.
  intros N. apply fle_ext. destruct (ext_of x) as [a |] eqn:E.
  - exists a, a. repeat split. destruct a; simpl; auto. apply Qle_refl.
  - destruct x; try discriminate. congruence.
Qed.

(** A number that is not below an exactly represented integer is at least
    that integer, and the other way round. *)
Lemma flt_int_false_fle (x : float) (n : Z) :
  F2Q (of_int n) == inject_Z n -> is_fin (of_int n) = true ->
  x <> S754_nan -> flt_int x n = false -> fle (of_int n) x = true.
Proof.
  intros V F N H. apply fle_ext.
  destruct (ext_of x) as [a |] eqn:E.
  - exists (Fin (F2Q (of_int n))), a. split; [now apply ext_of_fin |].
    split; [reflexivity |].
    destruct a as [| q |]; simpl.
    + exfalso. assert (T : flt_int x n = true); [| congruence].
      apply flt_int_spec. exists NInf. split; [exact E |]. simpl. tauto.
    + rewrite V. destruct (Qlt_le_dec q (inject_Z n)) as [L | L]; [| exact L].
      exfalso. assert (T : flt_int x n = true); [| congruence].
      apply flt_int_spec. exists (Fin q). split; [exact E |]. simpl. lra.
    + exact I.
  - destruct x; try discriminate. congruence.
Qed.

Lemma flt_int_true_fle (x : float) (n : Z) :
  F2Q (of_int n) == inject_Z n -> is_fin (of_int n) = true ->
  flt_int x n = true -> fle x (of_int n) = true.
Proof.
  intros V F H. apply flt_int_spec in H. destruct H as (a & E & L).
  apply fle_ext. exists a, (Fin (F2Q (of_int n))). split; [exact E |].
  split; [now apply ext_of_fin |].
  destruct a as [| q |]; simpl in *; try tauto. rewrite V. lra.
Qed.

(** A lower number is below every bound the higher one is below. *)
Lemma flt_int_fle (x y : float) (n : Z) :
  fle x y = true -> flt_int y n = true -> flt_int x n = true.
Proof.
  rewrite fle_ext, !flt_int_spec. intros (a & b & Ea & Eb & L) (b' & Eb' & Hn).
  rewrite Eb in Eb'. injection Eb' as <-.
  exists a. split; [exact Ea |]. intros Hn'. apply Hn.
  now apply ext_le_trans with a.
Qed.

(** The product of two finite numbers, on the extended line. *)
Lemma fmul_fin_ext (x y : float) :
  is_fin x = true -> is_fin y = true ->
  exists a, ext_of (fmul x y) = Some a /\ ext_eq a (RNx (F2Q x * F2Q y)).
Proof.
  intros Fx Fy.
  assert (Z0 : forall q, q == 0 -> ext_eq (Fin 0) (RNx q)).
  { intros q E. unfold RNx. apply Qeq_alt in E. rewrite E. simpl. reflexivity. }
  destruct x as [sx | sx | | sx mx ex]; try discriminate;
    destruct y as [sy | sy | | sy my ey]; try discriminate.
  - exists (Fin 0). split; [reflexivity |]. apply Z0. simpl. ring.
  - exists (Fin 0). split; [reflexivity |]. apply Z0.
    change (F2Q (S754_zero sx)) with 0. ring.
  - exists (Fin 0). split; [reflexivity |]. apply Z0.
    change (F2Q (S754_zero sy)) with 0. ring.
  - apply ext_of_RN.
Qed.

(** The product of finite non-negative numbers does not decrease with its
    factors. *)
Lemma fmul_mono_fin (x1 x2 y1 y2 : float) :
  is_fin x1 = true -> is_fin x2 = true -> is_fin y1 = true -> is_fin y2 = true ->
  0 <= F2Q x1 -> F2Q x1 <= F2Q x2 -> 0 <= F2Q y1 -> F2Q y1 <= F2Q y2 ->
  fle (fmul x1 y1) (fmul x2 y2) = true.
Proof.
  intros Fx1 Fx2 Fy1 Fy2 X0 X Y0 Y.
  destruct (fmul_fin_ext x1 y1 Fx1 Fy1) as (a & Ea & Ha).
  destruct (fmul_fin_ext x2 y2 Fx2 Fy2) as (b & Eb & Hb).
  apply fle_ext. exists a, b. repeat split; auto.
  apply ext_le_trans with (RNx (F2Q x1 * F2Q y1)); [now apply ext_le_refl_eq |].
  apply ext_le_trans with (RNx (F2Q x2 * F2Q y2));
    [| apply ext_le_refl_eq; now apply ext_eq_sym].
  apply RNx_mono.
  apply Qle_trans with (F2Q x2 * F2Q y1).
  - apply Qmult_le_compat_r; assumption.
  - rewrite !(Qmult_comm (F2Q x2)). apply Qmult_le_compat_r; lra.
Qed.

Lemma fle_zero_fin (x : float) :
  is_fin x = true -> fle zero x = true -> 0 <= F2Q x.
Proof. intros F H. now apply (fle_fin zero x eq_refl F) in H. Qed.

(** Rounding to two places does not change the order of non-negative
    numbers. *)
Lemma round2_mono (x y : float) :
  fle zero x = true -> fle x y = true -> fle (round2 x) (round2 y) = true.
Proof.
  intros H0 H.
  assert (H0y : fle zero y = true) by (now apply fle_trans with x).
  pose proof (fle_zero_cases x H0) as Cx. pose proof (fle_zero_cases y H0y) as Cy.
  pose proof (round2_nonneg y H0y) as Ry.
  destruct x as [sx | [] | | [] mx ex]; try contradiction.
  - cbn [round2]. now rewrite fle_zero_sign.
  - destruct y as [sy | [] | | [] my ey]; try contradiction; try discriminate.
    reflexivity.
  - destruct y as [sy | [] | | [] my ey]; try contradiction.
    + exfalso. apply fle_fin in H; try reflexivity.
      pose proof (F2Q_pos mx ex). change (F2Q (S754_zero sy)) with 0 in H. lra.
    + change (round2 (S754_infinity false)) with (S754_infinity false).
      apply fle_pinf. exact (fle_not_nan_r _ _ (round2_nonneg _ H0)).
    + apply fle_fin in H; try reflexivity.
      pose proof (F2Q_pos mx ex) as Px. pose proof (F2Q_pos my ey) as Py.
      unfold round2. apply RN_mono.
      set (qx := F2Q (S754_finite false mx ex)) in *.
      set (qy := F2Q (S754_finite false my ey)) in *.
      assert (Ax : Qabs qx == qx) by (apply Qabs_pos; lra).
      assert (Ay : Qabs qy == qy) by (apply Qabs_pos; lra).
      assert (M : (Qround_half_even (Qabs qx * 100)
                   <= Qround_half_even (Qabs qy * 100))%Z).
      { apply Qround_half_even_mono. rewrite Ax, Ay.
        apply Qmult_le_compat_r; [exact H | discriminate]. }
      rewrite Zle_Qle in M. unfold Qdiv.
      apply Qmult_le_compat_r; [exact M | discriminate].
Qed.


Lemma fdiv_mono_of_int (x y : float) (n : Z) :
  (1 <= n <= 2 ^ 63)%Z -> fle x y = true ->
  fle (fdiv x (of_int n)) (fdiv y (of_int n)) = true.
Proof.
  intros Hn H. destruct (of_int_pos_finite n Hn) as (m & e & E).
  rewrite E. now apply fdiv_mono_l.
Qed.

End MoreFloat64Facts.

Section ReferenceLibrary.
Local Open Scope Q_scope.

Lemma RN_not_nan (s : bool) (q : Q) : RN s q <> S754_nan.
Proof.
  intros E. destruct (ext_of_RN s q) as (a & Ea & _). rewrite E in Ea. discriminate.
Qed.

(** The reference library's logarithm does not decrease. *)
Lemma dyadic_monotone : Log2Monotone dyadic.
Proof.
  intros x y H1 H. cbn [libm_log2 dyadic].
  assert (P1 : F2Q one == 1) by reflexivity.
  assert (Pos : forall z, fle one z = true ->
            match z with
            | S754_infinity false | S754_finite false _ _ => True
            | _ => False
            end).
  { intros z Hz. destruct z as [sz | [] | | [] mz ez]; try discriminate; auto.
    apply fle_fin in Hz; try reflexivity.
    pose proof (F2Q_neg mz ez). lra. }
  pose proof (Pos x H1) as Cx.
  pose proof (Pos y (fle_trans _ _ _ H1 H)) as Cy.
  destruct x as [sx | [] | | [] mx ex]; try contradiction;
    destruct y as [sy | [] | | [] my ey]; try contradiction.
  - reflexivity.
  - discriminate.
  - cbn [dyadic_log2]. apply fle_pinf. apply RN_not_nan.
  - apply fle_fin in H; try reflexivity.
    cbn [dyadic_log2]. apply of_int_mono.
    apply Qfloor_log2_mono; [apply F2Q_pos | exact H].
Qed.

End ReferenceLibrary.

(** ** The classifier, over all floats *)

Section StrengthOrder.
Local Open Scope string_scope.

(** X16. The score never decreases with the entropy; every float gets a
    score from 1 to 5; whatever is below 0 is "Muy Débil", and a NaN, which
    is below nothing, gets the top category. *)
Theorem get_strength_category_monotone :
  (forall e1 e2,
     fle e1 e2 = true ->
     (spec.score_of (services.get_strength_category e1)
      <= spec.score_of (services.get_strength_category e2))%Z)
  /\ (forall e,
        (1 <= spec.score_of (services.get_strength_category e) <= 5)%Z)
  /\ (forall e,
        flt_int e 0 = true ->
        spec.label_of (services.get_strength_category e) = "Muy Débil")
  /\ spec.label_of (services.get_strength_category S754_nan) = "Muy Fuerte".
Proof.
  split; [| split; [| split; [| reflexivity]]].
  - intros e1 e2 H.
    pose proof (flt_int_fle e1 e2 40 H) as M40.
    pose proof (flt_int_fle e1 e2 60 H) as M60.
    pose proof (flt_int_fle e1 e2 80 H) as M80.
    pose proof (flt_int_fle e1 e2 100 H) as M100.
    assert (U1 : flt_int e2 40 = true -> flt_int e2 60 = true)
      by (apply flt_int_mono; lia).
    assert (U2 : flt_int e2 60 = true -> flt_int e2 80 = true)
      by (apply flt_int_mono; lia).
    assert (U3 : flt_int e2 80 = true -> flt_int e2 100 = true)
      by (apply flt_int_mono; lia).
    unfold services.get_strength_category, spec.score_of.
    destruct (flt_int e2 40); destruct (flt_int e2 60);
      destruct (flt_int e2 80); destruct (flt_int e2 100);
      first [specialize (M40 eq_refl) | clear M40];
      first [specialize (M60 eq_refl) | clear M60];
      first [specialize (M80 eq_refl) | clear M80];
      first [specialize (M100 eq_refl) | clear M100];
      try (specialize (U1 eq_refl)); try (specialize (U2 eq_refl));
      try (specialize (U3 eq_refl)); try discriminate;
      repeat (match goal with
              | M : flt_int e1 _ = true |- _ => rewrite M; clear M
              end);
      repeat (match goal with |- context [flt_int e1 ?n] =>
                                destruct (flt_int e1 n) end);
      cbn; lia.
  - intros e. unfold services.get_strength_category, spec.score_of.
    repeat (match goal with |- context [flt_int ?s ?n] =>
                              destruct (flt_int s n); [cbn; lia |] end).
    cbn. lia.
  - intros e H. unfold services.get_strength_category, spec.label_of.
    now rewrite (flt_int_mono e 0 40 ltac:(lia) H).
Qed.

End StrengthOrder.

(** ** The value shown with each unit *)

Section CrackTimeRanges.
Context {libm : Libm} {Hlibm : LibmFacts libm}.
Local Open Scope string_scope.

(** [2 ** E] is not negative. *)
Lemma pow2_nonneg (E t : float) :
  fge_int E 0 = true -> pow2 E = Return t -> fle zero t = true.
Proof.
  intros H P. destruct E as [s | [] | | s m e]; try discriminate.
  - injection P as <-. reflexivity.
  - injection P as <-. reflexivity.
  - apply pow2_finite_arg in P. subst t. now apply pow_nonneg.
Qed.

Lemma seconds_of_nonneg (E s : float) :
  fge_int E 0 = true -> spec.seconds_of E = Return s -> fle zero s = true.
Proof.
  unfold spec.seconds_of. intros H S.
  destruct (pow2 E) as [t |] eqn:P; [| discriminate].
  cbn [rbind] in S. assert (V : s = fdiv t (of_int (2 * 10 ^ 11))) by congruence.
  pose proof (pow2_nonneg E t H P) as T.
  rewrite V, attack_divisor.
  exact (fdiv_mono_l zero t _ _ T).
Qed.

(** The value of a band that divides the seconds by [d], between the
    values at the two bounds of the band. *)
Lemma divided_band (s : float) (lo d vlo : Z) :
  (1 <= d <= 2 ^ 63)%Z ->
  F2Q (of_int lo) == inject_Z lo -> is_fin (of_int lo) = true ->
  fle zero (fdiv (of_int lo) (of_int d)) = true ->
  round2 (fdiv (of_int lo) (of_int d)) = of_int vlo ->
  s <> S754_nan -> flt_int s lo = false ->
  fle (of_int vlo) (round2 (fdiv s (of_int d))) = true.
Proof.
  intros Hd V F Z0 R N L. rewrite <- R. apply round2_mono; [exact Z0 |].
  apply fdiv_mono_of_int; [exact Hd |]. now apply flt_int_false_fle.
Qed.

Lemma fdiv_nonneg_of_int (s : float) (d : Z) :
  (1 <= d <= 2 ^ 63)%Z -> fle zero s = true ->
  fle zero (fdiv s (of_int d)) = true.
Proof.
  intros Hd H. destruct (of_int_pos_finite d Hd) as (m & e & E). rewrite E.
  exact (fdiv_mono_l zero s m e H).
Qed.

Lemma divided_band_upper (s : float) (hi d vhi : Z) :
  (1 <= d <= 2 ^ 63)%Z ->
  F2Q (of_int hi) == inject_Z hi -> is_fin (of_int hi) = true ->
  round2 (fdiv (of_int hi) (of_int d)) = of_int vhi ->
  fle zero s = true -> flt_int s hi = true ->
  fle (round2 (fdiv s (of_int d))) (of_int vhi) = true.
Proof.
  intros Hd V F R Z0 L. rewrite <- R.
  apply round2_mono; [now apply fdiv_nonneg_of_int |].
  apply fdiv_mono_of_int; [exact Hd |]. now apply flt_int_true_fle.
Qed.

Lemma thousand_facts :
  is_fin (of_int 1000) = true /\ (0 <= F2Q (of_int 1000))%Q
  /\ round2 (fmul zero (of_int 1000)) = of_int 0
  /\ round2 (fmul one (of_int 1000)) = of_int 1000
  /\ fmul zero (of_int 1000) = zero.
Proof. repeat split; vm_compute; first [reflexivity | discriminate]. Qed.

(** Under a second: from 0 to 1000 milliseconds. *)
Lemma milliseconds_band (s : float) :
  fle zero s = true -> flt_int s 1 = true ->
  fle (of_int 0) (round2 (fmul s (of_int 1000))) = true
  /\ fle (round2 (fmul s (of_int 1000))) (of_int 1000) = true.
Proof.
  intros Z0 B1.
  assert (F : is_fin s = true).
  { pose proof (fle_zero_cases s Z0) as C.
    destruct s as [? | [] | | [] ? ?]; try contradiction; try reflexivity.
    discriminate B1. }
  destruct thousand_facts as (FK & PK & R0 & R1 & M0).
  pose proof (fle_zero_fin s F Z0) as P0.
  pose proof (flt_int_fin s 1 F B1) as P1.
  assert (P1' : (F2Q s <= F2Q one)%Q).
  { assert (E1 : (F2Q one == 1)%Q) by reflexivity.
    change (inject_Z 1) with 1%Q in P1. rewrite E1. now apply Qlt_le_weak. }
  pose proof (fmul_mono_fin zero s (of_int 1000) (of_int 1000)
                eq_refl F FK FK (Qle_refl 0) P0 PK (Qle_refl _)) as L.
  pose proof (fmul_mono_fin s one (of_int 1000) (of_int 1000)
                F eq_refl FK FK P0 P1' PK (Qle_refl _)) as Up.
  split.
  - rewrite <- R0. apply round2_mono; [| exact L]. now rewrite M0.
  - rewrite <- R1. apply round2_mono; [| exact Up].
    rewrite <- M0. exact L.
Qed.

Lemma seconds_band (s : float) :
  fle zero s = true -> flt_int s 1 = false -> flt_int s 60 = true ->
  fle (of_int 1) (round2 s) = true /\ fle (round2 s) (of_int 60) = true.
Proof.
  intros Z0 B1 B60. pose proof (fle_not_nan_r _ _ Z0) as N.
  assert (R1 : round2 (of_int 1) = of_int 1) by (vm_compute; reflexivity).
  assert (R60 : round2 (of_int 60) = of_int 60) by (vm_compute; reflexivity).
  assert (L : fle (of_int 1) s = true).
  { apply flt_int_false_fle; [reflexivity | reflexivity | exact N | exact B1]. }
  assert (Up : fle s (of_int 60) = true).
  { apply flt_int_true_fle; [reflexivity | reflexivity | exact B60]. }
  split.
  - rewrite <- R1. apply round2_mono; [reflexivity | exact L].
  - rewrite <- R60. apply round2_mono; [exact Z0 | exact Up].
Qed.

(** The facts about the bounds of a band, all closed. *)
Ltac bound :=
  first [lia | reflexivity | vm_compute; reflexivity ].

(** X17. The value shown with a unit lies in the range of that unit: 0 to
    1000 milliseconds, 1 to 60 seconds or minutes, 1 to 24 hours, 1 to 365
    days, 1 to 1000 years, and at least 1 millennium; the bounds are
    included, since the rounding to two places can reach them. *)
Theorem calculate_crack_time_value_range (E : float) (ct : models.CrackTime) :
  fge_int E 0 = true ->
  services.calculate_crack_time E = Return ct ->
  exists lo hi,
    In (models.unit ct, lo, hi) behaviour.unit_ranges
    /\ behaviour.value_in_range lo hi (models.value ct) = true.
Proof.
  intros H0. rewrite calculate_crack_time_select.
  destruct (spec.seconds_of E) as [s |] eqn:S; [| discriminate].
  cbn [rbind]. intros H. injection H as <-.
  pose proof (seconds_of_nonneg E s H0 S) as Z0.
  pose proof (fle_not_nan_r _ _ Z0) as N.
  unfold behaviour.value_in_range.
  cbn [spec.select_band spec.crack_bands spec.last_band fst snd].
  destruct (flt_int s 1) eqn:B1.
  { exists 0%Z, (Some 1000%Z). split; [cbn; tauto |].
    cbn [models.value]. apply andb_true_iff. now apply milliseconds_band. }
  destruct (flt_int s 60) eqn:B60.
  { exists 1%Z, (Some 60%Z). split; [cbn; tauto |].
    cbn [models.value]. apply andb_true_iff. now apply seconds_band. }
  destruct (flt_int s 3600) eqn:B3600.
  { exists 1%Z, (Some 60%Z). split; [cbn; tauto |].
    cbn [models.value]. apply andb_true_iff. split.
    - apply (divided_band s 60 60 1);
        [bound | bound | bound | bound | bound | exact N | exact B60].
    - apply (divided_band_upper s 3600 60 60);
        [bound | bound | bound | bound | exact Z0 | exact B3600]. }
  destruct (flt_int s 86400) eqn:B86400.
  { exists 1%Z, (Some 24%Z). split; [cbn; tauto |].
    cbn [models.value]. apply andb_true_iff. split.
    - apply (divided_band s 3600 3600 1);
        [bound | bound | bound | bound | bound | exact N | exact B3600].
    - apply (divided_band_upper s 86400 3600 24);
        [bound | bound | bound | bound | exact Z0 | exact B86400]. }
  destruct (flt_int s 31536000) eqn:B31536000.
  { exists 1%Z, (Some 365%Z). split; [cbn; tauto |].
    cbn [models.value]. apply andb_true_iff. split.
    - apply (divided_band s 86400 86400 1);
        [bound | bound | bound | bound | bound | exact N | exact B86400].
    - apply (divided_band_upper s 31536000 86400 365);
        [bound | bound | bound | bound | exact Z0 | exact B31536000]. }
  destruct (flt_int s 31536000000) eqn:B31536000000.
  { exists 1%Z, (Some 1000%Z). split; [cbn; tauto |].
    cbn [models.value]. apply andb_true_iff. split.
    - apply (divided_band s 31536000 31536000 1);
        [bound | bound | bound | bound | bound | exact N | exact B31536000].
    - apply (divided_band_upper s 31536000000 31536000 1000);
        [bound | bound | bound | bound | exact Z0 | exact B31536000000]. }
  exists 1%Z, None. split; [cbn; tauto |].
  cbn [models.value]. rewrite andb_true_r.
  apply (divided_band s 31536000000 31536000000 1);
    [bound | bound | bound | bound | bound | exact N | exact B31536000000].
Qed.

End CrackTimeRanges.

Section UnitOrder.
Context {libm : Libm} {Hlibm : LibmFacts libm}.
Import behaviour.
Local Open Scope string_scope.

Ltac keep M := first [specialize (M eq_refl) | clear M].

(** X23. The unit never goes down when the entropy goes up: a higher entropy
    is shown in the same unit or in a longer one. *)
Theorem calculate_crack_time_unit_monotone (E1 E2 : float)
    (ct1 ct2 : models.CrackTime) :
  fle E1 E2 = true ->
  services.calculate_crack_time E1 = Return ct1 ->
  services.calculate_crack_time E2 = Return ct2 ->
  (unit_rank (models.unit ct1) <= unit_rank (models.unit ct2))%Z.
Proof.
  intros H. rewrite !calculate_crack_time_select.
  destruct (spec.seconds_of E1) as [s1 |] eqn:S1; [| discriminate].
  destruct (spec.seconds_of E2) as [s2 |] eqn:S2; [| discriminate].
  cbn [rbind]. intros C1 C2. injection C1 as <-. injection C2 as <-.
  pose proof (seconds_of_mono E1 E2 s1 s2 H S1 S2) as M.
  pose proof (flt_int_fle s1 s2 1 M) as M1.
  pose proof (flt_int_fle s1 s2 60 M) as M2.
  pose proof (flt_int_fle s1 s2 3600 M) as M3.
  pose proof (flt_int_fle s1 s2 86400 M) as M4.
  pose proof (flt_int_fle s1 s2 31536000 M) as M5.
  pose proof (flt_int_fle s1 s2 31536000000 M) as M6.
  clear M S1 S2 H.
  cbn [spec.select_band spec.crack_bands spec.last_band fst snd].
  destruct (flt_int s2 1); keep M1;
    [rewrite M1; cbn [models.unit]; vm_compute; discriminate |].
  destruct (flt_int s2 60); keep M2;
    [destruct (flt_int s1 1); [| rewrite M2]; cbn [models.unit];
     vm_compute; discriminate |].
  destruct (flt_int s2 3600); keep M3;
    [destruct (flt_int s1 1); [| destruct (flt_int s1 60); [| rewrite M3]];
     cbn [models.unit]; vm_compute; discriminate |].
  destruct (flt_int s2 86400); keep M4;
    [destruct (flt_int s1 1);
       [| destruct (flt_int s1 60);
          [| destruct (flt_int s1 3600); [| rewrite M4]]];
     cbn [models.unit]; vm_compute; discriminate |].
  destruct (flt_int s2 31536000); keep M5;
    [destruct (flt_int s1 1);
       [| destruct (flt_int s1 60);
          [| destruct (flt_int s1 3600);
             [| destruct (flt_int s1 86400); [| rewrite M5]]]];
     cbn [models.unit]; vm_compute; discriminate |].
  destruct (flt_int s2 31536000000); keep M6;
    [destruct (flt_int s1 1);
       [| destruct (flt_int s1 60);
          [| destruct (flt_int s1 3600);
             [| destruct (flt_int s1 86400);
                [| destruct (flt_int s1 31536000); [| rewrite M6]]]]];
     cbn [models.unit]; vm_compute; discriminate |].
  repeat (match goal with |- context [flt_int s1 ?n] =>
                            destruct (flt_int s1 n) end);
    cbn [models.unit]; vm_compute; discriminate.
Qed.

End UnitOrder.

(** ** Keyspace and entropy under concatenation and reordering *)

Section Keyspace.
Context {U : Unicode}.
Local Open Scope Z_scope.

Lemma existsb_Permutation {A} (f : A -> bool) (l l' : list A) :
  Permutation l l' -> existsb f l = existsb f l'.
Proof.
  induction 1 as [| x l l' _ IH | x y l | l l' l'' _ IH1 _ IH2]; cbn.
  - reflexivity.
  - now rewrite IH.
  - destruct (f x), (f y); reflexivity.
  - congruence.
Qed.

Lemma calculate_N_app (p q : str) :
  services.calculate_N p <= services.calculate_N (p ++ q)
  /\ services.calculate_N q <= services.calculate_N (p ++ q)
  /\ services.calculate_N (p ++ q)
     <= services.calculate_N p + services.calculate_N q.
Proof.
  unfold services.calculate_N. rewrite !existsb_app.
  destruct (existsb islower p), (existsb isupper p), (existsb isdigit p),
    (existsb (fun c => negb (isalnum c)) p),
    (existsb islower q), (existsb isupper q), (existsb isdigit q),
    (existsb (fun c => negb (isalnum c)) q); cbn; lia.
Qed.

Lemma calculate_L_app (p q : str) :
  services.calculate_L (p ++ q)
  = services.calculate_L p + services.calculate_L q.
Proof. unfold services.calculate_L. rewrite length_app. lia. Qed.

(** X18. The keyspace of a concatenation is at least that of each part and
    at most their sum: adding characters never shrinks the alphabet, and
    adds at most the classes the addition brings; the lengths add up. *)
Theorem calculate_N_concat (p q : str) :
  services.calculate_N p <= services.calculate_N (p ++ q)
  /\ services.calculate_N q <= services.calculate_N (p ++ q)
  /\ services.calculate_N (p ++ q)
     <= services.calculate_N p + services.calculate_N q
  /\ services.calculate_L (p ++ q)
     = services.calculate_L p + services.calculate_L q.
Proof.
  destruct (calculate_N_app p q) as (H1 & H2 & H3).
  repeat split; auto. apply calculate_L_app.
Qed.

Context {libm : Libm}.

(** X19. The evaluation looks at which characters a password has, not at
    their order: a reordering has the same composition and the same entropy. *)
Theorem evaluation_ignores_order (p q : str) :
  Permutation p q ->
  services.analyze_composition q = services.analyze_composition p
  /\ services.calculate_entropy q = services.calculate_entropy p.
Proof.
  intros H.
  assert (EL : services.calculate_L q = services.calculate_L p).
  { unfold services.calculate_L. now rewrite (Permutation_length H). }
  assert (EN : services.calculate_N q = services.calculate_N p).
  { unfold services.calculate_N.
    now rewrite !(existsb_Permutation _ _ _ H). }
  split.
  - unfold services.analyze_composition.
    now rewrite EL, EN, !(existsb_Permutation _ _ _ H).
  - unfold services.calculate_entropy. now rewrite EL, EN.
Qed.

End Keyspace.

Section EntropyOrder.
Context {U : Unicode} {libm : Libm} {Hlibm : LibmFacts libm}
        {Hmono : Log2Monotone libm}.

Lemma bounded_is_fin (y : float) (n : Z) :
  is_fin (of_int n) = true ->
  fle zero y = true -> fle y (of_int n) = true -> is_fin y = true.
Proof.
  intros F H0 H. pose proof (fle_zero_cases y H0) as C.
  destruct y as [? | [] | | [] ? ?]; try contradiction; try reflexivity.
  exfalso. apply fle_ext in H. destruct H as (a & b & Ea & Eb & L).
  rewrite (ext_of_fin _ F) in Eb. injection Ea as <-. injection Eb as <-.
  exact L.
Qed.

(** The entropy formula does not decrease with the length or with the
    keyspace. *)
Lemma entropy_value_mono (L1 L2 N1 N2 : Z) :
  (1 <= L1 <= L2)%Z -> (L2 <= sys_maxsize)%Z -> (1 <= N1 <= N2)%Z -> (N2 <= 128)%Z ->
  fle (round2 (fmul (of_int L1) (libm_log2 (of_int N1))))
      (round2 (fmul (of_int L2) (libm_log2 (of_int N2)))) = true.
Proof.
  intros HL HL2 HN HN2.
  destruct (of_int_pos_finite L1) as (m1 & e1 & E1); [unfold sys_maxsize in *; lia |].
  destruct (of_int_pos_finite L2) as (m2 & e2 & E2); [unfold sys_maxsize in *; lia |].
  assert (X1 : fle one (of_int N1) = true)
    by (rewrite one_of_int; apply of_int_mono; lia).
  assert (X2 : fle one (of_int N2) = true)
    by (rewrite one_of_int; apply of_int_mono; lia).
  assert (X12 : fle (of_int N1) (of_int N2) = true) by (apply of_int_mono; lia).
  assert (B1 : fle (of_int N1) (of_int 128) = true) by (apply of_int_mono; lia).
  assert (B2 : fle (of_int N2) (of_int 128) = true) by (apply of_int_mono; lia).
  pose proof (log2_nonneg _ X1) as G1. pose proof (log2_nonneg _ X2) as G2.
  pose proof (log2_le_7 _ X1 B1) as U1. pose proof (log2_le_7 _ X2 B2) as U2.
  pose proof (log2_mono _ _ X1 X12) as M.
  assert (F7 : is_fin (of_int 7) = true) by reflexivity.
  pose proof (bounded_is_fin _ 7 F7 G1 U1) as F1.
  pose proof (bounded_is_fin _ 7 F7 G2 U2) as F2.
  set (y1 := libm_log2 (of_int N1)) in *. set (y2 := libm_log2 (of_int N2)) in *.
  assert (XL : fle (of_int L1) (of_int L2) = true) by (apply of_int_mono; lia).
  rewrite E1, E2 in *.
  apply round2_mono; [now apply fmul_nonneg |].
  apply fmul_mono_fin; try reflexivity; try assumption.
  - apply Qlt_le_weak, F2Q_pos.
  - now apply fle_fin.
  - now apply fle_zero_fin.
  - now apply fle_fin.
Qed.

Lemma entropy_mono (p q : str) :
  (services.calculate_L p <= services.calculate_L q)%Z ->
  (services.calculate_N p <= services.calculate_N q)%Z ->
  (services.calculate_L q <= sys_maxsize)%Z ->
  exists e1 e2,
    services.calculate_entropy p = Return e1
    /\ services.calculate_entropy q = Return e2
    /\ fle e1 e2 = true.
Proof.
  intros HL HN HS.
  rewrite (calculate_entropy_value p) by lia.
  rewrite (calculate_entropy_value q) by lia.
  do 2 eexists. split; [reflexivity |]. split; [reflexivity |].
  pose proof (calculate_N_positive p) as P1.
  pose proof (calculate_N_at_most_94 q) as P2.
  assert (L0 : (0 <= services.calculate_L p)%Z)
    by (unfold services.calculate_L; lia).
  destruct (services.calculate_L p =? 0)%Z eqn:Z1.
  - destruct (services.calculate_L q =? 0)%Z eqn:Z2; [reflexivity |].
    apply Z.eqb_neq in Z2.
    destruct (of_int_pos_finite (services.calculate_L q)) as (m & e & E);
      [unfold sys_maxsize in *; lia |].
    rewrite E. apply round2_nonneg, fmul_nonneg, log2_nonneg.
    rewrite one_of_int. apply of_int_mono. lia.
  - apply Z.eqb_neq in Z1.
    assert (Z2 : (services.calculate_L q =? 0)%Z = false) by (apply Z.eqb_neq; lia).
    rewrite Z2. apply entropy_value_mono; lia.
Qed.

(** X20. Adding characters to a password, in front or behind, never lowers
    its entropy. *)
Theorem calculate_entropy_concat (p q : str) :
  (services.calculate_L (p ++ q) <= sys_maxsize)%Z ->
  exists e1 e2 e,
    services.calculate_entropy p = Return e1
    /\ services.calculate_entropy q = Return e2
    /\ services.calculate_entropy (p ++ q) = Return e
    /\ fle e1 e = true /\ fle e2 e = true.
Proof.
  intros HS.
  destruct (calculate_N_app p q) as (N1 & N2 & _).
  pose proof (calculate_L_app p q) as EL.
  assert (L1 : (0 <= services.calculate_L p)%Z) by (unfold services.calculate_L; lia).
  assert (L2 : (0 <= services.calculate_L q)%Z) by (unfold services.calculate_L; lia).
  destruct (entropy_mono p (p ++ q)) as (e1 & e & E1 & E & M1); try lia.
  destruct (entropy_mono q (p ++ q)) as (e2 & e' & E2 & E' & M2); try lia.
  rewrite E in E'. injection E' as <-.
  now exists e1, e2, e.
Qed.


Lemma fle_below (x : float) (a b : Z) :
  F2Q (of_int a) == inject_Z a -> is_fin (of_int a) = true -> (a < b)%Z ->
  fle x (of_int a) = true -> flt_int x b = true.
Proof.
  intros V F H L. apply fle_ext in L. destruct L as (u & v & Eu & Ev & L).
  rewrite (ext_of_fin _ F) in Ev. injection Ev as <-.
  apply flt_int_spec. exists u. split; [exact Eu |].
  destruct u as [| q |]; simpl in *; try tauto.
  intros L'. rewrite V in L. rewrite (Zlt_Qlt a b) in H. 
  apply (Qlt_not_le _ _ H). now apply Qle_trans with q.
Qed.

(** The entropy of a password of at most [n] characters is at most
    [7 * n]. *)
Lemma entropy_at_most (password : str) (n : Z) :
  (services.calculate_L password <= n)%Z -> (1 <= n <= 128)%Z ->
  exists e,
    services.calculate_entropy password = Return e
    /\ fle e (round2 (fmul (of_int n) (of_int 7))) = true.
Proof.
  intros HL Hn.
  rewrite (calculate_entropy_value password) by (unfold sys_maxsize; lia).
  eexists. split; [reflexivity |].
  pose proof (calculate_N_positive password) as P1.
  pose proof (calculate_N_at_most_94 password) as P2.
  assert (L0 : (0 <= services.calculate_L password)%Z)
    by (unfold services.calculate_L; lia).
  destruct (of_int_pos_finite n) as (m & e & E); [lia |].
  assert (F7 : is_fin (of_int 7) = true) by reflexivity.
  assert (P7 : (0 <= F2Q (of_int 7))%Q) by (vm_compute; discriminate).
  assert (Top : fle zero (round2 (fmul (of_int n) (of_int 7))) = true).
  { rewrite E. apply round2_nonneg, fmul_nonneg. reflexivity. }
  destruct (services.calculate_L password =? 0)%Z eqn:Z1; [exact Top |].
  apply Z.eqb_neq in Z1.
  set (L := services.calculate_L password) in *.
  set (N := services.calculate_N password) in *.
  destruct (of_int_pos_finite L) as (m1 & e1 & E1); [lia |].
  assert (X1 : fle one (of_int N) = true)
    by (rewrite one_of_int; apply of_int_mono; lia).
  assert (B1 : fle (of_int N) (of_int 128) = true) by (apply of_int_mono; lia).
  pose proof (log2_nonneg _ X1) as G1.
  pose proof (log2_le_7 _ X1 B1) as U1.
  pose proof (bounded_is_fin _ 7 F7 G1 U1) as F1.
  assert (XL : fle (of_int L) (of_int n) = true) by (apply of_int_mono; lia).
  set (y := libm_log2 (of_int N)) in *.
  rewrite E, E1 in *.
  apply round2_mono; [now apply fmul_nonneg |].
  apply fmul_mono_fin; try reflexivity; try assumption.
  - apply Qlt_le_weak, F2Q_pos.
  - now apply fle_fin.
  - now apply fle_zero_fin.
  - now apply fle_fin.
Qed.

(** X21. Length alone bounds the category: a password of at most 5
    characters has an entropy below 40 and is "Muy Débil", and one of at
    most 14 characters has an entropy below 100 and is never "Muy Fuerte". *)
Theorem short_password_category (password : str) :
  ((services.calculate_L password <= 5)%Z ->
   exists e,
     services.calculate_entropy password = Return e
     /\ spec.label_of (services.get_strength_category e) = "Muy Débil"%string
     /\ spec.score_of (services.get_strength_category e) = 1%Z)
  /\ ((services.calculate_L password <= 14)%Z ->
      exists e,
        services.calculate_entropy password = Return e
        /\ (spec.score_of (services.get_strength_category e) <= 4)%Z).
Proof.
  assert (R5 : round2 (fmul (of_int 5) (of_int 7)) = of_int 35)
    by (vm_compute; reflexivity).
  assert (R14 : round2 (fmul (of_int 14) (of_int 7)) = of_int 98)
    by (vm_compute; reflexivity).
  split; intros HL.
  - destruct (entropy_at_most password 5 HL ltac:(lia)) as (e & E & B).
    exists e. split; [exact E |]. rewrite R5 in B.
    assert (T : flt_int e 40 = true).
    { apply (fle_below e 35 40); [reflexivity | reflexivity | lia | exact B]. }
    unfold services.get_strength_category. rewrite T.
    split; reflexivity.
  - destruct (entropy_at_most password 14 HL ltac:(lia)) as (e & E & B).
    exists e. split; [exact E |]. rewrite R14 in B.
    assert (T : flt_int e 100 = true).
    { apply (fle_below e 98 100); [reflexivity | reflexivity | lia | exact B]. }
    unfold services.get_strength_category, spec.score_of. rewrite T.
    repeat (match goal with |- context [flt_int ?s ?n] =>
                              destruct (flt_int s n); [cbn; lia |] end).
    cbn. lia.
Qed.

End EntropyOrder.

(** ** The store in any state *)

Section StoreFacts.
Context {U : Unicode}.
Import database behaviour.

Lemma same_connection_refl (c : Connection) : same_connection c c.
Proof. repeat split. Qed.

Lemma same_store_refl (w : World) : same_store w w.
Proof.
  split; [reflexivity |]. destruct (DB_CONNECTION w); [apply same_connection_refl | exact I].
Qed.

Lemma same_store_trans (w1 w2 w3 : World) :
  same_store w1 w2 -> same_store w2 w3 -> same_store w1 w3.
Proof.
  intros [F1 C1] [F2 C2]. split; [congruence |].
  destruct (DB_CONNECTION w1), (DB_CONNECTION w2), (DB_CONNECTION w3);
    try contradiction; auto.
  destruct C1 as (? & ? & ?), C2 as (? & ? & ?). repeat split; congruence.
Qed.

Lemma same_store_proj (w w' : World) :
  fs w' = fs w -> DB_CONNECTION w' = DB_CONNECTION w -> same_store w w'.
Proof.
  intros F C. split; [exact F |]. rewrite C.
  destruct (DB_CONNECTION w); [apply same_connection_refl | exact I].
Qed.

Lemma conn_execute_same (c : Connection) :
  same_connection c (snd (conn_execute c)).
Proof.
  unfold conn_execute. destruct (closed c); [apply same_connection_refl |].
  destruct (corrupt c); [apply same_connection_refl |].
  destruct (faults c) as [| [] f]; repeat split.
Qed.

(** A statement on the global connection touches neither the cache nor the
    output, and leaves the store as it is. *)
Lemma cursor_execute_frame {A} (read : list Row -> A) (w : World) :
  let w' := snd (cursor_execute read w) in
  same_store w w' /\ cache w' = cache w /\ stdout w' = stdout w.
Proof.
  unfold cursor_execute. destruct (DB_CONNECTION w) as [c |] eqn:Ec.
  - pose proof (conn_execute_same c) as S.
    destruct (conn_execute c) as [r c']. cbn [snd] in S.
    assert (F : forall w0, w0 = set_DB_CONNECTION w (Some c') ->
                same_store w w0 /\ cache w0 = cache w /\ stdout w0 = stdout w).
    { intros w0 ->. repeat split. cbn. rewrite Ec. exact S. }
    destruct r as [[] | e]; [destruct (passwords c') |]; cbn [snd]; now apply F.
  - cbn [snd]. repeat split. cbn. now rewrite Ec.
Qed.

(** What a statement reads is the table of the connection. *)
Lemma cursor_execute_reads {A} (read : list Row -> A) (w w' : World) (a : A) :
  cursor_execute read w = (Return a, w') ->
  exists c rows,
    DB_CONNECTION w = Some c /\ closed c = false /\ corrupt c = false
    /\ passwords c = Some rows /\ a = read rows.
Proof.
  unfold cursor_execute. destruct (DB_CONNECTION w) as [c |]; [| discriminate].
  unfold conn_execute.
  destruct (closed c) eqn:Cl; [discriminate |].
  destruct (corrupt c) eqn:Co; [discriminate |].
  destruct (faults c) as [| [] f]; cbn [set_faults passwords];
    try discriminate;
    destruct (passwords c) as [rows |] eqn:Ep; try discriminate;
    intros H; injection H as <- _; exists c, rows; repeat split; auto.
Qed.

(** The membership query under the decorator, in any state: it returns, it
    leaves the cache alone, and it prints at most its one diagnostic. *)
Lemma is_common_password_body_frame (password : str) (w : World) :
  exists b w',
    is_common_password_body password w = (Return b, w')
    /\ same_store w w' /\ cache w' = cache w
    /\ (stdout w' = stdout w
        \/ (b = false /\ exists e,
              stdout w' = stdout w
                ++ [("Error en búsqueda de contraseña: " ++ exn_str e)%string])).
Proof.
  unfold is_common_password_body.
  destruct (DB_CONNECTION w) as [c |] eqn:Ec.
  - unfold try_except.
    pose proof (cursor_execute_frame
                  (fun rows =>
                     existsb (fun r => str_eqb (password_lower r) (str_lower password))
                             rows) w) as F.
    destruct (cursor_execute _ w) as [[b | e] w1]; cbn [snd] in F;
      destruct F as (S & C & O).
    + exists b, w1. repeat split; auto. apply S. apply S.
    + unfold bind, print, ret. eexists false, _. split; [reflexivity |].
      split; [| split].
      * destruct S as [S1 S2]. split; [exact S1 |]. exact S2.
      * exact C.
      * right. split; [reflexivity |]. exists e. cbn. now rewrite O.
  - exists false, w. repeat split; auto. cbn. now rewrite Ec.
Qed.


(** The rank lookup in any state. *)
Lemma get_password_rank_frame (password : str) (w : World) :
  exists r w',
    get_password_rank password w = (Return r, w')
    /\ same_store w w' /\ cache w' = cache w
    /\ (stdout w' = stdout w
        \/ (r = None /\ exists e,
              stdout w' = stdout w
                ++ [("Error al obtener rank: " ++ exn_str e)%string])).
Proof.
  unfold get_password_rank.
  destruct (DB_CONNECTION w) as [c |] eqn:Ec.
  - unfold try_except.
    pose proof (cursor_execute_frame
                  (fun rows =>
                     option_map rank
                       (find (fun r => str_eqb (password_lower r) (str_lower password))
                             rows)) w) as F.
    destruct (cursor_execute _ w) as [[b | e] w1]; cbn [snd] in F;
      destruct F as (S & C & O).
    + exists b, w1. repeat split; auto; apply S.
    + unfold bind, print, ret. eexists None, _. split; [reflexivity |].
      split; [| split].
      * destruct S as [S1 S2]. split; [exact S1 |]. exact S2.
      * exact C.
      * right. split; [reflexivity |]. exists e. cbn. now rewrite O.
  - exists None, w. repeat split; auto. cbn. now rewrite Ec.
Qed.

Lemma over_same_store (w w' : World) (rows : list Row) :
  same_store w w' -> over w rows -> over w' rows.
Proof.
  intros [_ S] O c' Ec'. rewrite Ec' in S.
  destruct (DB_CONNECTION w) as [c |] eqn:Ec; [| contradiction].
  destruct S as (_ & _ & P). rewrite P. now apply O.
Qed.

(** A positive answer of the store is a row of the table. *)
Lemma is_common_password_body_sound (password : str) (w w' : World)
    (rows : list Row) :
  over w rows ->
  is_common_password_body password w = (Return true, w') ->
  spec.corpus_member rows (str_lower password) = true.
Proof.
  intros O. unfold is_common_password_body.
  destruct (DB_CONNECTION w) as [c |] eqn:Ec; [| discriminate].
  unfold try_except.
  destruct (cursor_execute _ w) as [[b | e] w1] eqn:E.
  - intros H. injection H as -> _.
    destruct (cursor_execute_reads _ _ _ _ E) as (c0 & rows0 & E0 & _ & _ & P & V).
    rewrite (O c0 E0) in P. injection P as <-. now rewrite V.
  - unfold bind, print, ret. discriminate.
Qed.


(** *** The cache, call by call *)

(** One call through the cache, in any state. *)
Lemma is_common_password_step (password : str) (w : World) :
  match cache_get password (entries (cache w)) with
  | Some v =>
      is_common_password password w
      = (Return v,
         set_cache w {| entries := (password, v)
                                   :: cache_remove password (entries (cache w));
                        hits := (hits (cache w) + 1)%Z;
                        misses := misses (cache w) |})
  | None =>
      exists b w2,
        is_common_password_body password (on_miss w) = (Return b, w2)
        /\ is_common_password password w
           = (Return b,
              set_cache w2
                {| entries :=
                     (if (Z.of_nat (List.length (entries (cache w))) <? maxsize)%Z
                      then (password, b) :: entries (cache w)
                      else (password, b) :: removelast (entries (cache w)));
                   hits := hits (cache w);
                   misses := (misses (cache w) + 1)%Z |})
  end.
Proof.
  unfold is_common_password, lru_cache_wrapper.
  destruct (cache_get password (entries (cache w))) as [v |] eqn:G; [reflexivity |].
  fold (on_miss w).
  destruct (is_common_password_body_frame password (on_miss w))
    as (b & w2 & E & _ & C & _).
  exists b, w2. split; [exact E |]. rewrite E, C.
  cbn [on_miss cache set_cache entries hits misses]. now rewrite G.
Qed.

Lemma cache_get_head (password : str) (v : bool) (es : list (str * bool)) :
  cache_get password ((password, v) :: es) = Some v.
Proof.
  cbn [cache_get]. now rewrite (proj2 (str_eqb_eq password password) eq_refl).
Qed.

Lemma cache_get_None_notin (key : str) (es : list (str * bool)) :
  cache_get key es = None -> ~ In key (map fst es).
Proof.
  induction es as [| [k v] es IH]; cbn [cache_get map fst]; [auto |].
  destruct (str_eqb k key) eqn:E; [discriminate |].
  apply str_eqb_neq in E. intros G [H | H]; [congruence | now apply IH].
Qed.

Lemma cache_remove_notin (key : str) (es : list (str * bool)) :
  ~ In key (map fst (cache_remove key es)).
Proof.
  unfold cache_remove. intros H. apply in_map_iff in H.
  destruct H as ([k v] & Ek & HIn). apply filter_In in HIn.
  destruct HIn as [_ N]. cbn [fst] in *. subst k.
  now rewrite (proj2 (str_eqb_eq key key) eq_refl) in N.
Qed.

Lemma NoDup_cache_remove (key : str) (es : list (str * bool)) :
  NoDup (map fst es) -> NoDup (map fst (cache_remove key es)).
Proof.
  unfold cache_remove. induction es as [| [k v] es IH]; cbn [map filter fst];
    [auto |].
  intros H. inversion H as [| ? ? Hk Hes]; subst.
  destruct (negb (str_eqb k key)); [| auto].
  cbn [map fst]. constructor; [| auto].
  intros HIn. apply Hk. apply in_map_iff in HIn.
  destruct HIn as (x & Ex & Hx). apply filter_In in Hx.
  apply in_map_iff. exists x. tauto.
Qed.

Lemma NoDup_removelast {A} (l : list A) : NoDup l -> NoDup (removelast l).
Proof.
  intros H. destruct l as [| a l]; [exact H |].
  assert (NE : a :: l <> []) by discriminate.
  rewrite (app_removelast_last a NE) in H.
  now apply NoDup_app_remove_r in H.
Qed.

Lemma In_removelast {A} (x : A) (l : list A) : In x (removelast l) -> In x l.
Proof.
  intros H. destruct l as [| a l]; [exact H |].
  assert (NE : a :: l <> []) by discriminate.
  rewrite (app_removelast_last a NE). apply in_or_app. now left.
Qed.

Lemma map_removelast {A B} (f : A -> B) (l : list A) :
  map f (removelast l) = removelast (map f l).
Proof.
  induction l as [| a l IH]; [reflexivity |].
  destruct l as [| b l]; [reflexivity |].
  change (f a :: map f (removelast (b :: l))
          = f a :: removelast (map f (b :: l))).
  now rewrite IH.
Qed.

(** What one call keeps: capacity, distinct keys, the table, and it counts
    itself once. *)
Lemma is_common_password_keeps (password : str) (w : World) :
  within_capacity w -> distinct_keys w ->
  exists v w',
    is_common_password password w = (Return v, w')
    /\ within_capacity w' /\ distinct_keys w'
    /\ same_store w w'
    /\ (hits (cache w') + misses (cache w')
        = hits (cache w) + misses (cache w) + 1)%Z
    /\ cache_get password (entries (cache w')) = Some v.
Proof.
  unfold within_capacity, distinct_keys. intros Hl Hd.
  pose proof (is_common_password_step password w) as S.
  destruct (cache_get password (entries (cache w))) as [v |] eqn:G.
  - exists v. eexists. split; [exact S |].
    cbn [cache set_cache entries hits misses List.length map fst].
    split; [| split; [| split; [| split]]].
    + pose proof (database_facts.length_cache_remove _ _ _ G). lia.
    + constructor; [apply cache_remove_notin | now apply NoDup_cache_remove].
    + now apply same_store_proj.
    + lia.
    + apply cache_get_head.
  - destruct S as (b & w2 & E & S).
    destruct (is_common_password_body_frame password (on_miss w))
      as (b' & w2' & E' & St & C & _).
    rewrite E in E'. injection E' as <- <-.
    assert (St' : forall c, same_store w (set_cache w2 c)).
    { intros c. apply same_store_trans with (on_miss w);
        [now apply same_store_proj |].
      apply same_store_trans with w2; [exact St | now apply same_store_proj]. }
    exists b. eexists. split; [exact S |].
    cbn [cache set_cache entries hits misses].
    apply cache_get_None_notin in G.
    destruct (Z.of_nat (List.length (entries (cache w))) <? maxsize)%Z eqn:Full;
      cbn [List.length map fst].
    + apply Z.ltb_lt in Full.
      split; [lia |]. split; [now constructor |].
      split; [apply St' |]. split; [lia | apply cache_get_head].
    + apply Z.ltb_ge in Full.
      assert (NE : entries (cache w) <> []).
      { intros E0. rewrite E0 in Full. unfold maxsize in Full. cbn in Full. lia. }
      pose proof (database_facts.length_removelast _ NE).
      split; [lia |]. split; [| split; [apply St' | split; [lia | apply cache_get_head]]].
      constructor.
      * rewrite map_removelast. intros HIn. apply G. now apply In_removelast.
      * rewrite map_removelast. now apply NoDup_removelast.
Qed.


Lemma is_common_password_sound_step (password : str) (w : World)
    (rows : list Row) :
  over w rows -> sound_positives w rows ->
  exists v w',
    is_common_password password w = (Return v, w')
    /\ (v = true -> spec.corpus_member rows (str_lower password) = true)
    /\ over w' rows /\ sound_positives w' rows.
Proof.
  intros Ho Hs. pose proof (is_common_password_step password w) as S.
  destruct (cache_get password (entries (cache w))) as [v |] eqn:G.
  - assert (V : v = true -> spec.corpus_member rows (str_lower password) = true).
    { apply database_facts.cache_get_In in G. unfold sound_positives in Hs.
      rewrite Forall_forall in Hs. exact (Hs _ G). }
    exists v. eexists. split; [exact S |]. split; [exact V |]. split.
    + exact Ho.
    + unfold sound_positives. cbn [cache set_cache entries].
      constructor; [exact V | now apply database_facts.Forall_cache_remove].
  - destruct S as (b & w2 & E & S).
    destruct (is_common_password_body_frame password (on_miss w))
      as (b' & w2' & E' & St & C & _).
    rewrite E in E'. injection E' as <- <-.
    assert (V : b = true -> spec.corpus_member rows (str_lower password) = true).
    { intros ->. exact (is_common_password_body_sound password (on_miss w) w2 rows Ho E). }
    exists b. eexists. split; [exact S |]. split; [exact V |]. split.
    + apply (over_same_store (on_miss w)); [| exact Ho].
      apply same_store_trans with w2; [exact St | now apply same_store_proj].
    + unfold sound_positives. cbn [cache set_cache entries].
      destruct (_ <? _)%Z; constructor; try exact V; try exact Hs.
      now apply database_facts.Forall_removelast.
Qed.

(** ** The membership cache in any state *)

(** X4. A query through the cache never raises and leaves its answer in the
    cache under the password as it was passed; the same query asked again is
    answered from the cache with the same answer, without a statement on the
    connection and without a line of output: it is counted as a hit. *)
Theorem is_common_password_memoised (password : str) (w : World) :
  exists v w1 w2,
    is_common_password password w = (Return v, w1)
    /\ cache_get password (entries (cache w1)) = Some v
    /\ is_common_password password w1 = (Return v, w2)
    /\ DB_CONNECTION w2 = DB_CONNECTION w1
    /\ stdout w2 = stdout w1 /\ fs w2 = fs w1
    /\ hits (cache w2) = (hits (cache w1) + 1)%Z
    /\ misses (cache w2) = misses (cache w1).
Proof.
  assert (First : exists v w1,
            is_common_password password w = (Return v, w1)
            /\ cache_get password (entries (cache w1)) = Some v).
  { pose proof (is_common_password_step password w) as S.
    destruct (cache_get password (entries (cache w))) as [v |].
    - exists v. eexists. split; [exact S | apply cache_get_head].
    - destruct S as (b & w2 & _ & S). exists b. eexists. split; [exact S |].
      cbn [cache set_cache entries]. destruct (_ <? _)%Z; apply cache_get_head. }
  destruct First as (v & w1 & E1 & G1).
  pose proof (is_common_password_step password w1) as S. rewrite G1 in S.
  exists v, w1. eexists. split; [exact E1 |]. split; [exact G1 |].
  split; [exact S |]. repeat split.
Qed.

(** X5. Whatever is asked, and whether or not the statements succeed, the
    cache stays within its 10,000 entries with one entry per key, every
    query is answered, and each is counted exactly once, as a hit or as a
    miss, which is what [get_cache_info] reports. *)
Theorem get_cache_info_accounts (passwords : list str) (w : World) :
  within_capacity w -> distinct_keys w ->
  exists answers w' info,
    spec.ask_all passwords w = (map Return answers, w')
    /\ within_capacity w' /\ distinct_keys w'
    /\ get_cache_info w' = (Return info, w')
    /\ info_maxsize info = 10000%Z
    /\ (0 <= info_size info <= info_maxsize info)%Z
    /\ (info_hits info + info_misses info
        = hits (cache w) + misses (cache w)
          + Z.of_nat (List.length passwords))%Z.
Proof.
  revert w. induction passwords as [| p rest IH]; intros w Hl Hd.
  - exists [], w. eexists. split; [reflexivity |]. split; [exact Hl |].
    split; [exact Hd |]. split; [reflexivity |].
    cbn [info_maxsize info_size info_hits info_misses List.length].
    unfold within_capacity in Hl. repeat split; first [lia | exact Hl].
  - destruct (is_common_password_keeps p w Hl Hd)
      as (v & w1 & E1 & Hl1 & Hd1 & _ & Cnt & _).
    destruct (IH w1 Hl1 Hd1) as (vs & w2 & info & E2 & Hl2 & Hd2 & I & M & Sz & Cnt2).
    exists (v :: vs), w2, info. cbn [spec.ask_all map]. rewrite E1, E2.
    repeat split; auto; try apply Sz.
    rewrite Cnt2, Cnt. cbn [List.length]. lia.
Qed.

(** X6. A failing statement can only make the answer "not common": from a
    cache whose positive entries are members of the table, whatever
    statements fail, a password is answered "common" only if its lower-cased
    form is in the table. *)
Theorem is_common_password_no_false_positive (passwords : list str)
    (w : World) (rows : list Row) :
  over w rows -> sound_positives w rows ->
  exists answers w',
    spec.ask_all passwords w = (map Return answers, w')
    /\ Forall2 (fun p v =>
                  v = true -> spec.corpus_member rows (str_lower p) = true)
               passwords answers
    /\ over w' rows /\ sound_positives w' rows.
Proof.
  revert w. induction passwords as [| p rest IH]; intros w Ho Hs.
  - exists [], w. repeat split; auto.
  - destruct (is_common_password_sound_step p w rows Ho Hs)
      as (v & w1 & E1 & V & Ho1 & Hs1).
    destruct (IH w1 Ho1 Hs1) as (vs & w2 & E2 & F & Ho2 & Hs2).
    exists (v :: vs), w2. cbn [spec.ask_all map]. rewrite E1, E2.
    repeat split; auto.
Qed.


End StoreFacts.

(** ** Recency *)

Section Recency.
Context {U : Unicode}.
Import database behaviour.

Lemma position_cache_remove (key p : str) (es : list (str * bool))
    (i : nat) (v : bool) :
  p <> key -> position key es = Some i -> cache_get key es = Some v ->
  exists i', position key (cache_remove p es) = Some i' /\ (i' <= i)%nat
             /\ cache_get key (cache_remove p es) = Some v.
Proof.
  intros Hp. revert i. unfold cache_remove.
  induction es as [| [k b] es IH]; intros i; cbn [position cache_get filter fst];
    [discriminate |].
  destruct (str_eqb k key) eqn:Ek.
  - intros Hi Hv. apply str_eqb_eq in Ek. subst k.
    assert (N : str_eqb key p = false) by (apply str_eqb_neq; congruence).
    rewrite N. cbn [negb position cache_get].
    rewrite (proj2 (str_eqb_eq key key) eq_refl).
    exists 0%nat. repeat split; auto. lia.
  - destruct (position key es) as [j |] eqn:Pj; [| discriminate].
    cbn [option_map]. intros Hi Hv. injection Hi as <-.
    destruct (IH j eq_refl Hv) as (j' & Pj' & Lj & Gj).
    destruct (negb (str_eqb k p)).
    + cbn [position cache_get]. rewrite Ek, Pj'. cbn [option_map].
      exists (S j'). repeat split; auto. lia.
    + exists j'. repeat split; auto.
Qed.

Lemma position_removelast (key : str) (es : list (str * bool))
    (i : nat) (v : bool) :
  position key es = Some i -> cache_get key es = Some v ->
  (i + 1 < List.length es)%nat ->
  position key (removelast es) = Some i
  /\ cache_get key (removelast es) = Some v.
Proof.
  revert i. induction es as [| [k b] es IH]; intros i; [discriminate |].
  destruct es as [| e es'].
  - cbn [List.length]. intros _ _ L. lia.
  - remember (e :: es') as l eqn:El.
    assert (R : removelast ((k, b) :: l) = (k, b) :: removelast l)
      by (rewrite El; reflexivity).
    rewrite R. cbn [position cache_get List.length]. destruct (str_eqb k key).
    + intros Hi Hv _. auto.
    + destruct (position key l) as [j |] eqn:Pj; [| discriminate].
      cbn [option_map]. intros Hi Hv L. injection Hi as <-.
      destruct (IH j eq_refl Hv) as [P G]; [lia |].
      rewrite P. auto.
Qed.

(** One query moves a cached key at most one place towards the end, and
    leaves it in the cache unless it was last of a full cache. *)
Lemma position_step (key p : str) (w : World) (i : nat) (v : bool) :
  within_capacity w ->
  position key (entries (cache w)) = Some i ->
  cache_get key (entries (cache w)) = Some v ->
  (Z.of_nat i + 1 < maxsize)%Z ->
  exists i',
    position key (entries (cache (snd (is_common_password p w)))) = Some i'
    /\ (i' <= i + 1)%nat
    /\ cache_get key (entries (cache (snd (is_common_password p w)))) = Some v.
Proof.
  unfold within_capacity. intros Hl Hi Hv Hm.
  pose proof (is_common_password_step p w) as St.
  destruct (list_eq_dec N.eq_dec p key) as [-> | Hp].
  - rewrite Hv in St. rewrite St. cbn [snd cache set_cache entries position cache_get].
    rewrite (proj2 (str_eqb_eq key key) eq_refl).
    exists 0%nat. repeat split; auto. lia.
  - assert (N : str_eqb p key = false) by now apply str_eqb_neq.
    destruct (cache_get p (entries (cache w))) as [b |].
    + rewrite St. cbn [snd cache set_cache entries position cache_get]. rewrite N.
      destruct (position_cache_remove key p _ i v Hp Hi Hv) as (i' & P & L & G).
      rewrite P. cbn [option_map]. exists (S i'). repeat split; auto. lia.
    + destruct St as (b & w2 & _ & St). rewrite St.
      cbn [snd cache set_cache entries].
      destruct (Z.of_nat (List.length (entries (cache w))) <? maxsize)%Z eqn:Full;
        cbn [position cache_get]; rewrite N.
      * rewrite Hi. cbn [option_map]. exists (S i). repeat split; auto. lia.
      * apply Z.ltb_ge in Full.
        destruct (position_removelast key _ i v Hi Hv) as [P G]; [lia |].
        rewrite P. cbn [option_map]. exists (S i). repeat split; auto. lia.
Qed.

Lemma ask_all_keeps_recent (key : str) (passwords : list str) (w : World)
    (i : nat) (v : bool) :
  within_capacity w -> distinct_keys w ->
  position key (entries (cache w)) = Some i ->
  cache_get key (entries (cache w)) = Some v ->
  (Z.of_nat i + Z.of_nat (List.length passwords) < maxsize)%Z ->
  cache_get key (entries (cache (snd (spec.ask_all passwords w)))) = Some v.
Proof.
  revert w i. induction passwords as [| p rest IH]; intros w i Hl Hd Hi Hv Hm.
  - exact Hv.
  - cbn [List.length] in Hm.
    destruct (position_step key p w i v Hl Hi Hv) as (i' & P & L & G); [lia |].
    destruct (is_common_password_keeps p w Hl Hd) as (r & w1 & E1 & Hl1 & Hd1 & _).
    rewrite E1 in P, G. cbn [snd] in P, G.
    cbn [spec.ask_all]. rewrite E1.
    specialize (IH w1 i' Hl1 Hd1 P G).
    destruct (spec.ask_all rest w1) as [rs w2]. cbn [snd] in *.
    apply IH. lia.
Qed.

(** X22. An answer stays cached while the cache has room for what came
    after: whatever the 9,999 queries that follow a query are, they do not
    evict its entry, and the query asked again is a hit with the same
    answer. *)
Theorem cached_answer_survives (key : str) (passwords : list str) (w : World) :
  within_capacity w -> distinct_keys w ->
  (Z.of_nat (List.length passwords) < maxsize)%Z ->
  exists v w1 answers w2 w3,
    is_common_password key w = (Return v, w1)
    /\ spec.ask_all passwords w1 = (answers, w2)
    /\ cache_get key (entries (cache w2)) = Some v
    /\ is_common_password key w2 = (Return v, w3)
    /\ hits (cache w3) = (hits (cache w2) + 1)%Z
    /\ misses (cache w3) = misses (cache w2).
Proof.
  intros Hl Hd Hn.
  destruct (is_common_password_keeps key w Hl Hd)
    as (v & w1 & E1 & Hl1 & Hd1 & _ & _ & G1).
  assert (P1 : position key (entries (cache w1)) = Some 0%nat).
  { pose proof (is_common_password_step key w) as S.
    destruct (cache_get key (entries (cache w))) as [b |].
    - rewrite S in E1. injection E1 as _ <-.
      cbn [cache set_cache entries position].
      now rewrite (proj2 (str_eqb_eq key key) eq_refl).
    - destruct S as (b & w2 & _ & S). rewrite S in E1. injection E1 as _ <-.
      cbn [cache set_cache entries]. destruct (_ <? _)%Z; cbn [position];
        now rewrite (proj2 (str_eqb_eq key key) eq_refl). }
  pose proof (ask_all_keeps_recent key passwords w1 0 v Hl1 Hd1 P1 G1) as K.
  destruct (spec.ask_all passwords w1) as [answers w2] eqn:E2. cbn [snd] in K.
  specialize (K ltac:(lia)).
  pose proof (is_common_password_step key w2) as St. rewrite K in St.
  exists v, w1, answers, w2. eexists.
  split; [exact E1 |]. split; [exact E2 |]. split; [exact K |].
  split; [exact St |]. split; reflexivity.
Qed.

End Recency.

Section Shutdown.
Context {U : Unicode}.
Import database behaviour.
Local Open Scope string_scope.

(** X8. [close_database] closes the connection and leaves it in
    [DB_CONNECTION]: a query that comes after is not refused for want of a
    connection, it fails on the closed one, so the membership query under
    the cache answers "not common" and the rank lookup none, each with a
    diagnostic line; closing again prints its line again. Without a
    connection [close_database] does nothing. *)
Theorem close_database_leaves_closed_connection (w : World) :
  (forall c,
     DB_CONNECTION w = Some c ->
     exists w1,
       close_database w = (Return tt, w1)
       /\ DB_CONNECTION w1 = Some (set_closed c true)
       /\ stdout w1 = (stdout w ++ ["🔌 Conexión a base de datos cerrada"])%list
       /\ cache w1 = cache w /\ fs w1 = fs w
       /\ (forall password, exists w2,
             is_common_password_body password w1 = (Return false, w2)
             /\ stdout w2
                = (stdout w1
                   ++ ["Error en búsqueda de contraseña: Cannot operate on a closed database."])%list)
       /\ (forall password, exists w2,
             get_password_rank password w1 = (Return None, w2)
             /\ stdout w2
                = (stdout w1
                   ++ ["Error al obtener rank: Cannot operate on a closed database."])%list)
       /\ (exists w2,
             close_database w1 = (Return tt, w2)
             /\ stdout w2
                = (stdout w1 ++ ["🔌 Conexión a base de datos cerrada"])%list))
  /\ (DB_CONNECTION w = None -> close_database w = (Return tt, w)).
Proof.
  split.
  - intros c Ec. unfold close_database. rewrite Ec. eexists.
    split; [reflexivity |]. repeat split; intros; eexists; split; reflexivity.
  - intros N. unfold close_database. now rewrite N.
Qed.

End Shutdown.

(** ** Start-up, in full *)

Section Start.
Context {U : Unicode} {libm : Libm}.
Import database behaviour.
Local Open Scope string_scope.

(** The fates of the four PRAGMAs and of the count. *)
Ltac five_fates fate :=
  destruct fate as [| [] [| [] [| [] [| [] [| [] ?]]]]].

Lemma init_database_success (w : World) (f : DbFile) (rows : list Row) :
  fs w = Some f -> is_database f = true -> db_passwords f = Some rows ->
  ~ In true (firstn 5 (db_faults f)) ->
  exists w',
    init_database w = (Return true, w')
    /\ DB_CONNECTION w'
       = Some {| closed := false; corrupt := false; passwords := Some rows;
                 faults := skipn 5 (db_faults f) |}
    /\ stdout w'
       = (stdout w
          ++ [("✅ Base de datos conectada: "
               ++ format_comma (Z.of_nat (List.length rows))
               ++ " contraseñas cargadas")%string])%list
    /\ cache w' = cache w /\ fs w' = fs w.
Proof.
  intros Ef Hd Hp Hf.
  destruct w as [wfs conn c out]. cbn [fs] in Ef. subst wfs.
  destruct f as [d p fate]. cbn [is_database db_passwords db_faults] in *.
  subst d p.
  five_fates fate;
    try (exfalso; apply Hf; cbn; tauto);
    eexists; (split; [vm_compute; reflexivity |]); repeat split.
Qed.

(** X9. [init_database] answers True exactly when the file exists, is a
    database with the passwords table, and none of its five statements (the
    four PRAGMAs and the count) fails; it then leaves in [DB_CONNECTION] an
    open connection on that table, and has printed the number of rows with
    thousands separators. *)
Theorem init_database_loads (w : World) :
  (forall f rows,
     fs w = Some f -> is_database f = true -> db_passwords f = Some rows ->
     ~ In true (firstn 5 (db_faults f)) ->
     exists w',
       init_database w = (Return true, w')
       /\ DB_CONNECTION w'
          = Some {| closed := false; corrupt := false; passwords := Some rows;
                    faults := skipn 5 (db_faults f) |}
       /\ stdout w'
          = (stdout w
             ++ [("✅ Base de datos conectada: "
                  ++ format_comma (Z.of_nat (List.length rows))
                  ++ " contraseñas cargadas")%string])%list
       /\ cache w' = cache w /\ fs w' = fs w)
  /\ (forall w',
        init_database w = (Return true, w') ->
        exists f rows,
          fs w = Some f /\ is_database f = true /\ db_passwords f = Some rows
          /\ ~ In true (firstn 5 (db_faults f))).
Proof.
  split; [apply init_database_success |].
  intros w'.
  destruct w as [[[[] [rows |] fate] |] conn c out];
    try five_fates fate; intros H; vm_compute in H; try discriminate;
    do 2 eexists; (split; [reflexivity |]); repeat split;
    cbn; intuition discriminate.
Qed.

(** X10. How a start fails. Without the file nothing is created and
    [DB_CONNECTION] is left as it was; so it is when the file is no database
    or a PRAGMA fails, since the connection is assigned after the PRAGMAs.
    When the count fails (no passwords table, or the statement itself), the
    answer is False but [DB_CONNECTION] holds the connection just opened,
    and the application, whose start-up raises, never closes it. *)
Theorem init_database_failure_modes (w : World) :
  (fs w = None ->
   exists w',
     init_database w = (Return false, w')
     /\ fs w' = None /\ DB_CONNECTION w' = DB_CONNECTION w
     /\ stdout w'
        = (stdout w
           ++ ["⚠️  Base de datos 'passwords.db' no encontrada.";
               "   Ejecuta primero: python migrate_csv_to_sqlite.py"])%list)
  /\ (forall f,
        fs w = Some f ->
        is_database f = false \/ In true (firstn 4 (db_faults f)) ->
        exists w' msg,
          init_database w = (Return false, w')
          /\ DB_CONNECTION w' = DB_CONNECTION w
          /\ stdout w'
             = (stdout w
                ++ [("❌ Error al conectar con la base de datos: " ++ msg)%string])%list)
  /\ (forall f,
        fs w = Some f -> is_database f = true ->
        ~ In true (firstn 4 (db_faults f)) ->
        db_passwords f = None \/ nth_error (db_faults f) 4 = Some true ->
        exists w' c msg,
          init_database w = (Return false, w')
          /\ DB_CONNECTION w' = Some c /\ closed c = false
          /\ stdout w'
             = (stdout w
                ++ [("❌ Error al conectar con la base de datos: " ++ msg)%string])%list
          /\ forall requests, exists w1,
               main.run requests w
               = (main.StartupFailed (RuntimeError "Base de datos no disponible"),
                  w1)
               /\ DB_CONNECTION w1 = Some c).
Proof.
  split; [| split].
  - destruct w as [[f |] conn c out]; [discriminate |]. intros _.
    eexists. split; [vm_compute; reflexivity |]. repeat split.
    cbn [stdout]. symmetry. exact (app_assoc out [_] [_]).
  - intros f Ef H. destruct w as [wfs conn c out]. cbn [fs] in Ef. subst wfs.
    destruct f as [[] p fate]; cbn [is_database db_faults] in H.
    + destruct H as [H | H]; [discriminate |].
      destruct fate as [| [] [| [] [| [] [| [] ?]]]];
        try (exfalso; cbn in H; intuition discriminate);
        destruct p; do 2 eexists; (split; [vm_compute; reflexivity |]);
        split; reflexivity.
    + destruct p; do 2 eexists; (split; [vm_compute; reflexivity |]);
        split; reflexivity.
  - intros f Ef Hd Hf H. destruct w as [wfs conn c out]. cbn [fs] in Ef. subst wfs.
    destruct f as [d p fate]. cbn [is_database db_passwords db_faults] in *.
    subst d.
    five_fates fate;
      try (exfalso; apply Hf; cbn; tauto);
      destruct p as [rows |];
      try (exfalso; cbn in H; intuition discriminate);
      do 3 eexists; (split; [vm_compute; reflexivity |]);
      (split; [reflexivity |]); (split; [reflexivity |]);
      (split; [reflexivity |]);
      intros requests; eexists; (split; [vm_compute; reflexivity |]);
      reflexivity.
Qed.

End Start.

(** ** The orchestrator in any state *)

Section Orchestrator.
Context {U : Unicode} {libm : Libm}.
Import database behaviour.
Local Open Scope string_scope.

(** The orchestrator, step by step. *)
Lemma evaluate_password_unfold (password : str) (w : World) :
  services.evaluate_password password w
  = match services.calculate_entropy password with
    | Raise x => (Raise x, w)
    | Return e =>
        match is_common_password password w with
        | (Raise x, w1) => (Raise x, w1)
        | (Return true, w1) =>
            match get_password_rank password w1 with
            | (Raise x, w2) => (Raise x, w2)
            | (Return None, w2) =>
                (Raise (TypeError
                          "unsupported format string passed to NoneType.__format__"),
                 w2)
            | (Return (Some k), w2) =>
                (Return (spec.override_result password k), w2)
            end
        | (Return false, w1) =>
            match services.calculate_crack_time e with
            | Raise x => (Raise x, w1)
            | Return ct => (Return (plain_result password e ct), w1)
            end
        end
    end.
Proof.
  unfold services.evaluate_password, bind, lift.
  destruct (services.calculate_entropy password) as [e | x]; [| reflexivity].
  destruct (is_common_password password w) as [[[] | x] w1]; [| | reflexivity].
  - destruct (get_password_rank password w1) as [[[k |] | x] w2];
      [| reflexivity | reflexivity].
    cbn [format_comma_opt ret]. rewrite crack_time_zero. reflexivity.
  - unfold ret, plain_result, spec.label_of, spec.score_of.
    destruct (services.get_strength_category e) as [[strength score] recommendation].
    cbn [fst snd].
    destruct (services.calculate_crack_time e); reflexivity.
Qed.

Lemma get_strength_category_score (e : float) :
  (1 <= spec.score_of (services.get_strength_category e) <= 5)%Z.
Proof.
  unfold services.get_strength_category, spec.score_of.
  repeat (match goal with |- context [flt_int ?s ?n] =>
                            destruct (flt_int s n); [cbn; lia |] end).
  cbn. lia.
Qed.

(** X3. The shape of every result: the score is within the 0..5 the response
    model admits; score 0, the dictionary verdict, a rank, entropy 0.0 and
    the 0.0 milliseconds go together; otherwise entropy, category and crack
    time are those of the password's own entropy; and the composition is
    always that of the password as typed. *)
Theorem evaluate_password_result_shape (password : str) (w w' : World)
    (ev : models.PasswordEvaluation) :
  services.evaluate_password password w = (Return ev, w') ->
  (0 <= models.score ev <= 5)%Z
  /\ (models.score ev = 0%Z <-> models.is_common ev = true)
  /\ (models.is_common ev = true <-> models.rank ev <> None)
  /\ (models.is_common ev = true ->
      models.entropy ev = zero
      /\ models.strength ev = "Muy Débil (En Diccionario)"
      /\ models.crack_time ev
         = {| models.value := zero; models.unit := "milisegundos" |})
  /\ (models.is_common ev = false ->
      services.calculate_entropy password = Return (models.entropy ev)
      /\ services.calculate_crack_time (models.entropy ev)
         = Return (models.crack_time ev)
      /\ (models.strength ev, models.score ev, models.recommendation ev)
         = services.get_strength_category (models.entropy ev))
  /\ models.composition ev = services.analyze_composition password.
Proof.
  rewrite evaluate_password_unfold.
  destruct (services.calculate_entropy password) as [e | x]; [| discriminate].
  destruct (is_common_password password w) as [[[] | x] w1]; [| | discriminate].
  - destruct (get_password_rank password w1) as [[[k |] | x] w2];
      try discriminate.
    intros H. injection H as <- _.
    cbn [spec.override_result models.score models.is_common models.rank
         models.entropy models.strength models.crack_time models.composition].
    repeat split; try lia; try discriminate; auto.
  - destruct (services.calculate_crack_time e) as [ct | x] eqn:Ct; [| discriminate].
    intros H. injection H as <- _.
    pose proof (get_strength_category_score e) as Sc.
    unfold plain_result.
    cbn [models.score models.is_common models.rank
         models.entropy models.strength models.crack_time models.composition
         models.recommendation].
    split; [lia |]. split; [split; [lia | discriminate] |].
    split; [split; [discriminate | congruence] |].
    split; [discriminate |]. split; [| reflexivity].
    intros _. split; [reflexivity |]. split; [exact Ct |].
    unfold spec.label_of, spec.score_of.
    now destruct (services.get_strength_category e) as [[? ?] ?].
Qed.


(** A query through the cache in any state: it returns, leaves the store
    as it is and its answer in the cache. *)
Lemma is_common_password_frame (password : str) (w : World) :
  exists v w',
    is_common_password password w = (Return v, w')
    /\ same_store w w'
    /\ cache_get password (entries (cache w')) = Some v.
Proof.
  pose proof (is_common_password_step password w) as S.
  destruct (cache_get password (entries (cache w))) as [v |].
  - exists v. eexists. split; [exact S |].
    split; [now apply same_store_proj | apply cache_get_head].
  - destruct S as (b & w2 & E & S).
    destruct (is_common_password_body_frame password (on_miss w))
      as (b' & w2' & E' & St & _).
    rewrite E in E'. injection E' as <- <-.
    exists b. eexists. split; [exact S |]. split.
    + apply same_store_trans with (on_miss w); [now apply same_store_proj |].
      apply same_store_trans with w2; [exact St | now apply same_store_proj].
    + cbn [cache set_cache entries]. destruct (_ <? _)%Z; apply cache_get_head.
Qed.

(** On a store without failures a query through the cache prints nothing. *)
Lemma is_common_password_quiet (password : str) (w : World) (rows : list Row) :
  spec.healthy w rows ->
  stdout (snd (is_common_password password w)) = stdout w.
Proof.
  intros Hh. pose proof (is_common_password_step password w) as S.
  destruct (cache_get password (entries (cache w))) as [v |].
  - now rewrite S.
  - destruct S as (b & w2 & E & S). rewrite S. cbn [snd set_cache stdout].
    destruct (database_facts.is_common_password_body_healthy
                password (on_miss w) rows Hh) as (w2' & E' & _ & _ & O & _).
    rewrite E in E'. injection E' as _ <-. exact O.
Qed.

(** What an evaluation leaves behind, in any state. *)
Lemma evaluate_password_effects (password : str) (w : World) :
  let w' := snd (services.evaluate_password password w) in
  same_store w w'
  /\ ((exists e, services.calculate_entropy password = Return e) ->
      exists v, cache_get password (entries (cache w')) = Some v).
Proof.
  rewrite evaluate_password_unfold.
  destruct (services.calculate_entropy password) as [e | x].
  - destruct (is_common_password_frame password w) as (v & w1 & E1 & S1 & G1).
    rewrite E1. destruct v.
    + destruct (get_password_rank_frame password w1) as (r & w2 & E2 & S2 & C2 & _).
      rewrite E2.
      assert (same_store w w2 /\
              exists v, cache_get password (entries (cache w2)) = Some v).
      { split; [now apply same_store_trans with w1 |]. rewrite C2. eauto. }
      destruct r as [k |]; cbn [snd]; tauto.
    + destruct (services.calculate_crack_time e); cbn [snd]; eauto.
  - cbn [snd]. split; [apply same_store_refl |]. intros (e & He). discriminate.
Qed.

Context {Hlibm : LibmFacts libm}.

Lemma calculate_crack_time_returns (E : float) :
  fge_int E 0 = true -> flt_int E 1024 = true ->
  exists ct, services.calculate_crack_time E = Return ct.
Proof.
  intros H0 H1. rewrite calculate_crack_time_select. unfold spec.seconds_of.
  destruct E as [s | [] | | s m e]; try discriminate.
  - eexists. reflexivity.
  - pose proof (pow_finite (S754_finite s m e) eq_refl H1) as F.
    unfold pow2. destruct (libm_pow two (S754_finite s m e)); try discriminate;
      eexists; reflexivity.
Qed.

(** An evaluation on a store without failures. *)
Lemma evaluate_password_healthy (password : str) (w : World) (rows : list Row) :
  (services.calculate_L password <= 128)%Z ->
  spec.healthy w rows -> spec.consistent w rows -> within_capacity w ->
  exists ev w',
    services.evaluate_password password w = (Return ev, w')
    /\ spec.healthy w' rows /\ spec.consistent w' rows /\ within_capacity w'
    /\ stdout w' = stdout w
    /\ (if spec.corpus_member rows (str_lower password)
        then exists k,
               spec.rank_of rows (str_lower password) = Some k
               /\ ev = spec.override_result password k
        else exists e ct,
               services.calculate_entropy password = Return e
               /\ services.calculate_crack_time e = Return ct
               /\ ev = plain_result password e ct).
Proof.
  intros HL Hh Hc Hl.
  destruct (calculate_entropy_within_range password HL) as (e & He & H0 & H1).
  destruct (calculate_crack_time_returns e H0 H1) as (ct & Hct).
  pose proof (is_common_password_quiet password w rows Hh) as Q.
  destruct (database_facts.lru_step password w rows Hh Hc Hl)
    as (w1 & E1 & Hh1 & Hc1 & Hl1 & _).
  rewrite E1 in Q. cbn [snd] in Q.
  rewrite evaluate_password_unfold, He, E1.
  destruct (spec.corpus_member rows (str_lower password)) eqn:Hm.
  - destruct (database_facts.get_password_rank_healthy password w1 rows Hh1)
      as (w2 & E2 & Hh2 & C2 & O2 & _).
    destruct (corpus_member_rank_of rows _ Hm) as (k & Ek).
    rewrite E2, Ek. do 2 eexists. split; [reflexivity |].
    split; [exact Hh2 |].
    split; [unfold spec.consistent; now rewrite C2 |].
    split; [unfold within_capacity; now rewrite C2 |].
    split; [congruence |]. now exists k.
  - rewrite Hct. do 2 eexists. split; [reflexivity |].
    repeat (split; [assumption |]). now exists e, ct.
Qed.

(** X2. On a store whose queries succeed, a password of at most 128
    characters that is not in the corpus is answered with its own entropy:
    the category and the crack time of that entropy, no rank, the
    composition of the password; nothing is printed. *)
Theorem evaluate_password_not_common (password : str) (w : World)
    (rows : list Row) :
  (services.calculate_L password <= 128)%Z ->
  spec.healthy w rows -> spec.consistent w rows -> within_capacity w ->
  spec.corpus_member rows (str_lower password) = false ->
  exists e ct w',
    services.calculate_entropy password = Return e
    /\ services.calculate_crack_time e = Return ct
    /\ services.evaluate_password password w
       = (Return (plain_result password e ct), w')
    /\ stdout w' = stdout w.
Proof.
  intros HL Hh Hc Hl Hm.
  destruct (evaluate_password_healthy password w rows HL Hh Hc Hl)
    as (ev & w' & E & _ & _ & _ & O & V).
  rewrite Hm in V. destruct V as (e & ct & He & Hct & ->).
  now exists e, ct, w'.
Qed.

End Orchestrator.

(** ** The application *)

Section Application.
Context {U : Unicode} {libm : Libm}.
Import database behaviour.
Local Open Scope string_scope.

(** The handler turns every exception of the evaluation into its own 500. *)
Lemma evaluate_password_endpoint_cases (password : str) (w : World) :
  match services.evaluate_password password w with
  | (Return ev, w1) =>
      main.evaluate_password_endpoint password w = (Return (main.HTTP_200 ev), w1)
  | (Raise e, w1) =>
      main.evaluate_password_endpoint password w
      = (Return (main.HTTP_500 generic_detail),
         set_stdout w1
           (stdout w1 ++ [("Error al evaluar contraseña: " ++ exn_str e)%string])%list)
  end.
Proof.
  unfold main.evaluate_password_endpoint, try_except, bind, ret.
  destruct (services.evaluate_password password w) as [[ev | e] w1]; reflexivity.
Qed.

(** The handler returns, with 200 or with its own 500, never raises, and
    leaves the store as it was; when the entropy can be computed the
    password is a key of the cache afterwards. *)
Lemma evaluate_password_endpoint_effects (password : str) (w : World) :
  exists a w',
    main.evaluate_password_endpoint password w = (Return a, w')
    /\ same_store w w'
    /\ match a with
       | main.HTTP_422 => False
       | main.HTTP_200 ev =>
           services.evaluate_password password w = (Return ev, w')
       | main.HTTP_500 detail => detail = generic_detail
       end
    /\ ((services.calculate_L password <= sys_maxsize)%Z ->
        exists v, cache_get password (entries (cache w')) = Some v).
Proof.
  pose proof (evaluate_password_endpoint_cases password w) as C.
  pose proof (evaluate_password_effects password w) as [St G].
  destruct (services.evaluate_password password w) as [[ev | e] w1];
    cbn [snd] in St, G; rewrite C; do 2 eexists; (split; [reflexivity |]).
  - split; [exact St |]. split; [reflexivity |].
    intros HL. exact (G (calculate_entropy_returns password HL)).
  - split; [apply same_store_trans with w1;
            [exact St | now apply same_store_proj] |].
    split; [reflexivity |].
    intros HL. exact (G (calculate_entropy_returns password HL)).
Qed.

Lemma accepted_iff (password : str) :
  accepted password = true
  <-> main.encodable password = true /\ in_length password = true.
Proof. unfold accepted. apply andb_true_iff. Qed.

Lemma in_length_calculate_L (password : str) :
  in_length password = true -> (services.calculate_L password <= 128)%Z.
Proof.
  unfold in_length. intros A. apply andb_true_iff in A. destruct A as [_ A].
  apply Z.leb_le in A. exact A.
Qed.

(** The request under the framework: refused as no text (the exception goes
    to the server), refused for its length (422), or handed to the handler. *)
Lemma post_evaluate_cases (password : str) (w : World) :
  (main.encodable password = false
   /\ exists e, main.post_evaluate password w = (Raise e, w))
  \/ (main.encodable password = true /\ in_length password = false
      /\ main.post_evaluate password w = (Return main.HTTP_422, w))
  \/ (accepted password = true
      /\ main.post_evaluate password w
         = main.evaluate_password_endpoint password w).
Proof.
  unfold main.post_evaluate. fold (in_length password).
  destruct (main.encodable password) eqn:En; cbn [negb].
  - right. destruct (in_length password) eqn:Le.
    + right. split; [| reflexivity]. apply accepted_iff. now split.
    + left. repeat split.
  - left. split; [reflexivity |]. eexists. reflexivity.
Qed.

Lemma Forall2_length_eq {A B} (R : A -> B -> Prop) (l : list A) (l' : list B) :
  Forall2 R l l' -> List.length l' = List.length l.
Proof. induction 1; cbn; congruence. Qed.

Lemma serve_effects (requests : list str) (w : World) :
  exists answers w',
    main.serve requests w = (answers, w')
    /\ Forall2 (fun password a =>
                  match a with
                  | main.HTTP_422 =>
                      main.encodable password = true
                      /\ in_length password = false
                  | main.HTTP_200 _ => accepted password = true
                  | main.HTTP_500 detail =>
                      (main.encodable password = false
                       /\ detail = server_detail)
                      \/ (accepted password = true
                          /\ detail = generic_detail)
                  end) requests answers
    /\ same_store w w'.
Proof.
  revert w. induction requests as [| p rest IH]; intros w.
  - exists [], w. split; [reflexivity |]. split; [constructor | apply same_store_refl].
  - cbn [main.serve].
    destruct (post_evaluate_cases p w)
      as [(En & e & E1) | [(En & Le & E1) | (A & E1)]].
    + destruct (IH w) as (answers & w2 & E2 & F & S2).
      rewrite E1, E2. do 2 eexists. split; [reflexivity |].
      split; [| exact S2]. constructor; [| exact F]. left. now split.
    + destruct (IH w) as (answers & w2 & E2 & F & S2).
      rewrite E1, E2. do 2 eexists. split; [reflexivity |].
      split; [| exact S2]. constructor; [| exact F]. now split.
    + destruct (evaluate_password_endpoint_effects p w)
        as (a & w1 & E & S1 & K & _).
      destruct (IH w1) as (answers & w2 & E2 & F & S2).
      rewrite E1, E, E2. do 2 eexists. split; [reflexivity |].
      split; [| now apply same_store_trans with w1].
      constructor; [| exact F].
      destruct a as [ev | | detail]; [exact A | contradiction | right; now split].
Qed.

(** X11. Whatever the state of the store, every request gets exactly one
    response.  A password that holds a surrogate code point is refused
    before the handler runs and the server answers its own 500, "Internal
    Server Error"; this happens for no other password.  A password without
    one gets 422 exactly when it is empty or longer than 128 characters, and
    otherwise 200 with an evaluation or 500 with the handler's fixed detail.
    The handler itself always returns a response, never 422, and lets no
    exception through. *)
Theorem serve_response_kinds (requests : list str) (w : World) :
  (exists answers w',
     main.serve requests w = (answers, w')
     /\ List.length answers = List.length requests
     /\ Forall2 (fun password a =>
                   match a with
                   | main.HTTP_422 =>
                       main.encodable password = true
                       /\ in_length password = false
                   | main.HTTP_200 _ => accepted password = true
                   | main.HTTP_500 detail =>
                       (main.encodable password = false
                        /\ detail = server_detail)
                       \/ (accepted password = true
                           /\ detail = generic_detail)
                   end) requests answers)
  /\ (forall password w0,
        exists a w1,
          main.evaluate_password_endpoint password w0 = (Return a, w1)
          /\ a <> main.HTTP_422).
Proof.
  split.
  - destruct (serve_effects requests w) as (answers & w' & E & F & _).
    exists answers, w'. split; [exact E |]. split; [| exact F].
    exact (Forall2_length_eq _ _ _ F).
  - intros password w0.
    destruct (evaluate_password_endpoint_effects password w0)
      as (a & w1 & E & _ & K & _).
    exists a, w1. split; [exact E |]. intros ->. exact K.
Qed.

(** X13. Every password the handler evaluates is kept, as it was typed, as a
    key of the membership cache: for a password of any length a Python
    string can have, [evaluate_password_endpoint] returns 200 or its own
    500, and afterwards the cache holds an entry under that very string. *)
Theorem evaluated_password_stays_in_cache (password : str) (w : World) :
  (services.calculate_L password <= sys_maxsize)%Z ->
  exists a w' v,
    main.evaluate_password_endpoint password w = (Return a, w')
    /\ a <> main.HTTP_422
    /\ cache_get password (entries (cache w')) = Some v.
Proof.
  intros HL.
  destruct (evaluate_password_endpoint_effects password w)
    as (a & w' & E & _ & K & G).
  destruct (G HL) as (v & Hv). exists a, w', v.
  split; [exact E |]. split; [| exact Hv].
  intros ->. exact K.
Qed.

(** The start-up on a file that loads: the connection it leaves, and the
    cache untouched. *)
Lemma lifespan_startup_starts (w : World) (f : DbFile) (rows : list Row) :
  fs w = Some f -> is_database f = true -> db_passwords f = Some rows ->
  ~ In true (firstn 5 (db_faults f)) ->
  exists w1,
    main.lifespan_startup w = (Return tt, w1)
    /\ DB_CONNECTION w1
       = Some {| closed := false; corrupt := false; passwords := Some rows;
                 faults := skipn 5 (db_faults f) |}
    /\ cache w1 = cache w.
Proof.
  intros Ef Hd Hp NF.
  unfold main.lifespan_startup, bind, print. cbv beta iota.
  match goal with
  | |- context [init_database ?w0] =>
      destruct (init_database_success w0 f rows Ef Hd Hp NF)
        as (w1 & E1 & Ec1 & _ & C1 & _)
  end.
  rewrite E1. cbn [negb]. eexists. split; [reflexivity |].
  split; [exact Ec1 | exact C1].
Qed.

Context {Hlibm : LibmFacts libm}.

Lemma serve_healthy (requests : list str) (w : World) (rows : list Row) :
  spec.healthy w rows -> spec.consistent w rows -> within_capacity w ->
  Forall (fun password => accepted password = true) requests ->
  exists evaluations w',
    main.serve requests w = (map main.HTTP_200 evaluations, w')
    /\ Forall2 (fun password ev =>
                  models.is_common ev
                  = spec.corpus_member rows (str_lower password)
                  /\ models.composition ev
                     = services.analyze_composition password)
               requests evaluations
    /\ stdout w' = stdout w
    /\ spec.healthy w' rows /\ spec.consistent w' rows /\ within_capacity w'.
Proof.
  revert w. induction requests as [| p rest IH]; intros w Hh Hc Hl HA.
  - exists [], w. repeat split; auto.
  - inversion HA as [| ? ? A HA']; subst.
    assert (HL : (services.calculate_L p <= 128)%Z).
    { apply in_length_calculate_L. now apply accepted_iff in A. }
    destruct (evaluate_password_healthy p w rows HL Hh Hc Hl)
      as (ev & w1 & E1 & Hh1 & Hc1 & Hl1 & O1 & V).
    destruct (IH w1 Hh1 Hc1 Hl1 HA')
      as (evs & w2 & E2 & F & O2 & Hh2 & Hc2 & Hl2).
    pose proof (evaluate_password_endpoint_cases p w) as C. rewrite E1 in C.
    assert (P : main.post_evaluate p w = (Return (main.HTTP_200 ev), w1)).
    { destruct (post_evaluate_cases p w)
        as [(En & _) | [(_ & Le & _) | (_ & E)]].
      - apply accepted_iff in A. destruct A as [A _]. congruence.
      - apply accepted_iff in A. destruct A as [_ A]. congruence.
      - now rewrite E. }
    exists (ev :: evs), w2. cbn [main.serve map]. rewrite P, E2.
    split; [reflexivity |]. split; [| split; [congruence | auto]].
    constructor; [| exact F].
    destruct (spec.corpus_member rows (str_lower p)).
    + destruct V as (k & _ & ->). split; reflexivity.
    + destruct V as (e & ct & _ & _ & ->). split; reflexivity.
Qed.

(** X12. On a store whose queries succeed, with a cache that agrees with the
    store and holds no more than its capacity, every request whose password
    has no surrogate code point and 1 to 128 characters is answered 200: the
    evaluation says "common" exactly for the passwords whose lower-cased
    form is in the corpus, and nothing is printed while serving. *)
Theorem serve_answers_every_valid_request (requests : list str)
    (w : World) (rows : list Row) :
  spec.healthy w rows -> spec.consistent w rows -> within_capacity w ->
  Forall (fun password => accepted password = true) requests ->
  exists evaluations w',
    main.serve requests w = (map main.HTTP_200 evaluations, w')
    /\ Forall2 (fun password ev =>
                  models.is_common ev
                  = spec.corpus_member rows (str_lower password)
                  /\ models.composition ev
                     = services.analyze_composition password)
               requests evaluations
    /\ stdout w' = stdout w.
Proof.
  intros Hh Hc Hl HA.
  destruct (serve_healthy requests w rows Hh Hc Hl HA)
    as (evs & w' & E & F & O & _).
  now exists evs, w'.
Qed.

(** X14. Whenever the application served, it answered each request once, and
    its shutdown closed the connection the start-up had opened (which stays
    in [DB_CONNECTION], closed) and printed its line last. *)
Theorem run_closes_the_connection (requests : list str) (w w' : World)
    (answers : list main.response) :
  main.run requests w = (main.Served answers, w') ->
  List.length answers = List.length requests
  /\ exists c out,
       DB_CONNECTION w' = Some c /\ closed c = true
       /\ stdout w' = (out ++ ["🔌 Conexión a base de datos cerrada"])%list.
Proof.
  unfold main.run.
  destruct (main.lifespan_startup w) as [[[] | e] w1] eqn:S; [| discriminate].
  destruct (lifespan_startup_loaded _ _ S) as (c1 & rows & Ec1 & _).
  destruct (serve_effects requests w1) as (ans & w2 & E & F & [_ St]).
  rewrite E. intros H. injection H as <- <-.
  split; [exact (Forall2_length_eq _ _ _ F) |].
  rewrite Ec1 in St. destruct (DB_CONNECTION w2) as [c2 |] eqn:Ec2; [| contradiction].
  unfold main.lifespan_shutdown, close_database. rewrite Ec2.
  exists (set_closed c2 true), (stdout w2). repeat split.
Qed.

(** X15. From start to shutdown on a store in order: when the file is a
    database with the passwords table and no statement fails, and the cache
    the process starts with agrees with the table and holds no more than its
    capacity (an empty cache does), the application starts, answers 200 to
    every request whose password has no surrogate code point and 1 to 128
    characters, with "common" exactly for the passwords whose lower-cased
    form is in the table, and closes the connection at the end. *)
Theorem run_serves_a_loaded_store (requests : list str) (w : World)
    (f : DbFile) (rows : list Row) :
  fs w = Some f -> is_database f = true -> db_passwords f = Some rows ->
  Forall (fun b => b = false) (db_faults f) ->
  spec.consistent w rows -> within_capacity w ->
  Forall (fun password => accepted password = true) requests ->
  exists evaluations w' c,
    main.run requests w = (main.Served (map main.HTTP_200 evaluations), w')
    /\ Forall2 (fun password ev =>
                  models.is_common ev
                  = spec.corpus_member rows (str_lower password)
                  /\ models.composition ev
                     = services.analyze_composition password)
               requests evaluations
    /\ DB_CONNECTION w' = Some c /\ closed c = true.
Proof.
  intros Ef Hd Hp Hf Hc Hl HA.
  assert (NF : ~ In true (firstn 5 (db_faults f))).
  { intros HIn. rewrite Forall_forall in Hf.
    assert (T : true = false); [| discriminate].
    apply Hf. rewrite <- (firstn_skipn 5 (db_faults f)).
    apply in_or_app. now left. }
  destruct (lifespan_startup_starts w f rows Ef Hd Hp NF)
    as (w2 & S & Ec2 & C2).
  assert (Hh2 : spec.healthy w2 rows).
  { eexists. split; [exact Ec2 |]. repeat split.
    cbn [faults]. rewrite Forall_forall in *. intros b Hb. apply Hf.
    rewrite <- (firstn_skipn 5 (db_faults f)). apply in_or_app. now right. }
  assert (Hc2 : spec.consistent w2 rows).
  { unfold spec.consistent. now rewrite C2. }
  assert (Hl2 : within_capacity w2).
  { unfold within_capacity. now rewrite C2. }
  destruct (serve_healthy requests w2 rows Hh2 Hc2 Hl2 HA)
    as (evs & w3 & E3 & F & _ & (c3 & Ec3 & _) & _).
  exists evs. unfold main.run. rewrite S, E3.
  unfold main.lifespan_shutdown, close_database. rewrite Ec3.
  do 2 eexists. split; [reflexivity |]. split; [exact F |]. split; reflexivity.
Qed.

End Application.

(** ** The store that is not there *)

Section CorpusUnavailable.
Context {U : Unicode} {libm : Libm} {Hlibm : LibmFacts libm}.
Import database behaviour.
Local Open Scope string_scope.

(** Exactly what makes [init_database] answer [False]. *)
Lemma init_database_fails_iff (w : World) :
  (exists w1, init_database w = (Return false, w1))
  <-> (fs w = None
       \/ exists f, fs w = Some f
                    /\ (is_database f = false \/ db_passwords f = None
                        \/ In true (firstn 5 (db_faults f)))).
Proof.
  split.
  - intros (w1 & E). destruct (fs w) as [f |] eqn:Ef; [| now left].
    right. exists f. split; [reflexivity |].
    destruct (is_database f) eqn:Hd; [| now left].
    destruct (db_passwords f) as [rows |] eqn:Hp; [| right; now left].
    destruct (in_dec Bool.bool_dec true (firstn 5 (db_faults f))) as [HIn | NF];
      [right; right; exact HIn |].
    destruct (init_database_success w f rows Ef Hd Hp NF) as (w2 & E2 & _).
    rewrite E2 in E. discriminate E.
  - intros [Ef | (f & Ef & H)].
    + now apply init_database_missing_file.
    + now apply init_database_unusable_file with f.
Qed.

(** Called with no connection, the membership check answers [False], stores
    it under the password, and prints nothing. *)
Lemma is_common_password_without_connection (password : str) (w : World) :
  DB_CONNECTION w = None ->
  cache_get password (entries (cache w)) = None ->
  exists w',
    is_common_password password w = (Return false, w')
    /\ stdout w' = stdout w /\ DB_CONNECTION w' = None /\ fs w' = fs w
    /\ cache_get password (entries (cache w')) = Some false.
Proof.
  intros Ec Eg. pose proof (is_common_password_step password w) as H.
  rewrite Eg in H. destruct H as (b & w2 & Eb & E).
  unfold is_common_password_body, on_miss in Eb. cbn [DB_CONNECTION set_cache] in Eb.
  rewrite Ec in Eb. injection Eb as <- <-.
  eexists. split; [exact E |]. cbn [stdout DB_CONNECTION fs set_cache cache entries].
  split; [reflexivity |]. split; [exact Ec |]. split; [reflexivity |].
  destruct (Z.of_nat (List.length (entries (cache w))) <? maxsize)%Z;
    apply cache_get_head.
Qed.

(** C8 (as amended). The application refuses to start when the store fails
    to load, which is exactly when the file is missing, is no database,
    lacks the table, or one of the five statements of the start-up fails:
    the start-up raises its own [RuntimeError] and no request is answered;
    whenever requests are answered the connection is open on a database with
    the table.  A table that loads with no row in it is no failure.  The
    engine does not refuse: called with the store never initialized, it
    evaluates the password as one that is not common, prints nothing, and
    keeps the answer [False] in the cache. *)
Theorem startup_fails_without_store (requests : list str) (w : World) :
  (forall w1,
     init_database w = (Return false, w1) ->
     exists w',
       main.run requests w
       = (main.StartupFailed (RuntimeError "Base de datos no disponible"), w'))
  /\ ((exists w1, init_database w = (Return false, w1))
      <-> (fs w = None
           \/ exists f, fs w = Some f
                        /\ (is_database f = false \/ db_passwords f = None
                            \/ In true (firstn 5 (db_faults f)))))
  /\ (forall answers w',
        main.run requests w = (main.Served answers, w') ->
        exists w1 c rows,
          main.lifespan_startup w = (Return tt, w1)
          /\ DB_CONNECTION w1 = Some c /\ closed c = false
          /\ corrupt c = false /\ passwords c = Some rows)
  /\ (forall f,
        fs w = Some f -> is_database f = true -> db_passwords f = Some [] ->
        ~ In true (firstn 5 (db_faults f)) ->
        exists w1 c,
          init_database w = (Return true, w1)
          /\ DB_CONNECTION w1 = Some c /\ passwords c = Some [])
  /\ (forall password,
        DB_CONNECTION w = None ->
        cache_get password (entries (cache w)) = None ->
        (services.calculate_L password <= 128)%Z ->
        exists e ct w',
          services.evaluate_password password w
          = (Return (plain_result password e ct), w')
          /\ models.is_common (plain_result password e ct) = false
          /\ stdout w' = stdout w
          /\ DB_CONNECTION w' = None
          /\ cache_get password (entries (cache w')) = Some false).
Proof.
  split; [intros w1; apply run_startup_fails |].
  split; [apply init_database_fails_iff |].
  split.
  { intros answers w' H. destruct (run_served _ _ _ _ H) as (w1 & E).
    destruct (lifespan_startup_loaded _ _ E) as (c & rows & H1 & H2 & H3 & H4).
    exists w1, c, rows. auto. }
  split.
  { intros f Ef Hd Hp NF.
    destruct (init_database_success w f [] Ef Hd Hp NF) as (w1 & E1 & Ec1 & _).
    do 2 eexists. split; [exact E1 |]. split; [exact Ec1 | reflexivity]. }
  intros password Ec Eg HL.
  destruct (calculate_entropy_within_range password HL) as (e & Ee & G0 & G1).
  destruct (calculate_crack_time_returns e G0 G1) as (ct & Ect).
  destruct (is_common_password_without_connection password w Ec Eg)
    as (w' & E & O & Ec' & _ & Eg').
  exists e, ct, w'. rewrite evaluate_password_unfold, Ee, E, Ect.
  repeat split; assumption.
Qed.

End CorpusUnavailable.

(** ** Further examples *)

Section MoreExamples.
Import database behaviour.

Lemma healthy_serving : spec.healthy (scenario.serving []) scenario.corpus.
Proof. eexists. split; [reflexivity |]. repeat split. constructor. Qed.

Lemma over_serving (fate : list bool) : over (scenario.serving fate) scenario.corpus.
Proof. intros c E. injection E as <-. reflexivity. Qed.

Lemma within_capacity_empty (w : World) :
  entries (cache w) = [] -> within_capacity w.
Proof. unfold within_capacity. intros ->. discriminate. Qed.

Lemma get_cache_info_accounts_witness :
  exists answers w' info,
    spec.ask_all (U := latin) [lit "Password"; lit "password"; lit "Password"]
      (scenario.serving [true])
    = (map Return answers, w')
    /\ within_capacity w' /\ distinct_keys w'
    /\ get_cache_info w' = (Return info, w')
    /\ info_maxsize info = 10000%Z
    /\ (0 <= info_size info <= info_maxsize info)%Z
    /\ (info_hits info + info_misses info = 0 + 0 + 3)%Z.
Proof.
  apply (get_cache_info_accounts (U := latin)
           [lit "Password"; lit "password"; lit "Password"]
           (scenario.serving [true])).
  - now apply within_capacity_empty.
  - constructor.
Defined.

Lemma is_common_password_no_false_positive_witness :
  exists answers w',
    spec.ask_all (U := latin) [lit "password"; lit "Password"; lit "hunter2"]
      (scenario.serving [true; false; true])
    = (map Return answers, w')
    /\ Forall2 (fun p v =>
                  v = true ->
                  spec.corpus_member scenario.corpus
                    (str_lower (Unicode := latin) p) = true)
               [lit "password"; lit "Password"; lit "hunter2"] answers
    /\ over w' scenario.corpus
    /\ sound_positives (U := latin) w' scenario.corpus.
Proof.
  apply (is_common_password_no_false_positive (U := latin)
           [lit "password"; lit "Password"; lit "hunter2"]
           (scenario.serving [true; false; true]) scenario.corpus).
  - apply over_serving.
  - constructor.
Defined.

Lemma evaluate_password_not_common_witness :
  exists e ct w',
    services.calculate_entropy (U := latin) (libm := dyadic) (lit "Tr0ub4dor&3XQ!")
    = Return e
    /\ services.calculate_crack_time (libm := dyadic) e = Return ct
    /\ services.evaluate_password (U := latin) (libm := dyadic)
         (lit "Tr0ub4dor&3XQ!") (scenario.serving [])
       = (Return (plain_result (U := latin) (lit "Tr0ub4dor&3XQ!") e ct), w')
    /\ stdout w' = stdout (scenario.serving []).
Proof.
  apply (evaluate_password_not_common (U := latin) (libm := dyadic)
           (Hlibm := dyadic_facts) (lit "Tr0ub4dor&3XQ!") (scenario.serving [])
           scenario.corpus).
  - vm_compute. discriminate.
  - exact healthy_serving.
  - constructor.
  - now apply within_capacity_empty.
  - vm_compute. reflexivity.
Defined.

Lemma evaluate_password_result_shape_witness :
  exists ev w',
    services.evaluate_password (U := latin) (libm := dyadic)
      (lit "Tr0ub4dor&3XQ!") (scenario.serving [])
    = (Return ev, w')
    /\ (0 <= models.score ev <= 5)%Z
    /\ (models.score ev = 0%Z <-> models.is_common ev = true)
    /\ models.composition ev
       = services.analyze_composition (U := latin) (lit "Tr0ub4dor&3XQ!").
Proof.
  destruct (evaluate_password_healthy (U := latin) (libm := dyadic)
              (Hlibm := dyadic_facts) (lit "Tr0ub4dor&3XQ!")
              (scenario.serving []) scenario.corpus)
    as (ev & w' & E & _).
  - vm_compute. discriminate.
  - exact healthy_serving.
  - constructor.
  - now apply within_capacity_empty.
  - exists ev, w'. split; [exact E |].
    destruct (evaluate_password_result_shape (U := latin) (libm := dyadic)
                (lit "Tr0ub4dor&3XQ!") (scenario.serving []) w' ev E)
      as (H1 & H2 & _ & _ & _ & H6).
    split; [exact H1 |]. split; [exact H2 | exact H6].
Defined.

Lemma evaluated_password_stays_in_cache_witness :
  exists a w' v,
    main.evaluate_password_endpoint (U := latin) (libm := dyadic) (lit "hunter2")
      (scenario.serving [true])
    = (Return a, w')
    /\ a <> main.HTTP_422
    /\ cache_get (lit "hunter2") (entries (cache w')) = Some v.
Proof.
  apply (evaluated_password_stays_in_cache (U := latin) (libm := dyadic)
           (lit "hunter2") (scenario.serving [true])).
  vm_compute. discriminate.
Defined.

Lemma serve_answers_every_valid_request_witness :
  exists evaluations w',
    main.serve (U := latin) (libm := dyadic)
      [lit "password"; lit "Tr0ub4dor&3XQ!"] (scenario.serving [])
    = (map main.HTTP_200 evaluations, w')
    /\ Forall2 (fun password ev =>
                  models.is_common ev
                  = spec.corpus_member scenario.corpus
                      (str_lower (Unicode := latin) password)
                  /\ models.composition ev
                     = services.analyze_composition (U := latin) password)
               [lit "password"; lit "Tr0ub4dor&3XQ!"] evaluations
    /\ stdout w' = stdout (scenario.serving []).
Proof.
  apply (serve_answers_every_valid_request (U := latin) (libm := dyadic)
           (Hlibm := dyadic_facts) [lit "password"; lit "Tr0ub4dor&3XQ!"]
           (scenario.serving []) scenario.corpus).
  - exact healthy_serving.
  - constructor.
  - now apply within_capacity_empty.
  - repeat constructor.
Defined.

Lemma run_serves_a_loaded_store_witness :
  exists evaluations w' c,
    main.run (U := latin) (libm := dyadic)
      [lit "password"; lit "Tr0ub4dor&3XQ!"] installed
    = (main.Served (map main.HTTP_200 evaluations), w')
    /\ Forall2 (fun password ev =>
                  models.is_common ev
                  = spec.corpus_member scenario.corpus
                      (str_lower (Unicode := latin) password)
                  /\ models.composition ev
                     = services.analyze_composition (U := latin) password)
               [lit "password"; lit "Tr0ub4dor&3XQ!"] evaluations
    /\ DB_CONNECTION w' = Some c /\ closed c = true.
Proof.
  apply (run_serves_a_loaded_store (U := latin) (libm := dyadic)
           (Hlibm := dyadic_facts) [lit "password"; lit "Tr0ub4dor&3XQ!"]
           installed
           {| is_database := true; db_passwords := Some scenario.corpus;
              db_faults := [] |}
           scenario.corpus).
  - reflexivity.
  - reflexivity.
  - reflexivity.
  - constructor.
  - constructor.
  - now apply within_capacity_empty.
  - repeat constructor.
Defined.

Lemma run_closes_the_connection_witness :
  exists answers w',
    main.run (U := latin) (libm := dyadic) [lit "password"; []] installed
    = (main.Served answers, w')
    /\ List.length answers = 2%nat
    /\ exists c out,
         DB_CONNECTION w' = Some c /\ closed c = true
         /\ stdout w' = (out ++ ["🔌 Conexión a base de datos cerrada"%string])%list.
Proof.
  destruct (main.run (U := latin) (libm := dyadic) [lit "password"; []] installed)
    as [[e | answers] w'] eqn:E.
  - exfalso. vm_compute in E. discriminate E.
  - exists answers, w'. split; [reflexivity |].
    exact (run_closes_the_connection (U := latin) (libm := dyadic)
             [lit "password"; []] installed w' answers E).
Defined.

Lemma calculate_crack_time_value_range_witness :
  exists lo hi,
    In ("segundos"%string, lo, hi) behaviour.unit_ranges
    /\ behaviour.value_in_range lo hi
         (S754_finite false 6192449487634432 (-50)) = true.
Proof.
  apply (calculate_crack_time_value_range (libm := dyadic) (Hlibm := dyadic_facts)
           (of_int 40)
           {| models.value := S754_finite false 6192449487634432 (-50);
              models.unit := "segundos" |}).
  - reflexivity.
  - exact crack_time_40_bits.
Defined.

Lemma evaluation_ignores_order_witness :
  services.analyze_composition (U := latin) (rev (lit "password1"))
  = services.analyze_composition (U := latin) (lit "password1")
  /\ services.calculate_entropy (U := latin) (libm := dyadic) (rev (lit "password1"))
     = services.calculate_entropy (U := latin) (libm := dyadic) (lit "password1").
Proof.
  apply (evaluation_ignores_order (U := latin) (libm := dyadic)
           (lit "password1") (rev (lit "password1"))).
  apply Permutation_rev.
Defined.

Lemma calculate_entropy_concat_witness :
  exists e1 e2 e,
    services.calculate_entropy (U := latin) (libm := dyadic) (lit "abc") = Return e1
    /\ services.calculate_entropy (U := latin) (libm := dyadic) (lit "123!") = Return e2
    /\ services.calculate_entropy (U := latin) (libm := dyadic)
         (lit "abc" ++ lit "123!") = Return e
    /\ fle e1 e = true /\ fle e2 e = true.
Proof.
  apply (calculate_entropy_concat (U := latin) (libm := dyadic)
           (Hlibm := dyadic_facts) (Hmono := dyadic_monotone)
           (lit "abc") (lit "123!")).
  vm_compute. discriminate.
Defined.

Lemma short_password_category_witness :
  exists e,
    services.calculate_entropy (U := latin) (libm := dyadic) (lit "aB3$x") = Return e
    /\ spec.label_of (services.get_strength_category e) = "Muy Débil"%string
    /\ spec.score_of (services.get_strength_category e) = 1%Z.
Proof.
  apply (proj1 (short_password_category (U := latin) (libm := dyadic)
                  (Hlibm := dyadic_facts) (lit "aB3$x"))).
  vm_compute. discriminate.
Defined.

Lemma cached_answer_survives_witness :
  exists v w1 answers w2 w3,
    is_common_password (U := latin) (lit "password") (scenario.serving [])
    = (Return v, w1)
    /\ spec.ask_all (U := latin) [lit "qwerty"; lit "hunter2"] w1 = (answers, w2)
    /\ cache_get (lit "password") (entries (cache w2)) = Some v
    /\ is_common_password (U := latin) (lit "password") w2 = (Return v, w3)
    /\ hits (cache w3) = (hits (cache w2) + 1)%Z
    /\ misses (cache w3) = misses (cache w2).
Proof.
  apply (cached_answer_survives (U := latin) (lit "password")
           [lit "qwerty"; lit "hunter2"] (scenario.serving [])).
  - unfold within_capacity. discriminate.
  - constructor.
  - reflexivity.
Defined.

Lemma calculate_crack_time_unit_monotone_witness :
  services.calculate_crack_time (libm := dyadic) (of_int 10)
  = Return {| models.value :=
                round2 (fmul (fdiv (of_int (2 ^ 10)) (of_int (2 * 10 ^ 11)))
                             (of_int 1000));
              models.unit := "milisegundos" |}
  /\ services.calculate_crack_time (libm := dyadic) (of_int 40)
     = Return {| models.value := S754_finite false 6192449487634432 (-50);
                 models.unit := "segundos" |}
  /\ (behaviour.unit_rank "milisegundos" <= behaviour.unit_rank "segundos")%Z.
Proof.
  assert (H : fle (of_int 10) (of_int 40) = true) by (vm_compute; reflexivity).
  assert (C1 : services.calculate_crack_time (libm := dyadic) (of_int 10)
               = Return {| models.value :=
                             round2 (fmul (fdiv (of_int (2 ^ 10)) (of_int (2 * 10 ^ 11)))
                                          (of_int 1000));
                           models.unit := "milisegundos" |})
    by (vm_compute; reflexivity).
  split; [exact C1 |]. split; [exact crack_time_40_bits |].
  exact (calculate_crack_time_unit_monotone (libm := dyadic) (Hlibm := dyadic_facts)
           (of_int 10) (of_int 40) _ _ H C1 crack_time_40_bits).
Defined.

(** A request whose password is a lone surrogate, an empty one and a proper
    one, on a store in order. *)
Lemma serve_example :
  exists ev w',
    main.serve (U := latin) (libm := dyadic)
      [[55296%N]; []; lit "password"] (scenario.serving [])
    = ([main.HTTP_500 server_detail; main.HTTP_422; main.HTTP_200 ev], w')
    /\ models.is_common ev = true
    /\ List.length (entries (cache w')) = 1%nat.
Proof. vm_compute. do 2 eexists. repeat split. Qed.

Lemma startup_fails_without_store_witness :
  (exists w',
     main.run (U := latin) (libm := dyadic) [lit "password"] scenario.cold
     = (main.StartupFailed (RuntimeError "Base de datos no disponible"), w'))
  /\ exists e ct w',
       services.evaluate_password (U := latin) (libm := dyadic)
         (lit "password") scenario.cold
       = (Return (plain_result (U := latin) (lit "password") e ct), w')
       /\ models.is_common (plain_result (U := latin) (lit "password") e ct)
          = false
       /\ stdout w' = stdout scenario.cold
       /\ DB_CONNECTION w' = None
       /\ cache_get (lit "password") (entries (cache w')) = Some false.
Proof.
  destruct (startup_fails_without_store (U := latin) (libm := dyadic)
              (Hlibm := dyadic_facts) [lit "password"] scenario.cold)
    as (H1 & H2 & _ & _ & H5).
  split.
  - destruct (proj2 H2 (or_introl eq_refl)) as (w1 & E1). exact (H1 w1 E1).
  - apply H5; [reflexivity | reflexivity | vm_compute; discriminate].
Defined.

(** The engine with the store never initialized, the file of the corpus in
    place: "password", second of the corpus, is evaluated as a password
    that is not common and nothing is printed; after a start-up that then
    loads the store, the query says "common" and the cached answer of the
    engine still says it is not. *)
Lemma engine_without_store_reports_not_common :
  let first :=
    services.evaluate_password (U := latin) (libm := dyadic)
      (lit "password") installed in
  let started := init_database (snd first) in
  DB_CONNECTION installed = None
  /\ (exists ev, fst first = Return ev /\ models.is_common ev = false)
  /\ stdout (snd first) = []
  /\ fst started = Return true
  /\ fst (is_common_password_body (U := latin) (lit "password") (snd started))
     = Return true
  /\ fst (is_common_password (U := latin) (lit "password") (snd started))
     = Return false.
Proof.
  vm_compute. repeat split. eexists. split; reflexivity.
Qed.

End MoreExamples.
